(** * Workshop Thermal Camera: the frame pipeline, embedded and verified

    A shallow embedding of the thermal frame pipeline of the Workshop
    Thermal Camera: [CameraAMG88xx.acquire] and its 2x bilinear
    interpolation (cameras/amg88xx.py), the grid renderer and the histogram
    scale of [Display] (bundle/wtc_display.py), and the bitmap encoder of
    [capture_grid_and_upload] (bundle/code.py).

    Numbers.  ulab and CircuitPython floats are modelled by the rational
    they denote, extended with the IEEE-754 special values that a division
    by zero produces; rounding of the binary representation is not
    modelled.  Python integers are [Z]. *)

From Stdlib Require Import ZArith QArith Qcanon Qround Lia Lqa ZifyNat List.
From Stdlib Require Import Strings.Byte.
From stdpp Require Import base numbers list.

(** ** Exceptions and the error monad *)

Inductive exn : Set :=
  | IndexError
  | AttributeError
  | ValueError
  | OverflowError
  | ZeroDivisionError.

Inductive result (A : Type) : Type :=
  | Ok (a : A)
  | Raise (e : exn).
Arguments Ok {A} a.
Arguments Raise {A} e.

#[global] Instance exn_eq_dec : EqDecision exn.
Proof. solve_decision. Defined.
#[global] Instance result_eq_dec {A} `{EqDecision A} : EqDecision (result A).
Proof. solve_decision. Defined.

#[global] Instance result_ret : MRet result := @Ok.
#[global] Instance result_bind : MBind result := fun A B f m =>
  match m with
  | Ok a => f a
  | Raise e => Raise e
  end.

(** [for x in xs: body], threading the state the body mutates. *)
Fixpoint for_each {S X : Type} (body : X -> S -> result S) (xs : list X) (s : S)
  : result S :=
  match xs with
  | [] => Ok s
  | x :: xs' => s' ← body x s; for_each body xs' s'
  end.

(** [range(n)] and [range(n - 1, -1, -1)] *)
Definition range (n : nat) : list nat := seq 0 n.
Definition range_down (n : nat) : list nat := rev (seq 0 n).

(** [l[i]] for an index that is never negative where the pipeline uses it. *)
Definition getitem {A} (l : list A) (i : nat) : result A :=
  match l !! i with
  | Some x => Ok x
  | None => Raise IndexError
  end.

(** ** Floats *)

Inductive float : Type :=
  | Fin (q : Qc)
  | Inf (negative : bool)
  | NaN.

#[global] Instance float_eq_dec : EqDecision float.
Proof. solve_decision. Defined.

Module Float.

Definition of_int (z : Z) : float := Fin (Qc_of_Z z).
Definition of_nat (n : nat) : float := of_int (Z.of_nat n).

Definition Qc_ltb (x y : Qc) : bool := bool_decide (x < y)%Qc.
Definition Qc_is_zero (x : Qc) : bool := bool_decide (x = 0%Qc).
Definition Qc_is_neg (x : Qc) : bool := Qc_ltb x 0%Qc.

Definition opp (a : float) : float :=
  match a with
  | Fin x => Fin (- x)%Qc
  | Inf s => Inf (negb s)
  | NaN => NaN
  end.

Definition add (a b : float) : float :=
  match a, b with
  | Fin x, Fin y => Fin (x + y)%Qc
  | Fin _, Inf s | Inf s, Fin _ => Inf s
  | Inf s, Inf s' => if bool_decide (s = s') then Inf s else NaN
  | NaN, _ | _, NaN => NaN
  end.

Definition sub (a b : float) : float := add a (opp b).

Definition mul (a b : float) : float :=
  match a, b with
  | Fin x, Fin y => Fin (x * y)%Qc
  | Fin x, Inf s | Inf s, Fin x =>
      if Qc_is_zero x then NaN else Inf (xorb s (Qc_is_neg x))
  | Inf s, Inf s' => Inf (xorb s s')
  | NaN, _ | _, NaN => NaN
  end.

(** Division of C floats, as ulab applies it elementwise: no exception, a
    zero divisor gives NaN (0/0) or an infinity (the zero of the model has
    no sign: the infinity takes the sign of the dividend). *)
Definition div (a b : float) : float :=
  match a, b with
  | Fin x, Fin y =>
      if Qc_is_zero y then (if Qc_is_zero x then NaN else Inf (Qc_is_neg x))
      else Fin (x / y)%Qc
  | Fin _, Inf _ => Fin 0%Qc
  | Inf s, Fin y => Inf (xorb s (Qc_is_neg y))
  | Inf _, Inf _ => NaN
  | NaN, _ | _, NaN => NaN
  end.

(** Division of two Python scalars: a zero divisor raises. *)
Definition py_truediv (a b : float) : result float :=
  match b with
  | Fin y => if Qc_is_zero y then Raise ZeroDivisionError else Ok (div a b)
  | _ => Ok (div a b)
  end.

(** [a < b]; false whenever one side is NaN. *)
Definition ltb (a b : float) : bool :=
  match a, b with
  | Fin x, Fin y => Qc_ltb x y
  | Fin _, Inf s => negb s
  | Inf s, Fin _ => s
  | Inf s, Inf s' => s && negb s'
  | NaN, _ | _, NaN => false
  end.

(** [a <= b]; false whenever one side is NaN. *)
Definition leb (a b : float) : bool :=
  match a, b with
  | NaN, _ | _, NaN => false
  | _, _ => negb (ltb b a)
  end.

(** Python's two-argument [min] and [max]: the first argument is kept
    unless the second is strictly smaller (larger). *)
Definition py_min (a b : float) : float := if ltb b a then b else a.
Definition py_max (a b : float) : float := if ltb a b then b else a.

(** Round half to even, to an integer. *)
Definition round_half_even (x : Qc) : Z :=
  let fl := Qfloor x in
  let frac := (x - Qc_of_Z fl)%Qc in
  let half := (1 / Qc_of_Z 2)%Qc in
  if Qc_ltb frac half then fl
  else if Qc_ltb half frac then (fl + 1)%Z
  else if Z.even fl then fl else (fl + 1)%Z.

(** [round(x, ndigits)] on a float, for [ndigits >= 0]. *)
Definition round (x : float) (ndigits : nat) : float :=
  match x with
  | Fin q =>
      let scale := Qc_of_Z (10 ^ Z.of_nat ndigits) in
      Fin (Qc_of_Z (round_half_even (q * scale)%Qc) / scale)%Qc
  | _ => x
  end.

(** [round(x)] with no second argument: the nearest integer, ties to
    even; a float that is not a number has none. *)
Definition round_int (x : float) : result Z :=
  match x with
  | Fin q => Ok (round_half_even q)
  | Inf _ => Raise OverflowError
  | NaN => Raise ValueError
  end.

(** [int(x)]: truncation towards zero. *)
Definition to_int (x : float) : result Z :=
  match x with
  | Fin q => Ok (Z.quot (Qnum q) (Z.pos (Qden q)))
  | Inf _ => Raise OverflowError
  | NaN => Raise ValueError
  end.

End Float.

(** [simpleio.map_range] (a library the bundle imports): linear re-mapping
    of [x] from the input range to the output range, constrained to the
    output range. *)
Definition map_range (x in_min in_max out_min out_max : float) : float :=
  let in_range := Float.sub in_max in_min in
  let in_delta := Float.sub x in_min in
  let mapped :=
    if bool_decide (in_range = Fin 0%Qc) then
      (if bool_decide (in_delta = Fin 0%Qc) then Fin (1 / Qc_of_Z 2)%Qc
       else in_delta)
    else Float.div in_delta in_range in
  let mapped := Float.mul mapped (Float.sub out_max out_min) in
  let mapped := Float.add mapped out_min in
  if Float.leb out_min out_max
  then Float.py_max (Float.py_min mapped out_max) out_min
  else Float.py_min (Float.py_max mapped out_max) out_min.

(** ** ulab arrays, slices and views *)

(** A two-dimensional ulab array, by rows. *)
Abbreviation ndarray A := (list (list A)).

(** A Python slice [start:stop:step] with a positive step. *)
Record slice : Set := Slice { start : option Z; stop : option Z; step : nat }.

(** A view [a[rows, cols]]: a shape and a reader into the array it was
    taken from (slicing copies nothing). *)
Record view (A : Type) : Type :=
  View { view_shape : nat * nat; view_get : nat -> nat -> option A }.
Arguments View {A} _ _.
Arguments view_shape {A} _.
Arguments view_get {A} _ _ _.

Module np.

Definition Qc_min (x y : Qc) : Qc := if bool_decide (x ≤ y)%Qc then x else y.
Definition Qc_max (x y : Qc) : Qc := if bool_decide (x ≤ y)%Qc then y else x.

Section Arrays.
Context {A : Type}.

Definition shape (a : ndarray A) : nat * nat :=
  (length a, match a with [] => 0 | row :: _ => length row end).

(** [np.array(rows)]: the nested list has to be rectangular. *)
Definition array (rows : list (list A)) : result (ndarray A) :=
  if bool_decide (Forall (fun row => length row = (shape rows).2) rows)
  then Ok rows else Raise ValueError.

Definition get2 (a : ndarray A) (i j : nat) : option A :=
  a !! i ≫= (.!! j).

(** [np.flip(a, axis=0)] and [np.flip(a, axis=1)] *)
Definition flip (a : ndarray A) (axis : nat) : ndarray A :=
  match axis with
  | 0 => rev a
  | _ => map (@rev A) a
  end.

(** A slice index, negative from the end, clamped to the axis. *)
Definition resolve_index (n : nat) (i : Z) : nat :=
  Z.to_nat (Z.max 0 (Z.min (if (i <? 0)%Z then i + Z.of_nat n else i)
                           (Z.of_nat n))).

Definition slice_start (s : slice) (n : nat) : nat :=
  from_option (resolve_index n) 0 (start s).
Definition slice_stop (s : slice) (n : nat) : nat :=
  from_option (resolve_index n) n (stop s).
Definition slice_length (s : slice) (n : nat) : nat :=
  (slice_stop s n - slice_start s n + step s - 1) / step s.

(** The axis index of the [k]-th element of the slice, and the position in
    the slice of the axis index [i], if the slice selects it. *)
Definition slice_index (s : slice) (n k : nat) : nat :=
  slice_start s n + k * step s.
Definition slice_pos (s : slice) (n i : nat) : option nat :=
  if bool_decide (slice_start s n <= i < slice_stop s n
                  /\ (i - slice_start s n) mod step s = 0)
  then Some ((i - slice_start s n) / step s) else None.

(** [a[rows, cols]] *)
Definition getitem2 (a : ndarray A) (rows cols : slice) : view A :=
  let '(nr, nc) := shape a in
  View (slice_length rows nr, slice_length cols nc)
       (fun i j =>
          if bool_decide (i < slice_length rows nr /\ j < slice_length cols nc)
          then get2 a (slice_index rows nr i) (slice_index cols nc j)
          else None).

(** [a[rows, cols] op= v] for a view [v] of the shape of the slice
    (broadcasting, which the pipeline does not use, is not modelled: another
    shape raises); [op x y] is the new value of a cell holding [x]. *)
Definition inplace2 {B} (op : A -> B -> A) (a : ndarray A) (rows cols : slice)
    (v : view B) : result (ndarray A) :=
  let '(nr, nc) := shape a in
  if bool_decide (view_shape v = (slice_length rows nr, slice_length cols nc))
  then Ok (imap (fun i row =>
             match slice_pos rows nr i with
             | Some p =>
                 imap (fun j x =>
                   match slice_pos cols nc j with
                   | Some q => from_option (op x) x (view_get v p q)
                   | None => x
                   end) row
             | None => row
             end) a)
  else Raise ValueError.

(** [a[rows, cols] = v] *)
Definition setitem2 (a : ndarray A) (rows cols : slice) (v : view A)
  : result (ndarray A) :=
  inplace2 (fun _ y => y) a rows cols v.

(** [a[rows, cols] op= scalar] *)
Definition inplace_scalar (op : A -> A) (a : ndarray A) (rows cols : slice)
  : ndarray A :=
  let '(nr, nc) := shape a in
  imap (fun i row =>
    match slice_pos rows nr i with
    | Some _ =>
        imap (fun j x =>
          match slice_pos cols nc j with Some _ => op x | None => x end) row
    | None => row
    end) a.

(** The whole array as the right-hand side of an assignment. *)
Definition as_view (a : ndarray A) : view A := View (shape a) (get2 a).

End Arrays.

(** [np.clip(a, a_min, a_max)]: maximum(a_min, minimum(a, a_max)) *)
Definition clip (a : ndarray Qc) (a_min a_max : Qc) : ndarray Qc :=
  map (map (fun x => Qc_max a_min (Qc_min x a_max))) a.

(** [np.min], [np.max] and [np.mean] over all the cells of the array. *)
Definition min_of (cells : list Qc) : result Qc :=
  match cells with
  | [] => Raise ValueError
  | x :: xs => Ok (foldl Qc_min x xs)
  end.
Definition max_of (cells : list Qc) : result Qc :=
  match cells with
  | [] => Raise ValueError
  | x :: xs => Ok (foldl Qc_max x xs)
  end.
Definition min (a : ndarray Qc) : result Qc := min_of (concat a).
Definition max (a : ndarray Qc) : result Qc := max_of (concat a).
Definition sum (xs : list Qc) : Qc := foldr Qcplus 0%Qc xs.
Definition mean (a : ndarray Qc) : Qc :=
  (sum (concat a) / Qc_of_Z (Z.of_nat (length (concat a))))%Qc.

End np.

(** ** The camera (cameras/amg88xx.py) *)

Module Camera.

Record camera : Type := {
  _range_min_c : Qc;
  _range_max_c : Qc;
  _auto_focus : bool;
  _interpolate : bool;
  _sensor_axis : nat * nat;
  _grid_axis : nat * nat;
  _sensor_data : ndarray float;
  _grid_data : ndarray float;
  _sensor_min_c : Qc;
  _sensor_avg_c : Qc;
  _sensor_max_c : Qc
}.

(** [np.array(range(...)).reshape((rows, cols))] by its cells. *)
Definition reshape_range (cell : nat -> float) (rows cols : nat) : ndarray float :=
  map (fun i => map (fun j => cell (i * cols + j)) (seq 0 cols)) (seq 0 rows).

(** [CameraAMG88xx.__init__], for a sensor of the given axis sizes (the
    AMG88xx has 8 by 8 elements). *)
Definition init_axis (sensor_axis : nat * nat) (temp_range_c : Qc * Qc)
    (auto_focus interpolate : bool) : camera :=
  let grid_axis :=
    if interpolate then (2 * sensor_axis.1 - 1, 2 * sensor_axis.2 - 1)
    else sensor_axis in
  let n := grid_axis.1 * grid_axis.2 in
  {| _range_min_c := temp_range_c.1;
     _range_max_c := temp_range_c.2;
     _auto_focus := auto_focus;
     _interpolate := interpolate;
     _sensor_axis := sensor_axis;
     _grid_axis := grid_axis;
     _sensor_data := reshape_range Float.of_nat sensor_axis.1 sensor_axis.2;
     _grid_data :=
       reshape_range (fun k => Float.div (Float.of_nat (n - k)) (Float.of_nat n))
                     grid_axis.1 grid_axis.2;
     _sensor_min_c := 0%Qc;
     _sensor_avg_c := 0%Qc;
     _sensor_max_c := 0%Qc |}.

Definition init : Qc * Qc -> bool -> bool -> camera := init_axis (8, 8).

(** [CameraAMG88xx.statistics] *)
Definition statistics (self : camera) : Qc * Qc * Qc :=
  (_sensor_min_c self, _sensor_avg_c self, _sensor_max_c self).

Definition halve (x : float) : float := Float.div x (Float.of_int 2).

(** [CameraAMG88xx._ulab_bilinear_interpolation], on the sensor data and
    the grid data of the camera; the result is the new grid data. *)
Definition _ulab_bilinear_interpolation (sensor_data grid_data : ndarray float)
  : result (ndarray float) :=
  let all := Slice None None 1 in
  let even := Slice None None 2 in
  let odd := Slice (Some 1%Z) None 2 in
  (* self._grid_data[1::2, ::2] = self._sensor_data[:-1, :] *)
  g ← np.setitem2 grid_data odd even
        (np.getitem2 sensor_data (Slice None (Some (-1)%Z) 1) all);
  (* self._grid_data[1::2, ::2] += self._sensor_data[1:, :] *)
  g ← np.inplace2 Float.add g odd even
        (np.getitem2 sensor_data (Slice (Some 1%Z) None 1) all);
  (* self._grid_data[1::2, ::2] /= 2 *)
  let g := np.inplace_scalar halve g odd even in
  (* self._grid_data[::, 1::2] = self._grid_data[::, :-1:2] *)
  g ← np.setitem2 g all odd (np.getitem2 g all (Slice None (Some (-1)%Z) 2));
  (* self._grid_data[::, 1::2] += self._grid_data[::, 2::2] *)
  g ← np.inplace2 Float.add g all odd
        (np.getitem2 g all (Slice (Some 2%Z) None 2));
  (* self._grid_data[::, 1::2] /= 2 *)
  Ok (np.inplace_scalar halve g all odd).

(** The interpolating branch of [acquire]: the sensor data copied to the
    even cells of the grid, then interpolated. *)
Definition upscale (sensor_data grid_data : ndarray float)
  : result (ndarray float) :=
  g ← np.setitem2 grid_data (Slice None None 2) (Slice None None 2)
        (np.as_view sensor_data);
  _ulab_bilinear_interpolation sensor_data g.

(** [(a - lo) / (hi - lo)] on a ulab array and two scalars. *)
Definition normalize (a : ndarray Qc) (lo hi : Qc) : ndarray float :=
  map (map (fun x => Float.div (Fin (x - lo)%Qc) (Fin (hi - lo)%Qc))) a.

(** [CameraAMG88xx.acquire]; [sensor] is what [self._amg8833.pixels]
    returned.  The result is the camera after the call and the array
    returned to the caller. *)
Definition acquire (self : camera) (sensor : list (list Qc))
  : result (camera * ndarray float) :=
  a ← np.array sensor;
  let data := np.clip a (_range_min_c self) (_range_max_c self) in
  let data := np.flip data 0 in
  let data := np.flip data 1 in
  sensor_min_c ← np.min data;
  let sensor_avg_c := np.mean data in
  sensor_max_c ← np.max data;
  let sensor_data :=
    if _auto_focus self then normalize data sensor_min_c sensor_max_c
    else normalize data (_range_min_c self) (_range_max_c self) in
  let self' grid :=
    {| _range_min_c := _range_min_c self;
       _range_max_c := _range_max_c self;
       _auto_focus := _auto_focus self;
       _interpolate := _interpolate self;
       _sensor_axis := _sensor_axis self;
       _grid_axis := _grid_axis self;
       _sensor_data := sensor_data;
       _grid_data := grid;
       _sensor_min_c := sensor_min_c;
       _sensor_avg_c := sensor_avg_c;
       _sensor_max_c := sensor_max_c |} in
  if _interpolate self then
    grid ← upscale sensor_data (_grid_data self);
    Ok (self' grid, grid)
  else Ok (self' (_grid_data self), sensor_data).

End Camera.

(** ** The display (bundle/wtc_display.py) *)

Module Display.

Definition BLACK : Z := 0x000000.
Definition PURPLE : Z := 0xFF00FF.

(** The members of [image_group]: the grid cells, rectangles at a pixel
    position with a fill colour, and the text labels, which have no [fill]
    attribute until one is assigned. *)
Inductive element : Set :=
  | Rect (x y : nat) (fill : Z)
  | Label (fill : option Z).

#[global] Instance element_eq_dec : EqDecision element.
Proof. solve_decision. Defined.

(** The display; [fill_writes] counts the assignments to a [fill]
    attribute executed so far. *)
Record display : Set := {
  _grid_axis : nat * nat;
  _palette_size : Z;
  image_group : list element;
  fill_writes : nat
}.

(** [Display.__init__]: the grid cells row by row, then the nine labels.
    [Rect] (adafruit_display_shapes, a library the bundle imports) refuses
    a width or a height that is not positive with ValueError; with both
    axes positive the loop constructs at least one rectangle. *)
Definition init (grid_size grid_offset grid_axis : nat * nat) (palette_size : Z)
  : result display :=
  if bool_decide (grid_axis.1 = 0 \/ grid_axis.2 = 0)
  then Raise ZeroDivisionError
  else
    let cell_size := Nat.min (grid_size.1 / grid_axis.1) (grid_size.2 / grid_axis.2) in
    if bool_decide (cell_size = 0) then Raise ValueError else
    let cells :=
      flat_map (fun row =>
        map (fun col =>
               Rect (col * cell_size + grid_offset.1)
                    (row * cell_size + grid_offset.2) PURPLE)
            (range grid_axis.1))
        (range grid_axis.2) in
    Ok {| _grid_axis := grid_axis;
          _palette_size := palette_size;
          image_group := cells ++ replicate 9 (Label None);
          fill_writes := 0 |}.

(** The [brightness] setter of [Display]: the duty cycle it writes to the
    backlight, [int(brightness * 0xFFFF)]. *)
Definition duty_cycle_of (brightness : float) : result Z :=
  Float.to_int (Float.mul brightness (Float.of_int 0xFFFF)).

(** [element.fill] *)
Definition get_fill (e : element) : result Z :=
  match e with
  | Rect _ _ fill => Ok fill
  | Label (Some fill) => Ok fill
  | Label None => Raise AttributeError
  end.

Definition with_fill (e : element) (color : Z) : element :=
  match e with
  | Rect x y _ => Rect x y color
  | Label _ => Label (Some color)
  end.

(** [self.image_group[group_index].fill = color] *)
Definition set_fill (self : display) (group_index : nat) (color : Z)
  : result display :=
  cell ← getitem (image_group self) group_index;
  Ok {| _grid_axis := _grid_axis self;
        _palette_size := _palette_size self;
        image_group := <[group_index := with_fill cell color]> (image_group self);
        fill_writes := S (fill_writes self) |}.

(** [Display.bytes_per_row] *)
Definition bytes_per_row (source_width : nat) : nat :=
  let pixel_bytes := 3 * source_width in
  let padding_bytes := (4 - (pixel_bytes mod 4)) mod 4 in
  pixel_bytes + padding_bytes.

(** [Display.rgb888_to_bgr888_tuple] *)
Definition rgb888_to_bgr888_tuple (rgb_color : Z) : Z * Z * Z :=
  let _red := Z.land (Z.shiftr rgb_color 16) 0xFF in
  let _grn := Z.land (Z.shiftr rgb_color 8) 0xFF in
  let _blu := Z.land (Z.shiftr rgb_color 0) 0xFF in
  (_blu, _grn, _red).

#[global] Instance byte_eq_dec : EqDecision byte.
Proof.
  intros x y. destruct (Byte.eqb x y) eqn:E.
  - left. apply Byte.byte_dec_bl, E.
  - right. apply Byte.eqb_false, E.
Defined.

(** A value stored into a [uint8] array. *)
Definition uint8 (z : Z) : byte :=
  default Byte.x00 (Byte.of_N (Z.to_N (z mod 256))).

(** [buffer[i] = x] *)
Definition setitem {A} (buffer : list A) (i : nat) (x : A) : result (list A) :=
  if bool_decide (i < length buffer) then Ok (<[i := x]> buffer)
  else Raise IndexError.

(** [Display.fetch_grid_row_bgr_colors] *)
Definition fetch_grid_row_bgr_colors (self : display) (row : nat) (selfie : bool)
  : result (list byte) :=
  let _row_buffer := replicate (bytes_per_row (_grid_axis self).1) Byte.x00 in
  let row_range :=
    if selfie then range_down (_grid_axis self).1 else range (_grid_axis self).1 in
  st ← for_each (fun _col (st : list byte * nat) =>
          let '(_row_buffer, _buffer_index) := st in
          cell ← getitem (image_group self) (row * (_grid_axis self).2 + _col);
          _rgb_color ← get_fill cell;
          let '(_blu, _grn, _red) := rgb888_to_bgr888_tuple _rgb_color in
          b ← setitem _row_buffer _buffer_index (uint8 _blu);
          b ← setitem b (_buffer_index + 1) (uint8 _grn);
          b ← setitem b (_buffer_index + 2) (uint8 _red);
          Ok (b, _buffer_index + 3))
        row_range (_row_buffer, 0);
  Ok st.1.

(** [np.zeros(n)[i]] indexed by a Python integer: negative from the end. *)
Definition int_index (n : nat) (i : Z) : result nat :=
  if bool_decide (0 <= i < Z.of_nat n)%Z then Ok (Z.to_nat i)
  else if bool_decide (- Z.of_nat n <= i < 0)%Z then Ok (Z.to_nat (i + Z.of_nat n))
  else Raise IndexError.

(** The first loop of [Display.update_histo_frame]: the histogram. *)
Definition histogram_of (self : display) (grid_data : ndarray float)
  : result (list Qc) :=
  let bins := (_grid_axis self).1 in
  for_each (fun _row =>
    for_each (fun _col (histogram : list Qc) =>
      x ← from_option Ok (Raise IndexError) (np.get2 grid_data _col _row);
      histo_index ← Float.to_int
        (map_range x (Float.of_int 0) (Float.of_int 1) (Float.of_int 0)
           (Float.of_int (Z.of_nat bins - 1)));
      i ← int_index (length histogram) histo_index;
      count ← getitem histogram i;
      Ok (<[i := (count + 1)%Qc]> histogram))
      (range (_grid_axis self).1))
    (range (_grid_axis self).2)
    (replicate bins 0%Qc).

(** The bar-height divisor of [Display.update_histo_frame]:
    [np.max(histogram) / (self._grid_axis[0] - 1)], set to 1 when it is
    not positive. *)
Definition histo_scale_of (self : display) (histogram : list Qc) : result float :=
  top ← np.max_of histogram;
  histo_scale ← Float.py_truediv (Fin top)
                  (Float.of_int (Z.of_nat (_grid_axis self).1 - 1));
  if Float.leb histo_scale (Float.of_int 0) then Ok (Float.of_int 1)
  else Ok histo_scale.

Section Palette.

(** [index_to_rgb] of the palette module, which maps a normalized value to
    an RGB888 colour. *)
Variable index_to_rgb : float -> Z.

(** The body of the loops of [Display.update_image_frame]. *)
Definition update_image_cell (grid_data : ndarray float) (selfie : bool)
    (_col _row : nat) (self : display) : result display :=
  column ← getitem grid_data _col;
  color_index ←
    (if selfie then getitem column ((_grid_axis self).2 - 1 - _row)
     else getitem column _row);
  quantized ← Float.py_truediv
    (Float.round (Float.mul color_index (Float.of_int (_palette_size self))) 0)
    (Float.of_int (_palette_size self));
  let color := index_to_rgb quantized in
  let group_index := _col * (_grid_axis self).2 + _row in
  cell ← getitem (image_group self) group_index;
  fill ← get_fill cell;
  if bool_decide (color <> fill) then set_fill self group_index color
  else Ok self.

(** [Display.update_image_frame] *)
Definition update_image_frame (self : display) (grid_data : ndarray float)
    (selfie : bool) : result display :=
  for_each (fun _col =>
    for_each (fun _row => update_image_cell grid_data selfie _col _row)
      (range (_grid_axis self).2))
    (range (_grid_axis self).1) self.

(** [Display.update_histo_frame] *)
Definition update_histo_frame (self : display) (grid_data : ndarray float)
  : result display :=
  histogram ← histogram_of self grid_data;
  histo_scale ← histo_scale_of self histogram;
  for_each (fun _col =>
    for_each (fun _row (self : display) =>
      count ← getitem histogram _col;
      bar ← Float.py_truediv (Fin count) histo_scale;
      let group_index := _row * (_grid_axis self).2 + _col in
      if Float.ltb
           (Float.of_int (Z.of_nat (_grid_axis self).1 - 1 - Z.of_nat _row)) bar
      then
        position ← Float.py_truediv (Float.of_nat _col)
                     (Float.of_nat (_grid_axis self).2);
        set_fill self group_index (index_to_rgb (Float.round position 3))
      else set_fill self group_index BLACK)
      (range (_grid_axis self).2))
    (range (_grid_axis self).1) self.

End Palette.

End Display.

(** ** The bitmap encoder (bundle/code.py) *)

Module Code.

(** [struct.pack("<I", v)] and [struct.pack("<H", v)]: the low bytes of
    [v], least significant first. *)
Fixpoint le_bytes (n : nat) (v : Z) : list byte :=
  match n with
  | 0 => []
  | S n' => Display.uint8 v :: le_bytes n' (Z.shiftr v 8)
  end.
Definition pack_I (v : Z) : list byte := le_bytes 4 v.
Definition pack_H (v : Z) : list byte := le_bytes 2 v.

(** [capture_grid_and_upload], up to the call of [_send_b64_to_aio]: the
    result is the byte array handed to it.  [SELFIE] and [DISPLAY_IMAGE]
    are the system parameters of the module. *)
Definition capture_grid_and_upload (SELFIE DISPLAY_IMAGE : bool)
    (display : Display.display) : result (list byte) :=
  let width := (Display._grid_axis display).1 in
  let height := (Display._grid_axis display).2 in
  let file_size := 54 + height * Display.bytes_per_row width in
  let bmp_header :=
    [Byte.x42; Byte.x4d] ++ pack_I (Z.of_nat file_size)
    ++ [Byte.x00; Byte.x00] ++ [Byte.x00; Byte.x00] ++ pack_I 54 in
  let dib_header :=
    pack_I 40 ++ pack_I (Z.of_nat width) ++ pack_I (Z.of_nat height)
    ++ pack_H 1 ++ pack_H 24 in
  let dib_header := fold_left (fun h _ => h ++ [Byte.x00]) (range 24) dib_header in
  grid_bmp_data ←
    for_each (fun _row (grid_bmp_data : list byte) =>
        _row_colors ← Display.fetch_grid_row_bgr_colors display _row
                        (SELFIE && DISPLAY_IMAGE);
        Ok (grid_bmp_data ++ _row_colors))
      (range_down height) [];
  Ok (bmp_header ++ dib_header ++ grid_bmp_data).

(** [celsius_to_fahrenheit] and [fahrenheit_to_celsius] *)
Definition celsius_to_fahrenheit (deg_c : float) : result Z :=
  ratio ← Float.py_truediv (Float.of_int 9) (Float.of_int 5);
  Float.round_int (Float.add (Float.mul ratio deg_c) (Float.of_int 32)).

Definition fahrenheit_to_celsius (deg_f : float) : result Z :=
  ratio ← Float.py_truediv (Float.of_int 5) (Float.of_int 9);
  Float.round_int (Float.mul (Float.sub deg_f (Float.of_int 32)) ratio).

(** What [adjust_brightness] reads and writes: the global
    [old_brightness], the brightness and the backlight duty cycle of the
    display, and the brightness handed to the NeoPixel. *)
Record lighting : Type := {
  old_brightness : float;
  display_brightness : float;
  duty_cycle : Z;
  pixels_brightness : float
}.

(** [adjust_brightness]; [light_sensor i] is the value the [i]-th read of
    [light_sensor.value] returns. *)
Definition adjust_brightness (AUTO_DISPLAY_BRIGHT : bool) (BRIGHTNESS : float)
    (light_sensor : nat -> Z) (st : lighting) : result lighting :=
  if negb AUTO_DISPLAY_BRIGHT then Ok st
  else
    let raw := fold_left (fun raw i => (raw + light_sensor i)%Z) (range 20) 0%Z in
    mean ← Float.py_truediv (Float.of_int raw) (Float.of_int 20);
    fraction ← Float.py_truediv mean (Float.of_int 65535);
    let lux := Float.mul fraction (Float.of_int 1500) in
    let target_brightness :=
      Float.round
        (map_range lux (Float.of_int 5) (Float.of_int 200)
           (Fin (Qc_of_Z 3 / Qc_of_Z 10)%Qc) BRIGHTNESS) 3 in
    step ← Float.py_truediv (Float.sub target_brightness (old_brightness st))
             (Float.of_int 5);
    let new_brightness := Float.round (Float.add (old_brightness st) step) 3 in
    duty ← Display.duty_cycle_of new_brightness;
    Ok {| old_brightness := new_brightness;
          display_brightness := new_brightness;
          duty_cycle := duty;
          pixels_brightness := new_brightness |}.

(** The numbers [acquire_and_display] writes, as text, to the value labels. *)
Record readout : Set := {
  alarm_value : Z;
  max_value : Z;
  min_value : Z;
  avg_value : Z
}.

Section Cycle.
Variable index_to_rgb : float -> Z.

(** [acquire_and_display]; [sensor] is what the camera module read.  The
    result is the camera and the display after the call, and the numbers
    shown in the labels. *)
Definition acquire_and_display (ALARM_F : Z) (DISPLAY_IMAGE SELFIE : bool)
    (camera : Camera.camera) (sensor : list (list Qc))
    (display : Display.display)
  : result (Camera.camera * Display.display * readout) :=
  acquired ← Camera.acquire camera sensor;
  let '(camera, grid_data) := acquired in
  let '(t_min, t_avg, t_max) := Camera.statistics camera in
  t_max_f ← celsius_to_fahrenheit (Fin t_max);
  t_min_f ← celsius_to_fahrenheit (Fin t_min);
  t_avg_f ← celsius_to_fahrenheit (Fin t_avg);
  display ←
    (if DISPLAY_IMAGE
     then Display.update_image_frame index_to_rgb display grid_data SELFIE
     else Display.update_histo_frame index_to_rgb display grid_data);
  Ok (camera, display,
      {| alarm_value := ALARM_F;
         max_value := t_max_f;
         min_value := t_min_f;
         avg_value := t_avg_f |}).

End Cycle.

End Code.


(** ** The other cameras (cameras/mlx90640.py, cameras/fake_cam.py) *)

(** [a.reshape((rows, cols))] of a one-dimensional array. *)
Definition reshape {A} (flat : list A) (rows cols : nat) : result (ndarray A) :=
  if bool_decide (length flat = rows * cols)
  then Ok (map (fun i => take cols (drop (i * cols) flat)) (seq 0 rows))
  else Raise ValueError.

Module CameraMLX90640.

Record camera : Type := {
  _range_min_c : Qc;
  _range_max_c : Qc;
  _auto_focus : bool;
  _sensor_axis : nat * nat;
  _grid_axis : nat * nat;
  _sensor_data : ndarray float;
  _grid_data : ndarray float;
  _sensor_min_c : Qc;
  _sensor_avg_c : Qc;
  _sensor_max_c : Qc
}.

(** [CameraMLX90640.__init__], for a sensor of the given axis sizes (the
    MLX90640 has 32 by 24 elements). *)
Definition init_axis (sensor_axis : nat * nat) (temp_range_c : Qc * Qc)
    (auto_focus : bool) : camera :=
  let grid_axis := sensor_axis in
  let n := grid_axis.1 * grid_axis.2 in
  {| _range_min_c := temp_range_c.1;
     _range_max_c := temp_range_c.2;
     _auto_focus := auto_focus;
     _sensor_axis := sensor_axis;
     _grid_axis := grid_axis;
     _sensor_data :=
       Camera.reshape_range Float.of_nat sensor_axis.1 sensor_axis.2;
     _grid_data :=
       map (@rev float)
         (rev (Camera.reshape_range
                 (fun k => Float.div (Float.of_nat k) (Float.of_nat n))
                 grid_axis.1 grid_axis.2));
     _sensor_min_c := 0%Qc;
     _sensor_avg_c := 0%Qc;
     _sensor_max_c := 0%Qc |}.

Definition init : Qc * Qc -> bool -> camera := init_axis (32, 24).

(** [CameraMLX90640.statistics] *)
Definition statistics (self : camera) : Qc * Qc * Qc :=
  (_sensor_min_c self, _sensor_avg_c self, _sensor_max_c self).

(** [CameraMLX90640.acquire]; [getFrame i] is the value the driver stored
    at index [i] of the frame buffer. *)
Definition acquire (self : camera) (getFrame : nat -> Qc)
  : result (camera * ndarray float) :=
  let sensor := map getFrame (range ((_sensor_axis self).1 * (_sensor_axis self).2)) in
  sensor ← reshape sensor (_sensor_axis self).1 (_sensor_axis self).2;
  (* np.clip(np.array(sensor[::-1]), ...) *)
  let data := np.clip (rev sensor) (_range_min_c self) (_range_max_c self) in
  (* self._sensor_data[::-1, ::-1] *)
  let data := map (@rev Qc) (rev data) in
  sensor_min_c ← np.min data;
  let sensor_avg_c := np.mean data in
  sensor_max_c ← np.max data;
  let sensor_data :=
    if _auto_focus self then Camera.normalize data sensor_min_c sensor_max_c
    else Camera.normalize data (_range_min_c self) (_range_max_c self) in
  Ok ({| _range_min_c := _range_min_c self;
         _range_max_c := _range_max_c self;
         _auto_focus := _auto_focus self;
         _sensor_axis := _sensor_axis self;
         _grid_axis := _grid_axis self;
         _sensor_data := sensor_data;
         _grid_data := _grid_data self;
         _sensor_min_c := sensor_min_c;
         _sensor_avg_c := sensor_avg_c;
         _sensor_max_c := sensor_max_c |}, sensor_data).

End CameraMLX90640.

Module CameraFake.

(** The sensor array [CameraFake.acquire] builds: element (col, row)
    holds [(group_index / (grid_axis[0] * grid_axis[1])) * range_max_c]
    with [group_index = col * grid_axis[1] + row]. *)
Definition sensor_of (self : Camera.camera) : list (list Qc) :=
  map (fun col =>
         map (fun row =>
                let group_index := col * (Camera._grid_axis self).2 + row in
                (Qc_of_Z (Z.of_nat group_index)
                 / Qc_of_Z (Z.of_nat ((Camera._grid_axis self).1
                                      * (Camera._grid_axis self).2))
                 * Camera._range_max_c self)%Qc)
             (range (Camera._sensor_axis self).2))
      (range (Camera._sensor_axis self).1).

(** [CameraFake.__init__], for a sensor of the given axis sizes (32 by 24
    in the source); the class has the attributes of [CameraAMG88xx]. *)
Definition init_axis (sensor_axis : nat * nat) (temp_range_c : Qc * Qc)
    (auto_focus interpolate : bool) : Camera.camera :=
  let grid_axis :=
    if interpolate then (2 * sensor_axis.1 - 1, 2 * sensor_axis.2 - 1)
    else sensor_axis in
  let n := grid_axis.1 * grid_axis.2 in
  {| Camera._range_min_c := temp_range_c.1;
     Camera._range_max_c := temp_range_c.2;
     Camera._auto_focus := auto_focus;
     Camera._interpolate := interpolate;
     Camera._sensor_axis := sensor_axis;
     Camera._grid_axis := grid_axis;
     Camera._sensor_data :=
       Camera.reshape_range Float.of_nat sensor_axis.1 sensor_axis.2;
     Camera._grid_data :=
       Camera.reshape_range
         (fun k => Float.div (Float.of_nat k) (Float.of_nat n))
         grid_axis.1 grid_axis.2;
     Camera._sensor_min_c := 0%Qc;
     Camera._sensor_avg_c := 0%Qc;
     Camera._sensor_max_c := 0%Qc |}.

Definition init : Qc * Qc -> bool -> bool -> Camera.camera := init_axis (32, 24).

(** [CameraFake.acquire]: the synthetic frame, clipped (the flips of
    [CameraAMG88xx.acquire] are commented out), then the statistics, the
    normalization and the interpolation of [CameraAMG88xx.acquire]. *)
Definition acquire (self : Camera.camera)
  : result (Camera.camera * ndarray float) :=
  a ← np.array (sensor_of self);
  let data := np.clip a (Camera._range_min_c self) (Camera._range_max_c self) in
  sensor_min_c ← np.min data;
  let sensor_avg_c := np.mean data in
  sensor_max_c ← np.max data;
  let sensor_data :=
    if Camera._auto_focus self
    then Camera.normalize data sensor_min_c sensor_max_c
    else Camera.normalize data (Camera._range_min_c self) (Camera._range_max_c self) in
  let self' grid :=
    {| Camera._range_min_c := Camera._range_min_c self;
       Camera._range_max_c := Camera._range_max_c self;
       Camera._auto_focus := Camera._auto_focus self;
       Camera._interpolate := Camera._interpolate self;
       Camera._sensor_axis := Camera._sensor_axis self;
       Camera._grid_axis := Camera._grid_axis self;
       Camera._sensor_data := sensor_data;
       Camera._grid_data := grid;
       Camera._sensor_min_c := sensor_min_c;
       Camera._sensor_avg_c := sensor_avg_c;
       Camera._sensor_max_c := sensor_max_c |} in
  if Camera._interpolate self then
    grid ← Camera.upscale sensor_data (Camera._grid_data self);
    Ok (self' grid, grid)
  else Ok (self' (Camera._grid_data self), sensor_data).

End CameraFake.
(** ** Notions the statements use, and sample inputs *)

(** A closed decidable proposition, settled by evaluating its decision. *)
Ltac decide_by_computation :=
  match goal with
  | |- ?P => apply (bool_decide_eq_true_1 P); vm_compute; reflexivity
  end.

(** [m] is a least (greatest) element of [cells]. *)
Definition is_minimum (m : Qc) (cells : list Qc) : Prop :=
  m ∈ cells /\ forall x, x ∈ cells -> (m ≤ x)%Qc.
Definition is_maximum (m : Qc) (cells : list Qc) : Prop :=
  m ∈ cells /\ forall x, x ∈ cells -> (x ≤ m)%Qc.

(** A camera with a 2 by 2 sensor, range 0 to 80 degrees Celsius, autofocus
    on and interpolation off, and a frame for it. *)
Definition amg_2x2 : Camera.camera :=
  Camera.init_axis (2, 2) (Qc_of_Z 0, Qc_of_Z 80) true false.
Definition sample_2x2 : list (list Qc) :=
  [[Qc_of_Z 10; Qc_of_Z 20]; [Qc_of_Z 30; Qc_of_Z 40]].

(** Clipping a sample into the range from [lo] to [hi], in the words of
    the specification: a sample below the range becomes [lo], a sample
    above it [hi], a sample inside it is kept. *)
Definition clamp (lo hi x : Qc) : Qc :=
  if bool_decide (x < lo)%Qc then lo
  else if bool_decide (hi < x)%Qc then hi else x.

(** A frame with a sample below and a sample above the range 0 to 80. *)
Definition hot_cold_2x2 : list (list Qc) :=
  [[Qc_of_Z (-5); Qc_of_Z 100]; [Qc_of_Z 30; Qc_of_Z 40]].

(** The array [a] has [n] rows of [m] cells each. *)
Definition has_shape {A} (a : ndarray A) (n m : nat) : Prop :=
  length a = n /\ Forall (fun row => length row = m) a.

(** The value of a cell holding [x] after [a[rows, cols] op= v], given the
    positions of its row and column in the two slices. *)
Definition cell_after {A B} (op : A -> B -> A) (v : view B)
    (p q : option nat) (x : A) : A :=
  match p, q with
  | Some p, Some q => from_option (op x) x (view_get v p q)
  | _, _ => x
  end.

Definition cell_after_scalar {A} (op : A -> A) (p q : option nat) (x : A) : A :=
  match p, q with
  | Some _, Some _ => op x
  | _, _ => x
  end.


(** A 2 by 2 normalized frame, and a 3 by 3 grid to upscale it into. *)
Definition checker_2x2 : ndarray float :=
  [[Float.of_int 0; Float.of_int 1]; [Float.of_int 1; Float.of_int 0]].
Definition blank_3x3 : ndarray float := replicate 3 (replicate 3 (Float.of_int 0)).

(** A cell of a normalized grid: a number of the interval [0, 1]. *)
Definition in_unit (x : float) : Prop :=
  match x with
  | Fin q => (0 ≤ q)%Qc /\ (q ≤ 1)%Qc
  | _ => False
  end.

(** The camera with the 2 by 2 sensor, interpolating to a 3 by 3 grid. *)
Definition amg_2x2_upscaling : Camera.camera :=
  Camera.init_axis (2, 2) (Qc_of_Z 0, Qc_of_Z 80) true true.

(** A uniform frame: every element reads 25 degrees Celsius. *)
Definition uniform_2x2 : list (list Qc) :=
  [[Qc_of_Z 25; Qc_of_Z 25]; [Qc_of_Z 25; Qc_of_Z 25]].


(** ** The grid renderer: what the statements speak of *)

Section RenderSpec.
Import Display.
Variable index_to_rgb : float -> Z.

(** The colour [update_image_frame] computes for the loop indices
    [_col] and [_row]. *)
Definition cell_color (self : display) (grid_data : ndarray float)
    (selfie : bool) (_col _row : nat) : result Z :=
  column ← getitem grid_data _col;
  color_index ←
    (if selfie then getitem column ((_grid_axis self).2 - 1 - _row)
     else getitem column _row);
  quantized ← Float.py_truediv
    (Float.round (Float.mul color_index (Float.of_int (_palette_size self))) 0)
    (Float.of_int (_palette_size self));
  Ok (index_to_rgb quantized).

(** The index into [image_group] of the cell the loop indices address. *)
Definition group_index (self : display) (_col _row : nat) : nat :=
  _col * (_grid_axis self).2 + _row.

(** The stored colour of the element at [group_index], if it has one. *)
Definition stored_fill (self : display) (k : nat) : option Z :=
  match image_group self !! k with
  | Some (Rect _ _ fill) | Some (Label (Some fill)) => Some fill
  | _ => None
  end.

(** The palette position of a normalized value:
    [round(color_index * self._palette_size, 0) / self._palette_size]. *)
Definition quantize (self : display) (color_index : float) : result float :=
  Float.py_truediv
    (Float.round (Float.mul color_index (Float.of_int (_palette_size self))) 0)
    (Float.of_int (_palette_size self)).

(** The second index [update_image_frame] reads the grid at, for the loop
    index [_row]. *)
Definition source_row (self : display) (selfie : bool) (_row : nat) : nat :=
  if selfie then (_grid_axis self).2 - 1 - _row else _row.

(** The grid has a value at every index of the configured axis. *)
Definition covers (grid_data : ndarray float) (self : display) : Prop :=
  forall c r, c < (_grid_axis self).1 -> r < (_grid_axis self).2 ->
              is_Some (np.get2 grid_data c r).

(** The palette size is not zero and every grid cell of [image_group] has
    a fill colour. *)
Definition ready (self : display) : Prop :=
  _palette_size self <> 0%Z /\
  forall k, k < (_grid_axis self).1 * (_grid_axis self).2 ->
            is_Some (stored_fill self k).

(** What [fetch_grid_row_bgr_colors] reads for the column [_col]. *)
Definition row_fill (self : display) (row _col : nat) : result Z :=
  cell ← getitem (image_group self) (row * (_grid_axis self).2 + _col);
  get_fill cell.

(** The loop indices in the order the two loops visit them. *)
Definition frame_cells (self : display) : list (nat * nat) :=
  flat_map (fun _col => map (pair _col) (range (_grid_axis self).2))
           (range (_grid_axis self).1).

End RenderSpec.


(** A stand-in for [index_to_rgb], to run the renderer on sample frames:
    a gray ramp.  The theorems hold for every palette. *)
Definition gray_ramp (x : float) : Z :=
  match x with
  | Fin q => Z.max 0 (Z.min 255 (Qfloor (q * Qc_of_Z 255)%Qc)) * 0x010101
  | _ => 0
  end.

(** [Display(grid_size=(240, 240), grid_axis=(2, 2), palette_size=100)] *)
Definition display_2x2 : Display.display :=
  {| Display._grid_axis := (2, 2);
     Display._palette_size := 100;
     Display.image_group :=
       [Display.Rect 0 0 Display.PURPLE; Display.Rect 120 0 Display.PURPLE;
        Display.Rect 0 120 Display.PURPLE; Display.Rect 120 120 Display.PURPLE]
       ++ replicate 9 (Display.Label None);
     Display.fill_writes := 0 |}.

(** A frame whose column 0 is all 0.0 and whose column 1 is all 1.0. *)
Definition columns_2x2 : ndarray float :=
  [[Float.of_int 0; Float.of_int 0]; [Float.of_int 1; Float.of_int 1]].


(** [Display(grid_axis=(3, 1))], and a frame for it. *)
Definition display_3x1 : Display.display :=
  {| Display._grid_axis := (3, 1);
     Display._palette_size := 100;
     Display.image_group :=
       [Display.Rect 0 0 Display.PURPLE; Display.Rect 80 0 Display.PURPLE;
        Display.Rect 160 0 Display.PURPLE]
       ++ replicate 9 (Display.Label None);
     Display.fill_writes := 0 |}.
Definition ramp_3x1 : ndarray float :=
  [[Float.of_int 0]; [Fin (1 / Qc_of_Z 2)%Qc]; [Float.of_int 1]].


(** ** The bitmap of the specification *)

(** The bitmap layout in the words of the specification: the file header,
    the info header, and the rows of the grid bottom to top, each pixel as
    blue, green, red and each row padded to a multiple of four bytes. *)
Definition spec_bytes_per_row (w : nat) : nat :=
  3 * w + (4 - (3 * w) mod 4) mod 4.

(** The [n] low bytes of [v], least significant first. *)
Definition spec_little_endian (n : nat) (v : Z) : list byte :=
  map (fun k => Display.uint8 (v / 256 ^ Z.of_nat k)) (seq 0 n).

Definition spec_pixel (rgb : Z) : list byte :=
  [Display.uint8 (rgb mod 256);
   Display.uint8 ((rgb / 256) mod 256);
   Display.uint8 ((rgb / 65536) mod 256)].

Definition spec_row (w : nat) (row : list Z) : list byte :=
  flat_map spec_pixel row ++ replicate (spec_bytes_per_row w - 3 * w) Byte.x00.

Definition spec_bitmap (w h : nat) (rows : list (list Z)) : list byte :=
  [Byte.x42; Byte.x4d]
  ++ spec_little_endian 4 (Z.of_nat (54 + h * spec_bytes_per_row w))
  ++ replicate 2 Byte.x00 ++ replicate 2 Byte.x00
  ++ spec_little_endian 4 54
  ++ spec_little_endian 4 40
  ++ spec_little_endian 4 (Z.of_nat w)
  ++ spec_little_endian 4 (Z.of_nat h)
  ++ spec_little_endian 2 1
  ++ spec_little_endian 2 24
  ++ replicate 24 Byte.x00
  ++ concat (map (spec_row w) (rev rows)).

(** The colour of the grid cell at [k], and the rows of the grid as
    [Display.__init__] lays them out: cell (row, col) is
    [image_group[row * grid_axis[0] + col]]. *)
Definition fill_at (self : Display.display) (k : nat) : Z :=
  default 0%Z (stored_fill self k).
Definition grid_rows (self : Display.display) : list (list Z) :=
  map (fun row =>
         map (fun col => fill_at self (row * (Display._grid_axis self).1 + col))
             (range (Display._grid_axis self).1))
      (range (Display._grid_axis self).2).

(** [Display(grid_axis=(3, 2))] with the colours 1 to 6 in its cells, row
    by row, and [Display(grid_axis=(1, 2))]. *)
Definition display_3x2 : Display.display :=
  {| Display._grid_axis := (3, 2);
     Display._palette_size := 100;
     Display.image_group :=
       [Display.Rect 0 0 1; Display.Rect 80 0 2; Display.Rect 160 0 3;
        Display.Rect 0 80 4; Display.Rect 80 80 5; Display.Rect 160 80 6]
       ++ replicate 9 (Display.Label None);
     Display.fill_writes := 6 |}.
Definition display_1x2 : Display.display :=
  {| Display._grid_axis := (1, 2);
     Display._palette_size := 100;
     Display.image_group :=
       [Display.Rect 0 0 Display.PURPLE; Display.Rect 0 120 Display.PURPLE]
       ++ replicate 9 (Display.Label None);
     Display.fill_writes := 0 |}.


Section BitmapSpec.
Import Display.

(** The three bytes [fetch_grid_row_bgr_colors] stores for a colour. *)
Definition pixel_bytes (rgb : Z) : list byte :=
  let '(_blu, _grn, _red) := rgb888_to_bgr888_tuple rgb in
  [uint8 _blu; uint8 _grn; uint8 _red].

(** The body of the loop of [fetch_grid_row_bgr_colors]. *)
Definition fetch_body (self : display) (row _col : nat) (st : list byte * nat)
  : result (list byte * nat) :=
  let '(_row_buffer, _buffer_index) := st in
  cell ← getitem (image_group self) (row * (_grid_axis self).2 + _col);
  _rgb_color ← get_fill cell;
  let '(_blu, _grn, _red) := rgb888_to_bgr888_tuple _rgb_color in
  b ← setitem _row_buffer _buffer_index (uint8 _blu);
  b ← setitem b (_buffer_index + 1) (uint8 _grn);
  b ← setitem b (_buffer_index + 2) (uint8 _red);
  Ok (b, _buffer_index + 3).

End BitmapSpec.

(** ** Notions of the further properties *)

(** [round(q, 3)] on a rational. *)
Definition round3 (q : Qc) : Qc :=
  (Qc_of_Z (Float.round_half_even (q * Qc_of_Z 1000)) / Qc_of_Z 1000)%Qc.

(** Every float within a twentieth of [exact] is rounded by [round()] to
    the integer [n]: the result does not depend on an error of the float
    arithmetic smaller than that. *)
Definition rounds_firmly (exact : Qc) (n : Z) : Prop :=
  forall v : Qc,
    (exact - 1 / Qc_of_Z 20 ≤ v)%Qc -> (v ≤ exact + 1 / Qc_of_Z 20)%Qc ->
    Float.round_int (Fin v) = Ok n.

(** The light level [adjust_brightness] computes from its twenty readings,
    [raw / 20 / 65535 * 1500], and the brightness it aims at. *)
Definition lux_of (light_sensor : nat -> Z) : Qc :=
  (Qc_of_Z (fold_left (fun raw i => (raw + light_sensor i)%Z) (range 20) 0%Z)
   / Qc_of_Z 20 / Qc_of_Z 65535 * Qc_of_Z 1500)%Qc.
Definition target_brightness_of (BRIGHTNESS : float) (light_sensor : nat -> Z)
  : float :=
  Float.round
    (map_range (Fin (lux_of light_sensor)) (Float.of_int 5) (Float.of_int 200)
       (Fin (Qc_of_Z 3 / Qc_of_Z 10)%Qc) BRIGHTNESS) 3.

(** A state of the lighting at full brightness, and a dark room. *)
Definition full_brightness : Code.lighting :=
  {| Code.old_brightness := Float.of_int 1;
     Code.display_brightness := Float.of_int 1;
     Code.duty_cycle := 0xFFFF;
     Code.pixels_brightness := Float.of_int 1 |}.
Definition dark_room (i : nat) : Z := 100.

(** The number a little-endian byte string denotes. *)
Definition le_value (bs : list byte) : Z :=
  fold_right (fun b acc => (Z.of_N (Byte.to_N b) + 256 * acc)%Z) 0%Z bs.

(** The columns in the order [fetch_grid_row_bgr_colors] visits them. *)
Definition row_range (self : Display.display) (selfie : bool) : list nat :=
  if selfie then range_down (Display._grid_axis self).1
  else range (Display._grid_axis self).1.

(** The number of grid cells whose stored colour differs between two
    states of the display. *)
Definition changed_among (cells : list nat) (before after : Display.display)
  : nat :=
  length (filter (fun k => stored_fill before k <> stored_fill after k) cells).
Definition changed_cells (before after : Display.display) : nat :=
  changed_among
    (seq 0 ((Display._grid_axis before).1 * (Display._grid_axis before).2))
    before after.

(** Two states of the display with the same configuration and the same
    elements up to their colours: rectangles at the same positions, labels
    at the same places. *)
Definition same_element (e e' : Display.element) : Prop :=
  match e, e' with
  | Display.Rect x y _, Display.Rect x' y' _ => x' = x /\ y' = y
  | Display.Label _, Display.Label _ => True
  | _, _ => False
  end.
Definition same_layout (before after : Display.display) : Prop :=
  Display._grid_axis after = Display._grid_axis before /\
  Display._palette_size after = Display._palette_size before /\
  Forall2 same_element (Display.image_group before) (Display.image_group after).

(** The value of the start-up spectrum of [CameraAMG88xx] at the cell of
    group index [i], for a grid of [n] cells. *)
Definition spectrum_value (n i : nat) : Qc :=
  (Qc_of_Z (Z.of_nat (n - i)) / Qc_of_Z (Z.of_nat n))%Qc.

(** The bodies of the two loops of [update_histo_frame], and the colour
    the second loop gives the cell of column [_col] and row [_row]. *)
Definition histogram_body (self : Display.display) (grid_data : ndarray float)
    (_row _col : nat) (histogram : list Qc) : result (list Qc) :=
  x ← from_option Ok (Raise IndexError) (np.get2 grid_data _col _row);
  histo_index ← Float.to_int
    (map_range x (Float.of_int 0) (Float.of_int 1) (Float.of_int 0)
       (Float.of_int (Z.of_nat (Display._grid_axis self).1 - 1)));
  i ← Display.int_index (length histogram) histo_index;
  count ← getitem histogram i;
  Ok (<[i := (count + 1)%Qc]> histogram).

Definition bar_reaches (bins : nat) (count scale : Qc) (_row : nat) : bool :=
  bool_decide (Qc_of_Z (Z.of_nat bins - 1 - Z.of_nat _row) < count / scale)%Qc.

Definition bar_color (index_to_rgb : float -> Z) (self : Display.display)
    (histogram : list Qc) (scale : Qc) (_col _row : nat) : Z :=
  if bar_reaches (Display._grid_axis self).1 (default 0%Qc (histogram !! _col))
       scale _row
  then index_to_rgb
         (Float.round
            (Fin (Qc_of_Z (Z.of_nat _col)
                  / Qc_of_Z (Z.of_nat (Display._grid_axis self).2))%Qc) 3)
  else Display.BLACK.

(** The first row, counted from the top, that the bar of a column with
    [count] cells reaches: the rows [_row] with
    [count / scale > bins - 1 - _row] are those from this one on. *)
Definition bar_top (bins : nat) (count scale : Qc) : nat :=
  Z.to_nat (Qfloor (Qc_of_Z (Z.of_nat bins - 1) - count / scale)%Qc + 1).

(** A 2 by 2 frame with a cell that is not a number, and the frame of NaN
    that a uniform scene gives. *)
Definition nan_2x2 : ndarray float :=
  [[NaN; Float.of_int 0]; [Float.of_int 1; Float.of_int 1]].
(** ** Bit-level facts *)

Lemma land_255_range (x : Z) : (0 <= Z.land x 0xFF <= 255)%Z.
Proof.
  change (Z.land x 0xFF) with (Z.land x (Z.ones 8)).
  rewrite Z.land_ones by lia. change (2 ^ 8)%Z with 256%Z.
  pose proof (Z.mod_pos_bound x 256 eq_refl). lia.
Qed.

Lemma testbit_below_24 (x : Z) :
  (0 <= x < 2 ^ 24)%Z -> forall i, (24 <= i)%Z -> Z.testbit x i = false.
Proof.
  intros Hx i Hi.
  rewrite <- (Z.mod_small x (2 ^ 24)) by exact Hx.
  apply Z.mod_pow2_bits_high. lia.
Qed.

Lemma testbit_byte_field (x k i : Z) :
  (0 <= k)%Z -> (0 <= i)%Z ->
  Z.testbit (Z.shiftl (Z.land (Z.shiftr x k) 0xFF) k) i
  = Z.testbit x i && (k <=? i)%Z && (i <? k + 8)%Z.
Proof.
  intros Hk Hi. rewrite Z.shiftl_spec by lia.
  destruct (Z.leb_spec k i) as [Hki | Hki].
  - rewrite Z.land_spec, Z.shiftr_spec by lia.
    replace (i - k + k)%Z with i by lia. rewrite andb_true_r. f_equal.
    change 0xFF%Z with (Z.ones 8).
    destruct (Z.ltb_spec i (k + 8)).
    + apply Z.ones_spec_low. lia.
    + apply Z.ones_spec_high. lia.
  - rewrite Z.testbit_neg_r by lia. now rewrite andb_false_r.
Qed.

Lemma recompose_rgb (x : Z) :
  (0 <= x < 2 ^ 24)%Z ->
  Z.lor (Z.lor (Z.shiftl (Z.land (Z.shiftr x 16) 0xFF) 16)
               (Z.shiftl (Z.land (Z.shiftr x 8) 0xFF) 8))
        (Z.land (Z.shiftr x 0) 0xFF) = x.
Proof.
  intros Hx. apply Z.bits_inj'. intros i Hi.
  rewrite <- (Z.shiftl_0_r (Z.land (Z.shiftr x 0) 0xFF)).
  rewrite !Z.lor_spec, !testbit_byte_field by lia.
  destruct (Z.ltb_spec i 24) as [H24 | H24].
  - destruct (Z.testbit x i); [| reflexivity]. simpl.
    destruct (Z.leb_spec 16 i), (Z.leb_spec 8 i), (Z.leb_spec 0 i),
      (Z.ltb_spec i (16 + 8)), (Z.ltb_spec i (8 + 8)), (Z.ltb_spec i (0 + 8));
      simpl; try reflexivity; lia.
  - rewrite (testbit_below_24 x Hx i H24). reflexivity.
Qed.

Lemma shiftr_land_add_high (x hi k : Z) :
  (0 <= k <= 16)%Z ->
  Z.land (Z.shiftr (x + hi * 2 ^ 24) k) 0xFF = Z.land (Z.shiftr x k) 0xFF.
Proof.
  intros Hk. change 0xFF%Z with (Z.ones 8).
  rewrite !Z.land_ones, !Z.shiftr_div_pow2 by lia.
  replace (x + hi * 2 ^ 24)%Z with (x + (hi * 2 ^ (24 - k)) * 2 ^ k)%Z.
  2:{ rewrite <- Z.mul_assoc, <- Z.pow_add_r by lia. do 3 f_equal. lia. }
  rewrite Z.div_add by lia.
  replace (hi * 2 ^ (24 - k))%Z with ((hi * 2 ^ (16 - k)) * 2 ^ 8)%Z.
  2:{ rewrite <- Z.mul_assoc, <- Z.pow_add_r by lia. do 2 f_equal. lia. }
  apply Z.mod_add. lia.
Qed.

(** C10.  For an RGB888 value [0 <= rgb_color < 2^24],
    [rgb888_to_bgr888_tuple] returns (blue, green, red) with each component
    in [0, 255] and [(red << 16) | (green << 8) | blue = rgb_color]; adding
    any bits above bit 23 to the input leaves the result unchanged (every
    component is masked with 0xFF). *)
Theorem rgb888_to_bgr888_tuple_spec (rgb_color : Z) :
  (0 <= rgb_color < 2 ^ 24)%Z ->
  let '(blue, green, red) := Display.rgb888_to_bgr888_tuple rgb_color in
  (0 <= blue <= 255)%Z /\ (0 <= green <= 255)%Z /\ (0 <= red <= 255)%Z /\
  Z.lor (Z.lor (Z.shiftl red 16) (Z.shiftl green 8)) blue = rgb_color /\
  forall hi : Z,
    Display.rgb888_to_bgr888_tuple (rgb_color + hi * 2 ^ 24)
    = Display.rgb888_to_bgr888_tuple rgb_color.
Proof.
  intros Hx. unfold Display.rgb888_to_bgr888_tuple. cbv zeta.
  repeat split; try apply land_255_range.
  - apply recompose_rgb, Hx.
  - intros hi. rewrite !shiftr_land_add_high by lia. reflexivity.
Qed.

Lemma rgb888_to_bgr888_tuple_spec_witness :
  Display.rgb888_to_bgr888_tuple 0xFF8811 = (0x11, 0x88, 0xFF)%Z /\
  Display.rgb888_to_bgr888_tuple (0xFF8811 + 5 * 2 ^ 24)
  = Display.rgb888_to_bgr888_tuple 0xFF8811.
Proof.
  split; [reflexivity |].
  pose proof (rgb888_to_bgr888_tuple_spec 0xFF8811 ltac:(lia)) as H.
  cbv beta iota zeta delta [Display.rgb888_to_bgr888_tuple] in H.
  apply H.
Defined.
(** ** Statistics *)

Section Statistics.

Import np.

Lemma Qc_min_le_l (x y : Qc) : (Qc_min x y ≤ x)%Qc.
Proof.
  unfold Qc_min. case_bool_decide as H; [apply Qcle_refl |].
  apply Qclt_le_weak, Qcnot_le_lt, H.
Qed.

Lemma Qc_min_le_r (x y : Qc) : (Qc_min x y ≤ y)%Qc.
Proof. unfold Qc_min. case_bool_decide as H; [exact H | apply Qcle_refl]. Qed.

Lemma Qc_min_cases (x y : Qc) : Qc_min x y = x \/ Qc_min x y = y.
Proof. unfold Qc_min. case_bool_decide; auto. Qed.

Lemma Qc_max_ge_l (x y : Qc) : (x ≤ Qc_max x y)%Qc.
Proof. unfold Qc_max. case_bool_decide as H; [exact H | apply Qcle_refl]. Qed.

Lemma Qc_max_ge_r (x y : Qc) : (y ≤ Qc_max x y)%Qc.
Proof.
  unfold Qc_max. case_bool_decide as H; [apply Qcle_refl |].
  apply Qclt_le_weak, Qcnot_le_lt, H.
Qed.

Lemma Qc_max_cases (x y : Qc) : Qc_max x y = x \/ Qc_max x y = y.
Proof. unfold Qc_max. case_bool_decide; auto. Qed.

Lemma foldl_min_spec (xs : list Qc) (x : Qc) :
  is_minimum (foldl Qc_min x xs) (x :: xs).
Proof.
  revert x. induction xs as [| y xs IH]; intros x; simpl.
  - split; [left |]. intros z Hz. apply list_elem_of_singleton in Hz. subst.
    apply Qcle_refl.
  - destruct (IH (Qc_min x y)) as [Hin Hle]. split.
    + apply elem_of_cons in Hin as [-> | Hin].
      * destruct (Qc_min_cases x y) as [-> | ->]; [left | right; left].
      * right; right; exact Hin.
    + intros z Hz.
      assert (Hm : (foldl Qc_min (Qc_min x y) xs ≤ Qc_min x y)%Qc)
        by (apply Hle; left).
      apply elem_of_cons in Hz as [-> | Hz].
      * eapply Qcle_trans; [exact Hm | apply Qc_min_le_l].
      * apply elem_of_cons in Hz as [-> | Hz].
        -- eapply Qcle_trans; [exact Hm | apply Qc_min_le_r].
        -- apply Hle. right; exact Hz.
Qed.

Lemma foldl_max_spec (xs : list Qc) (x : Qc) :
  is_maximum (foldl Qc_max x xs) (x :: xs).
Proof.
  revert x. induction xs as [| y xs IH]; intros x; simpl.
  - split; [left |]. intros z Hz. apply list_elem_of_singleton in Hz. subst.
    apply Qcle_refl.
  - destruct (IH (Qc_max x y)) as [Hin Hle]. split.
    + apply elem_of_cons in Hin as [-> | Hin].
      * destruct (Qc_max_cases x y) as [-> | ->]; [left | right; left].
      * right; right; exact Hin.
    + intros z Hz.
      assert (Hm : (Qc_max x y ≤ foldl Qc_max (Qc_max x y) xs)%Qc)
        by (apply Hle; left).
      apply elem_of_cons in Hz as [-> | Hz].
      * eapply Qcle_trans; [apply Qc_max_ge_l | exact Hm].
      * apply elem_of_cons in Hz as [-> | Hz].
        -- eapply Qcle_trans; [apply Qc_max_ge_r | exact Hm].
        -- apply Hle. right; exact Hz.
Qed.

Lemma min_of_spec (cells : list Qc) (m : Qc) :
  min_of cells = Ok m -> is_minimum m cells.
Proof.
  destruct cells as [| x xs]; simpl; [discriminate |].
  intros [= <-]. apply foldl_min_spec.
Qed.

Lemma max_of_spec (cells : list Qc) (m : Qc) :
  max_of cells = Ok m -> is_maximum m cells.
Proof.
  destruct cells as [| x xs]; simpl; [discriminate |].
  intros [= <-]. apply foldl_max_spec.
Qed.

Lemma is_minimum_unique (m m' : Qc) (cells cells' : list Qc) :
  cells ≡ₚ cells' -> is_minimum m cells -> is_minimum m' cells' -> m = m'.
Proof.
  intros Hp [Hin Hle] [Hin' Hle']. apply Qcle_antisym.
  - apply Hle. rewrite Hp. exact Hin'.
  - apply Hle'. rewrite <- Hp. exact Hin.
Qed.

Lemma is_maximum_unique (m m' : Qc) (cells cells' : list Qc) :
  cells ≡ₚ cells' -> is_maximum m cells -> is_maximum m' cells' -> m = m'.
Proof.
  intros Hp [Hin Hle] [Hin' Hle']. apply Qcle_antisym.
  - apply Hle'. rewrite <- Hp. exact Hin.
  - apply Hle. rewrite Hp. exact Hin'.
Qed.

Lemma is_minimum_perm (m : Qc) (cells cells' : list Qc) :
  cells ≡ₚ cells' -> is_minimum m cells -> is_minimum m cells'.
Proof.
  intros Hp [Hin Hle]. split; [now rewrite <- Hp |].
  intros x Hx. apply Hle. now rewrite Hp.
Qed.

Lemma is_maximum_perm (m : Qc) (cells cells' : list Qc) :
  cells ≡ₚ cells' -> is_maximum m cells -> is_maximum m cells'.
Proof.
  intros Hp [Hin Hle]. split; [now rewrite <- Hp |].
  intros x Hx. apply Hle. now rewrite Hp.
Qed.

Lemma sum_perm (xs ys : list Qc) : xs ≡ₚ ys -> sum xs = sum ys.
Proof.
  induction 1 as [| x xs ys _ IH | x y xs | xs ys zs _ IH1 _ IH2]; simpl.
  - reflexivity.
  - now rewrite IH.
  - ring.
  - congruence.
Qed.

Lemma concat_rev_perm {A} (a : list (list A)) : concat (rev a) ≡ₚ concat a.
Proof.
  induction a as [| row a IH]; simpl; [reflexivity |].
  rewrite concat_app, IH. simpl. rewrite app_nil_r. apply Permutation_app_comm.
Qed.

Lemma concat_map_rev_perm {A} (a : list (list A)) :
  concat (map (@rev A) a) ≡ₚ concat a.
Proof.
  induction a as [| row a IH]; simpl; [reflexivity |].
  rewrite IH. apply Permutation_app_tail. symmetry. apply Permutation_rev.
Qed.

(** Flipping the array along both axes permutes its cells. *)
Lemma flips_perm {A} (a : ndarray A) : concat (flip (flip a 0) 1) ≡ₚ concat a.
Proof. simpl. rewrite concat_map_rev_perm. apply concat_rev_perm. Qed.


Import Camera.

(** What a successful [acquire] stored in the camera. *)
Lemma acquire_Ok_inv (self : camera) sensor self' grid :
  acquire self sensor = Ok (self', grid) ->
  let data :=
    flip (flip (clip sensor (_range_min_c self) (_range_max_c self)) 0) 1 in
  np.min data = Ok (_sensor_min_c self') /\
  _sensor_avg_c self' = np.mean data /\
  np.max data = Ok (_sensor_max_c self').
Proof.
  unfold acquire, np.array. case_bool_decide; [| discriminate].
  cbn [mbind result_bind].
  destruct (np.min _) as [mn |] eqn:Hmin; [| discriminate].
  destruct (np.max _) as [mx |] eqn:Hmax; [| discriminate].
  cbn [mbind result_bind].
  destruct (_interpolate self).
  - destruct (upscale _ _); [| discriminate].
    cbn [mbind result_bind]. intros [= <- _]. simpl. auto.
  - intros [= <- _]. simpl. auto.
Qed.

End Statistics.
(** ** Arrays and slices *)


Section ArrayFacts.

Import np.
Context {A : Type}.
Implicit Types (a : ndarray A) (n m i j : nat).

Lemma shape_has_shape a n m : has_shape a n m -> 0 < n -> shape a = (n, m).
Proof.
  intros [Hn Hm] Hpos. unfold shape. rewrite Hn. f_equal.
  destruct a as [| row a]; simpl in *; [lia |].
  now apply Forall_cons in Hm as [-> _].
Qed.

Lemma get2_is_Some a n m i j :
  has_shape a n m -> i < n -> j < m -> is_Some (get2 a i j).
Proof.
  intros [Hn Hm] Hi Hj. unfold get2.
  destruct (lookup_lt_is_Some_2 a i ltac:(lia)) as [row Hrow].
  rewrite Hrow. simpl. apply lookup_lt_is_Some_2.
  rewrite Forall_lookup in Hm. rewrite (Hm _ _ Hrow). exact Hj.
Qed.

Lemma get2_Some_bounds a n m i j x :
  has_shape a n m -> get2 a i j = Some x -> i < n /\ j < m.
Proof.
  intros [Hn Hm] Hx. unfold get2 in Hx.
  destruct (a !! i) as [row |] eqn:Hrow; [| discriminate]. simpl in Hx.
  rewrite Forall_lookup in Hm. rewrite <- Hn, <- (Hm _ _ Hrow).
  split; [eapply lookup_lt_Some, Hrow | eapply lookup_lt_Some, Hx].
Qed.

Lemma imap_rows_shape a n m (f : nat -> list A -> list A) :
  has_shape a n m ->
  (forall i row, length (f i row) = length row) ->
  has_shape (imap f a) n m.
Proof.
  intros [Hn Hm] Hf. split; [now rewrite length_imap |].
  rewrite Forall_lookup in Hm. apply Forall_lookup. intros i row Hrow.
  apply list_lookup_imap_Some in Hrow as (row' & Hrow' & ->).
  rewrite Hf. eauto.
Qed.

Lemma inplace2_spec {B} (op : A -> B -> A) a rows cols (v : view B) n m :
  has_shape a n m -> 0 < n ->
  view_shape v = (slice_length rows n, slice_length cols m) ->
  exists a',
    inplace2 op a rows cols v = Ok a' /\ has_shape a' n m /\
    forall i j,
      get2 a' i j
      = cell_after op v (slice_pos rows n i) (slice_pos cols m j) <$> get2 a i j.
Proof.
  intros Hshape Hpos Hv. unfold inplace2.
  rewrite (shape_has_shape _ _ _ Hshape Hpos), Hv, bool_decide_eq_true_2 by reflexivity.
  eexists. split; [reflexivity |]. split.
  - apply imap_rows_shape; [exact Hshape |]. intros i row.
    destruct (slice_pos rows n i); [apply length_imap | reflexivity].
  - intros i j. unfold get2. rewrite list_lookup_imap.
    destruct (a !! i) as [row |]; simpl; [| reflexivity].
    unfold cell_after. destruct (slice_pos rows n i) as [p |].
    + rewrite list_lookup_imap. destruct (row !! j); simpl; [| reflexivity].
      now destruct (slice_pos cols m j).
    + now destruct (row !! j).
Qed.

Lemma inplace_scalar_spec (op : A -> A) a rows cols n m :
  has_shape a n m -> 0 < n ->
  has_shape (inplace_scalar op a rows cols) n m /\
  forall i j,
    get2 (inplace_scalar op a rows cols) i j
    = cell_after_scalar op (slice_pos rows n i) (slice_pos cols m j) <$> get2 a i j.
Proof.
  intros Hshape Hpos. unfold inplace_scalar.
  rewrite (shape_has_shape _ _ _ Hshape Hpos). split.
  - apply imap_rows_shape; [exact Hshape |]. intros i row.
    destruct (slice_pos rows n i); [apply length_imap | reflexivity].
  - intros i j. unfold get2. rewrite list_lookup_imap.
    destruct (a !! i) as [row |]; simpl; [| reflexivity].
    unfold cell_after_scalar. destruct (slice_pos rows n i) as [p |].
    + rewrite list_lookup_imap. destruct (row !! j); simpl; [| reflexivity].
      now destruct (slice_pos cols m j).
    + now destruct (row !! j).
Qed.

Lemma getitem2_spec a rows cols n m :
  has_shape a n m -> 0 < n ->
  view_shape (getitem2 a rows cols) = (slice_length rows n, slice_length cols m) /\
  forall p q,
    p < slice_length rows n -> q < slice_length cols m ->
    view_get (getitem2 a rows cols) p q
    = get2 a (slice_index rows n p) (slice_index cols m q).
Proof.
  intros Hshape Hpos. unfold getitem2.
  rewrite (shape_has_shape _ _ _ Hshape Hpos). split; [reflexivity |].
  intros p q Hp Hq. simpl. now rewrite bool_decide_eq_true_2.
Qed.

Lemma resolve_index_nonneg n (k : nat) :
  resolve_index n (Z.of_nat k) = Nat.min k n.
Proof. unfold resolve_index. destruct (Z.ltb_spec (Z.of_nat k) 0); lia. Qed.

Lemma resolve_index_neg n (k : nat) :
  0 < k -> resolve_index n (- Z.of_nat k) = n - k.
Proof.
  intros Hk. unfold resolve_index.
  destruct (Z.ltb_spec (- Z.of_nat k) 0); lia.
Qed.

Lemma resolve_index_1 n : resolve_index n 1 = Nat.min 1 n.
Proof. exact (resolve_index_nonneg n 1). Qed.

Lemma resolve_index_2 n : resolve_index n 2 = Nat.min 2 n.
Proof. exact (resolve_index_nonneg n 2). Qed.

Lemma resolve_index_minus_1 n : resolve_index n (-1) = n - 1.
Proof. exact (resolve_index_neg n 1 ltac:(lia)). Qed.

End ArrayFacts.

(** The slices of the interpolation, resolved. *)
Section SliceFacts.

Import np.

Lemma slice_length_all n : slice_length (Slice None None 1) n = n.
Proof. unfold slice_length. cbn [slice_start slice_stop start stop step from_option]. lia. Qed.

Lemma slice_pos_all n i : i < n -> slice_pos (Slice None None 1) n i = Some i.
Proof.
  intros Hi. unfold slice_pos. cbn [slice_start slice_stop start stop step from_option].
  rewrite bool_decide_eq_true_2 by (split; [lia | lia]). f_equal. lia.
Qed.

Lemma slice_index_all n k : slice_index (Slice None None 1) n k = k.
Proof. unfold slice_index. cbn [slice_start slice_stop start stop step from_option]. lia. Qed.

Lemma slice_length_even n : slice_length (Slice None None 2) n = (n + 1) / 2.
Proof. unfold slice_length. cbn [slice_start slice_stop start stop step from_option]. f_equal. lia. Qed.

Lemma slice_pos_even_even n k :
  2 * k < n -> slice_pos (Slice None None 2) n (2 * k) = Some k.
Proof.
  intros Hk. unfold slice_pos. cbn [slice_start slice_stop start stop step from_option].
  rewrite bool_decide_eq_true_2 by (split; [lia | lia]). f_equal. lia.
Qed.

Lemma slice_pos_even_odd n k : slice_pos (Slice None None 2) n (2 * k + 1) = None.
Proof.
  unfold slice_pos. cbn [slice_start slice_stop start stop step from_option].
  rewrite bool_decide_eq_false_2; [reflexivity |]. intros [_ H]. lia.
Qed.

Lemma slice_length_odd n : slice_length (Slice (Some 1%Z) None 2) n = n / 2.
Proof.
  unfold slice_length. cbn [slice_start slice_stop start stop step from_option].
  rewrite resolve_index_1. lia.
Qed.

Lemma slice_pos_odd_odd n k :
  2 * k + 1 < n -> slice_pos (Slice (Some 1%Z) None 2) n (2 * k + 1) = Some k.
Proof.
  intros Hk. unfold slice_pos. cbn [slice_start slice_stop start stop step from_option].
  rewrite resolve_index_1.
  rewrite bool_decide_eq_true_2 by (split; [lia | lia]). f_equal. lia.
Qed.

Lemma slice_pos_odd_even n k : slice_pos (Slice (Some 1%Z) None 2) n (2 * k) = None.
Proof.
  unfold slice_pos. cbn [slice_start slice_stop start stop step from_option].
  rewrite resolve_index_1.
  rewrite bool_decide_eq_false_2; [reflexivity |]. intros [H1 H]. lia.
Qed.

(** [:-1] *)
Lemma slice_length_but_last n : slice_length (Slice None (Some (-1)%Z) 1) n = n - 1.
Proof.
  unfold slice_length. cbn [slice_start slice_stop start stop step from_option].
  rewrite resolve_index_minus_1. lia.
Qed.

Lemma slice_index_but_last n k : slice_index (Slice None (Some (-1)%Z) 1) n k = k.
Proof. unfold slice_index. cbn [slice_start slice_stop start stop step from_option]. lia. Qed.

(** [1:] *)
Lemma slice_length_from_1 n : slice_length (Slice (Some 1%Z) None 1) n = n - 1.
Proof.
  unfold slice_length. cbn [slice_start slice_stop start stop step from_option].
  rewrite resolve_index_1. lia.
Qed.

Lemma slice_index_from_1 n k :
  0 < n -> slice_index (Slice (Some 1%Z) None 1) n k = k + 1.
Proof.
  intros Hn. unfold slice_index. cbn [slice_start slice_stop start stop step from_option].
  rewrite resolve_index_1. lia.
Qed.

(** [:-1:2] *)
Lemma slice_length_even_but_last n :
  slice_length (Slice None (Some (-1)%Z) 2) n = n / 2.
Proof.
  unfold slice_length. cbn [slice_start slice_stop start stop step from_option].
  rewrite resolve_index_minus_1. lia.
Qed.

Lemma slice_index_even_but_last n k :
  slice_index (Slice None (Some (-1)%Z) 2) n k = 2 * k.
Proof. unfold slice_index. cbn [slice_start slice_stop start stop step from_option]. lia. Qed.

(** [2::2] *)
Lemma slice_length_even_from_2 n :
  slice_length (Slice (Some 2%Z) None 2) n = (n - 1) / 2.
Proof.
  unfold slice_length. cbn [slice_start slice_stop start stop step from_option].
  rewrite resolve_index_2. lia.
Qed.

Lemma slice_index_even_from_2 n k :
  2 <= n -> slice_index (Slice (Some 2%Z) None 2) n k = 2 * k + 2.
Proof.
  intros Hn. unfold slice_index. cbn [slice_start slice_stop start stop step from_option].
  rewrite resolve_index_2. lia.
Qed.

End SliceFacts.

(** ** The bilinear upscaler *)

Section Upscale.

Import np Camera.

Lemma cell_after_None_r {A B} (op : A -> B -> A) v p x :
  cell_after op v p None x = x.
Proof. now destruct p. Qed.

Lemma cell_after_scalar_None_r {A} (op : A -> A) p x :
  cell_after_scalar op p None x = x.
Proof. now destruct p. Qed.

Variables (W H : nat) (s : ndarray float).
Hypothesis HW : 0 < W.
Hypothesis HH : 0 < H.
Hypothesis Hs : has_shape s W H.

Let all := Slice None None 1.
Let even := Slice None None 2.
Let odd := Slice (Some 1%Z) None 2.

(** The vertical pass: the first three statements. *)
Lemma vertical_pass (g : ndarray float) :
  has_shape g (2 * W - 1) (2 * H - 1) ->
  exists g1 g2,
    setitem2 g odd even (getitem2 s (Slice None (Some (-1)%Z) 1) all) = Ok g1 /\
    inplace2 Float.add g1 odd even (getitem2 s (Slice (Some 1%Z) None 1) all)
    = Ok g2 /\
    let g3 := inplace_scalar halve g2 odd even in
    has_shape g3 (2 * W - 1) (2 * H - 1) /\
    (forall i j, get2 g3 (2 * i) j = get2 g (2 * i) j) /\
    (forall i j a b,
       get2 s i j = Some a -> get2 s (S i) j = Some b ->
       get2 g3 (2 * i + 1) (2 * j) = Some (halve (Float.add a b))).
Proof.
  intros Hg.
  assert (Hn : 0 < 2 * W - 1) by lia.
  set (v1 := getitem2 s (Slice None (Some (-1)%Z) 1) all).
  set (v2 := getitem2 s (Slice (Some 1%Z) None 1) all).
  destruct (getitem2_spec s (Slice None (Some (-1)%Z) 1) all W H Hs HW)
    as [Hv1 Hget1].
  destruct (getitem2_spec s (Slice (Some 1%Z) None 1) all W H Hs HW)
    as [Hv2 Hget2].
  fold v1 in Hv1, Hget1. fold v2 in Hv2, Hget2.
  unfold all in Hv1, Hget1, Hv2, Hget2.
  rewrite slice_length_but_last, slice_length_all in Hv1, Hget1.
  rewrite slice_length_from_1, slice_length_all in Hv2, Hget2.
  clearbody v1 v2.
  destruct (inplace2_spec (fun _ y => y) g odd even v1 _ _ Hg Hn)
    as (g1 & E1 & S1 & C1).
  { rewrite Hv1. unfold odd, even. rewrite slice_length_odd, slice_length_even.
    f_equal; lia. }
  destruct (inplace2_spec Float.add g1 odd even v2 _ _ S1 Hn)
    as (g2 & E2 & S2 & C2).
  { rewrite Hv2. unfold odd, even. rewrite slice_length_odd, slice_length_even.
    f_equal; lia. }
  destruct (inplace_scalar_spec halve g2 odd even _ _ S2 Hn) as (S3 & C3).
  exists g1, g2. split; [exact E1 |]. split; [exact E2 |].
  cbv zeta. split; [exact S3 |]. split.
  - intros i j. rewrite C3, C2, C1. unfold odd. rewrite slice_pos_odd_even.
    destruct (get2 g (2 * i) j); reflexivity.
  - intros i j a b Ha Hb.
    destruct (get2_Some_bounds _ _ _ _ _ _ Hs Hb) as [Hi Hj].
    destruct (get2_is_Some g (2 * W - 1) (2 * H - 1) (2 * i + 1) (2 * j) Hg)
      as [x Hx]; [lia | lia |].
    rewrite C3, C2, C1, Hx. unfold odd, even.
    rewrite slice_pos_odd_odd, slice_pos_even_even by lia. simpl.
    rewrite Hget1, Hget2 by lia.
    rewrite slice_index_but_last, slice_index_from_1, !slice_index_all by lia.
    replace (i + 1) with (S i) by lia. rewrite Ha, Hb. reflexivity.
Qed.

(** The horizontal pass: the last three statements. *)
Lemma horizontal_pass (g3 : ndarray float) :
  has_shape g3 (2 * W - 1) (2 * H - 1) ->
  exists g4 g5,
    setitem2 g3 all odd (getitem2 g3 all (Slice None (Some (-1)%Z) 2)) = Ok g4 /\
    inplace2 Float.add g4 all odd (getitem2 g4 all (Slice (Some 2%Z) None 2))
    = Ok g5 /\
    let u := inplace_scalar halve g5 all odd in
    has_shape u (2 * W - 1) (2 * H - 1) /\
    (forall r j, get2 u r (2 * j) = get2 g3 r (2 * j)) /\
    (forall r j a b,
       get2 g3 r (2 * j) = Some a -> get2 g3 r (2 * j + 2) = Some b ->
       get2 u r (2 * j + 1) = Some (halve (Float.add a b))).
Proof.
  intros S3.
  assert (Hn : 0 < 2 * W - 1) by lia.
  set (v4 := getitem2 g3 all (Slice None (Some (-1)%Z) 2)).
  destruct (getitem2_spec g3 all (Slice None (Some (-1)%Z) 2) _ _ S3 Hn)
    as [Hv4 Hget4].
  fold v4 in Hv4, Hget4. unfold all in Hv4, Hget4.
  rewrite slice_length_all, slice_length_even_but_last in Hv4, Hget4.
  clearbody v4.
  destruct (inplace2_spec (fun _ y => y) g3 all odd v4 _ _ S3 Hn)
    as (g4 & E4 & S4 & C4).
  { rewrite Hv4. unfold odd, all. now rewrite slice_length_odd, slice_length_all. }
  set (v5 := getitem2 g4 all (Slice (Some 2%Z) None 2)).
  destruct (getitem2_spec g4 all (Slice (Some 2%Z) None 2) _ _ S4 Hn)
    as [Hv5 Hget5].
  fold v5 in Hv5, Hget5. unfold all in Hv5, Hget5.
  rewrite slice_length_all, slice_length_even_from_2 in Hv5, Hget5.
  destruct (inplace2_spec Float.add g4 all odd v5 _ _ S4 Hn)
    as (g5 & E5 & S5 & C5).
  { rewrite Hv5. unfold odd, all. rewrite slice_length_odd, slice_length_all.
    f_equal. lia. }
  destruct (inplace_scalar_spec halve g5 all odd _ _ S5 Hn) as (S6 & C6).
  exists g4, g5. split; [exact E4 |]. split; [exact E5 |].
  cbv zeta. split; [exact S6 |].
  assert (Heven : forall r j, get2 g4 r (2 * j) = get2 g3 r (2 * j)).
  { intros r j. rewrite C4. unfold odd. rewrite slice_pos_odd_even.
    destruct (get2 g3 r (2 * j)); [| reflexivity].
    cbn [fmap option_fmap option_map]. now rewrite cell_after_None_r. }
  split.
  - intros r j. rewrite C6, C5, Heven. unfold odd.
    rewrite slice_pos_odd_even.
    destruct (get2 g3 r (2 * j)); [| reflexivity].
    cbn [fmap option_fmap option_map].
    now rewrite cell_after_None_r, cell_after_scalar_None_r.
  - intros r j a b Ha Hb.
    destruct (get2_Some_bounds _ _ _ _ _ _ S3 Hb) as [Hr Hj].
    destruct (get2_is_Some g3 (2 * W - 1) (2 * H - 1) r (2 * j + 1) S3)
      as [x Hx]; [lia | lia |].
    rewrite C6, C5, C4, Hx. unfold odd, all.
    rewrite slice_pos_odd_odd, slice_pos_all by lia.
    cbn [fmap option_fmap option_map cell_after cell_after_scalar].
    rewrite Hget4, Hget5 by lia.
    rewrite slice_index_even_but_last, slice_index_even_from_2, !slice_index_all
      by lia.
    replace (2 * j + 2) with (2 * (j + 1)) in Hb |- * by lia.
    rewrite Heven, Ha, Hb. reflexivity.
Qed.

(** The six statements of the interpolation, after the copy of the sensor
    data to the even cells. *)
Lemma upscale_cells (g : ndarray float) :
  has_shape g (2 * W - 1) (2 * H - 1) ->
  exists u,
    upscale s g = Ok u /\ has_shape u (2 * W - 1) (2 * H - 1) /\
    (forall i j, i < W -> j < H ->
       is_Some (get2 s i j) /\ get2 u (2 * i) (2 * j) = get2 s i j) /\
    (forall i j, S i < W -> j < H ->
       exists a b,
         get2 s i j = Some a /\ get2 s (S i) j = Some b /\
         get2 u (2 * i + 1) (2 * j)
         = Some (Float.div (Float.add a b) (Float.of_int 2))) /\
    (forall r j, r < 2 * W - 1 -> S j < H ->
       exists a b,
         get2 u r (2 * j) = Some a /\ get2 u r (2 * j + 2) = Some b /\
         get2 u r (2 * j + 1)
         = Some (Float.div (Float.add a b) (Float.of_int 2))).
Proof.
  intros Hg.
  assert (Hn : 0 < 2 * W - 1) by lia.
  destruct (inplace2_spec (fun _ y => y) g even even (as_view s) _ _ Hg Hn)
    as (g0 & E0 & S0 & C0).
  { unfold as_view, even. cbn [view_shape].
    rewrite (shape_has_shape _ _ _ Hs HW), !slice_length_even. f_equal; lia. }
  destruct (vertical_pass g0 S0) as (g1 & g2 & E1 & E2 & S3 & Cev & Codd).
  cbv zeta in S3, Cev, Codd.
  destruct (horizontal_pass _ S3) as (g4 & g5 & E4 & E5 & S6 & Ceven & Chor).
  cbv zeta in S6, Ceven, Chor.
  eexists. split.
  { unfold upscale, setitem2 in *. fold even. rewrite E0. cbn [mbind result_bind].
    unfold _ulab_bilinear_interpolation, setitem2. fold all even odd.
    rewrite E1. cbn [mbind result_bind]. rewrite E2. cbn [mbind result_bind].
    rewrite E4. cbn [mbind result_bind]. rewrite E5. reflexivity. }
  split; [exact S6 |].
  assert (Hcopy : forall i j, i < W -> j < H ->
            get2 g0 (2 * i) (2 * j) = get2 s i j).
  { intros i j Hi Hj.
    destruct (get2_is_Some g _ _ (2 * i) (2 * j) Hg) as [x Hx]; [lia | lia |].
    destruct (get2_is_Some s _ _ i j Hs Hi Hj) as [a Ha].
    rewrite C0, Hx. unfold even. rewrite !slice_pos_even_even by lia.
    cbn [fmap option_fmap option_map cell_after as_view view_get].
    rewrite Ha. reflexivity. }
  split; [| split].
  - intros i j Hi Hj. split; [eapply get2_is_Some; eauto |].
    now rewrite Ceven, Cev, Hcopy.
  - intros i j Hi Hj.
    destruct (get2_is_Some s _ _ i j Hs) as [a Ha]; [lia | lia |].
    destruct (get2_is_Some s _ _ (S i) j Hs) as [b Hb]; [lia | lia |].
    exists a, b. split; [exact Ha |]. split; [exact Hb |].
    rewrite Ceven. apply Codd; assumption.
  - intros r j Hr Hj.
    destruct (get2_is_Some _ _ _ r (2 * j) S3) as [a Ha]; [lia | lia |].
    destruct (get2_is_Some _ _ _ r (2 * j + 2) S3) as [b Hb]; [lia | lia |].
    exists a, b. rewrite Ceven. split; [exact Ha |].
    replace (2 * j + 2) with (2 * (j + 1)) in Hb |- * by lia.
    rewrite Ceven. split; [exact Hb |].
    replace (2 * (j + 1)) with (2 * j + 2) in Hb by lia.
    apply Chor; assumption.
Qed.


End Upscale.

(** ** Autofocus on a uniform scene *)

Section UniformScene.

Import np Camera.

Lemma has_shape_map {A B} (f : A -> B) (a : ndarray A) n m :
  has_shape a n m -> has_shape (map (map f) a) n m.
Proof.
  intros [Hn Hm]. split; [now rewrite length_map |].
  apply Forall_map. eapply Forall_impl; [exact Hm |].
  intros row Hrow. simpl. now rewrite length_map.
Qed.

Lemma has_shape_flips {A} (a : ndarray A) n m :
  has_shape a n m -> has_shape (flip (flip a 0) 1) n m.
Proof.
  intros [Hn Hm]. simpl. split; [now rewrite length_map, length_rev |].
  apply Forall_map, Forall_rev. eapply Forall_impl; [exact Hm |].
  intros row Hrow. simpl. now rewrite length_rev.
Qed.

Lemma array_Ok {A} (rows : list (list A)) n m :
  has_shape rows n m -> 0 < n -> np.array rows = Ok rows.
Proof.
  intros Hshape Hn. unfold np.array.
  rewrite (shape_has_shape _ _ _ Hshape Hn). simpl.
  rewrite bool_decide_eq_true_2; [reflexivity | apply Hshape].
Qed.

Lemma concat_nonempty {A} (a : ndarray A) n m :
  has_shape a n m -> 0 < n -> 0 < m -> concat a <> [].
Proof.
  intros [Hn Hm] Hpos Hmpos. destruct a as [| row a]; simpl in *; [lia |].
  apply Forall_cons in Hm as [Hrow _]. destruct row; simpl in *; [lia | discriminate].
Qed.

Lemma min_of_is_Ok cells : cells <> [] -> exists m, min_of cells = Ok m.
Proof. destruct cells; [congruence | simpl; eauto]. Qed.

Lemma max_of_is_Ok cells : cells <> [] -> exists m, max_of cells = Ok m.
Proof. destruct cells; [congruence | simpl; eauto]. Qed.

Lemma Forall2d_concat {A} (P : A -> Prop) (a : ndarray A) :
  Forall (Forall P) a <-> Forall P (concat a).
Proof.
  induction a as [| row a IH]; simpl.
  - split; constructor.
  - rewrite Forall_cons, Forall_app, IH. reflexivity.
Qed.

Lemma div_zero_zero (x : Qc) : Float.div (Fin (x - x)%Qc) (Fin (x - x)%Qc) = NaN.
Proof.
  assert (H : (x - x)%Qc = 0%Qc) by ring. rewrite H. reflexivity.
Qed.

Lemma halve_NaN (a b : float) :
  NaN = a -> NaN = b -> NaN = halve (Float.add a b).
Proof. now intros <- <-. Qed.

(** Normalizing a uniform array by its own minimum and maximum. *)
Lemma normalize_uniform (data : ndarray Qc) (v : Qc) :
  Forall (Forall (eq v)) data ->
  Forall (Forall (eq NaN)) (normalize data v v).
Proof.
  intros Hu. unfold normalize. apply Forall_map.
  eapply Forall_impl; [exact Hu |]. intros row Hrow. simpl.
  apply Forall_map. eapply Forall_impl; [exact Hrow |].
  intros x <-. simpl. symmetry. apply div_zero_zero.
Qed.

Lemma get2_Forall {A} (P : A -> Prop) (a : ndarray A) i j x :
  Forall (Forall P) a -> get2 a i j = Some x -> P x.
Proof.
  intros Ha Hx. unfold get2 in Hx.
  destruct (a !! i) as [row |] eqn:Hrow; [| discriminate]. simpl in Hx.
  rewrite Forall_lookup in Ha. specialize (Ha _ _ Hrow).
  rewrite Forall_lookup in Ha. eauto.
Qed.

Lemma Forall_get2 {A} (P : A -> Prop) (a : ndarray A) :
  (forall i j x, get2 a i j = Some x -> P x) -> Forall (Forall P) a.
Proof.
  intros H. apply Forall_lookup. intros i row Hrow.
  apply Forall_lookup. intros j x Hx. apply (H i j).
  unfold get2. now rewrite Hrow.
Qed.

(** Upscaling keeps every property of cells that averaging two cells
    keeps. *)
Lemma upscale_preserves (P : float -> Prop) (W H : nat) (s g : ndarray float) :
  (forall a b, P a -> P b -> P (halve (Float.add a b))) ->
  0 < W -> 0 < H -> has_shape s W H -> has_shape g (2 * W - 1) (2 * H - 1) ->
  Forall (Forall P) s ->
  exists u, upscale s g = Ok u /\ has_shape u (2 * W - 1) (2 * H - 1) /\
            Forall (Forall P) u.
Proof.
  intros Havg HW HH Hs Hg HP.
  destruct (upscale_cells W H s HW HH Hs g Hg) as (u & Hu & Su & Heven & Hodd & Hhor).
  exists u. split; [exact Hu |]. split; [exact Su |].
  assert (Hcol : forall r j x, get2 u r (2 * j) = Some x -> P x).
  { intros r j x Hx. destruct (get2_Some_bounds _ _ _ _ _ _ Su Hx) as [Hr Hj].
    destruct (Nat.Even_or_Odd r) as [[i ->] | [i ->]].
    - destruct (Heven i j ltac:(lia) ltac:(lia)) as [_ E]. rewrite E in Hx.
      eapply get2_Forall in Hx; [| exact HP]. exact Hx.
    - destruct (Hodd i j ltac:(lia) ltac:(lia)) as (a & b & Ha & Hb & E).
      eapply get2_Forall in Ha; [| exact HP].
      eapply get2_Forall in Hb; [| exact HP]. simpl in Ha, Hb.
      rewrite E in Hx. injection Hx as <-. now apply Havg. }
  apply Forall_get2. intros r c x Hx.
  destruct (get2_Some_bounds _ _ _ _ _ _ Su Hx) as [Hr Hc].
  destruct (Nat.Even_or_Odd c) as [[j ->] | [j ->]].
  - eapply Hcol, Hx.
  - destruct (Hhor r j Hr ltac:(lia)) as (a & b & Ha & Hb & E).
    apply Hcol in Ha. replace (2 * j + 2) with (2 * (j + 1)) in Hb by lia.
    apply Hcol in Hb. rewrite E in Hx. injection Hx as <-. now apply Havg.
Qed.

(** C1, as the code has it.  For a frame whose clipped values are all
    equal, acquiring with autofocus on raises no exception, with or
    without interpolation, and divides 0 by [max_c - min_c = 0] in every
    cell: every cell of the grid returned is NaN (not 0.0). *)
Theorem acquire_uniform_scene (self : camera) (sensor : list (list Qc))
    (W H : nat) (v : Qc) :
  _auto_focus self = true ->
  0 < W -> 0 < H -> has_shape sensor W H ->
  (_interpolate self = true ->
   has_shape (_grid_data self) (2 * W - 1) (2 * H - 1)) ->
  Forall (Forall (eq v))
    (clip sensor (_range_min_c self) (_range_max_c self)) ->
  exists self' grid,
    acquire self sensor = Ok (self', grid) /\
    grid <> [] /\ Forall (Forall (eq NaN)) grid.
Proof.
  intros Hauto HW HH Hsensor Hgrid Hu.
  set (a := clip sensor (_range_min_c self) (_range_max_c self)) in *.
  set (data := flip (flip a 0) 1).
  assert (Sdata : has_shape data W H)
    by (apply has_shape_flips, has_shape_map, Hsensor).
  assert (Hcells : Forall (eq v) (concat data)).
  { apply Forall2d_concat in Hu. rewrite Forall_forall in Hu.
    apply Forall_forall. intros x Hx. apply Hu.
    unfold data in Hx. now rewrite flips_perm in Hx. }
  assert (Hne : concat data <> []) by (eapply concat_nonempty; eauto).
  destruct (min_of_is_Ok _ Hne) as [mn Hmin].
  destruct (max_of_is_Ok _ Hne) as [mx Hmax].
  rewrite Forall_forall in Hcells.
  assert (mn = v) as -> by (symmetry; apply Hcells, (min_of_spec _ _ Hmin)).
  assert (mx = v) as -> by (symmetry; apply Hcells, (max_of_spec _ _ Hmax)).
  assert (Hnorm : Forall (Forall (eq NaN)) (normalize data v v)).
  { apply normalize_uniform, Forall2d_concat, Forall_forall, Hcells. }
  assert (Snorm : has_shape (normalize data v v) W H)
    by (apply has_shape_map, Sdata).
  unfold acquire. rewrite (array_Ok _ _ _ Hsensor HW). cbn [mbind result_bind].
  fold a. fold data. unfold np.min, np.max. rewrite Hmin, Hmax.
  cbn [mbind result_bind]. rewrite Hauto.
  destruct (_interpolate self) eqn:Hint.
  - destruct (upscale_preserves (eq NaN) W H _ _ halve_NaN HW HH Snorm
                (Hgrid eq_refl) Hnorm)
      as (u & Eu & Su & Hnan).
    rewrite Eu. cbn [mbind result_bind]. eexists _, _. split; [reflexivity |].
    split; [| exact Hnan]. destruct Su as [Hlen _]. destruct u; simpl in *; [lia | discriminate].
  - eexists _, _. split; [reflexivity |]. split; [| exact Hnorm].
    destruct Snorm as [Hlen _].
    destruct (normalize data v v); simpl in *; [lia | discriminate].
Qed.

Lemma acquire_uniform_scene_witness :
  exists self' grid,
    acquire amg_2x2 uniform_2x2 = Ok (self', grid) /\
    grid <> [] /\ Forall (Forall (eq NaN)) grid.
Proof.
  apply (acquire_uniform_scene amg_2x2 uniform_2x2 2 2 (Qc_of_Z 25)).
  - reflexivity.
  - lia.
  - lia.
  - split; [reflexivity | repeat constructor].
  - discriminate.
  - repeat constructor; decide_by_computation.
Defined.

(** The claim as the specification states it: a uniform scene under
    autofocus normalizes to 0.0 in every cell. *)
Lemma acquire_uniform_scene_not_zero :
  exists self' grid,
    acquire amg_2x2 uniform_2x2 = Ok (self', grid) /\
    Forall (Forall (eq (Qc_of_Z 25)))
      (clip uniform_2x2 (_range_min_c amg_2x2) (_range_max_c amg_2x2)) /\
    ~ Forall (Forall (eq (Float.of_int 0))) grid.
Proof.
  eexists _, _. split; [vm_compute; reflexivity |]. split.
  - repeat constructor; decide_by_computation.
  - intros Hz. apply Forall_cons in Hz as [Hrow _].
    apply Forall_cons in Hrow as [Hcell _]. discriminate Hcell.
Qed.

End UniformScene.
(** ** Normalized values lie in [0, 1] *)

Section NormalizedBounds.

Import np Camera.

Lemma Qc_div_unit (a b : Qc) :
  (0 ≤ a)%Qc -> (a ≤ b)%Qc -> (0 < b)%Qc ->
  (0 ≤ a / b)%Qc /\ (a / b ≤ 1)%Qc.
Proof.
  intros Ha Hab Hb. pose proof (Qcinv_pos _ Hb) as Hinv.
  assert (Hb0 : b <> 0%Qc).
  { intros ->. exact (Qclt_not_le _ _ Hb (Qcle_refl _)). }
  unfold Qcdiv. split.
  - apply Qcmult_nonneg_nonneg; [exact Ha | apply Qclt_le_weak, Hinv].
  - rewrite <- (Qcmult_inv_r b Hb0).
    apply Qcmult_le_compat_r; [exact Hab | apply Qclt_le_weak, Hinv].
Qed.

Lemma Qc_sub_nonneg (x lo : Qc) : (lo ≤ x)%Qc -> (0 ≤ x - lo)%Qc.
Proof.
  intros H. apply (Qcplus_le_mono_r _ _ lo).
  replace (x - lo + lo)%Qc with x by ring. now rewrite Qcplus_0_l.
Qed.

Lemma Qc_sub_pos (lo hi : Qc) : (lo < hi)%Qc -> (0 < hi - lo)%Qc.
Proof.
  intros H. apply Qcnot_le_lt. intros Hle.
  apply (Qclt_not_le _ _ H). apply (Qcplus_le_mono_r _ _ (- lo)%Qc).
  replace (lo + - lo)%Qc with 0%Qc by ring. exact Hle.
Qed.

Lemma Qc_sub_le (x lo hi : Qc) : (x ≤ hi)%Qc -> (x - lo ≤ hi - lo)%Qc.
Proof. intros H. unfold Qcminus. now apply Qcplus_le_mono_r. Qed.

(** One normalized cell. *)
Lemma normalize_cell_unit (x lo hi : Qc) :
  (lo ≤ x)%Qc -> (x ≤ hi)%Qc -> (lo < hi)%Qc ->
  in_unit (Float.div (Fin (x - lo)%Qc) (Fin (hi - lo)%Qc)).
Proof.
  intros Hlo Hhi Hlt. pose proof (Qc_sub_pos _ _ Hlt) as Hpos.
  unfold Float.div, Float.Qc_is_zero. rewrite bool_decide_eq_false_2.
  - apply Qc_div_unit; [apply Qc_sub_nonneg, Hlo | apply Qc_sub_le, Hhi | exact Hpos].
  - intros E. rewrite E in Hpos. exact (Qclt_not_le _ _ Hpos (Qcle_refl _)).
Qed.

Lemma normalize_unit (data : ndarray Qc) (lo hi : Qc) :
  (lo < hi)%Qc ->
  Forall (Forall (fun x => (lo ≤ x)%Qc /\ (x ≤ hi)%Qc)) data ->
  Forall (Forall in_unit) (normalize data lo hi).
Proof.
  intros Hlt Hd. unfold normalize. apply Forall_map.
  eapply Forall_impl; [exact Hd |]. intros row Hrow. simpl.
  apply Forall_map. eapply Forall_impl; [exact Hrow |].
  intros x [Hlo Hhi]. simpl. now apply normalize_cell_unit.
Qed.

(** The average of two cells of [0, 1] is in [0, 1]. *)
Lemma halve_unit (a b : float) :
  in_unit a -> in_unit b -> in_unit (halve (Float.add a b)).
Proof.
  destruct a as [x | |], b as [y | |]; cbn [in_unit]; try tauto.
  intros [Hx0 Hx1] [Hy0 Hy1].
  assert (H2 : (0 < Qc_of_Z 2)%Qc) by decide_by_computation.
  unfold halve, Float.of_int. cbn [Float.add Float.div].
  unfold Float.Qc_is_zero.
  rewrite bool_decide_eq_false_2 by (intros E; discriminate E).
  cbn [in_unit].
  apply Qc_div_unit; [| | exact H2].
  - rewrite <- (Qcplus_0_l 0). now apply Qcplus_le_compat.
  - replace (Qc_of_Z 2) with (1 + 1)%Qc by decide_by_computation.
    now apply Qcplus_le_compat.
Qed.

(** Clipping to a range puts every cell in the range. *)
Lemma clip_range (a : ndarray Qc) (lo hi : Qc) :
  (lo ≤ hi)%Qc ->
  Forall (Forall (fun x => (lo ≤ x)%Qc /\ (x ≤ hi)%Qc)) (clip a lo hi).
Proof.
  intros Hle. unfold clip. apply Forall_map, Forall_forall. intros row _.
  simpl. apply Forall_map, Forall_forall. intros x _. simpl. split.
  - apply Qc_max_ge_l.
  - destruct (Qc_max_cases lo (Qc_min x hi)) as [-> | ->];
      [exact Hle | apply Qc_min_le_r].
Qed.

Lemma Forall2d_flips {A} (P : A -> Prop) (a : ndarray A) :
  Forall (Forall P) a -> Forall (Forall P) (flip (flip a 0) 1).
Proof.
  intros Ha. rewrite Forall2d_concat in Ha |- *. now rewrite flips_perm.
Qed.

(** The minimum is below the maximum as soon as two cells differ. *)
Lemma min_lt_max (cells : list Qc) (mn mx x y : Qc) :
  is_minimum mn cells -> is_maximum mx cells ->
  x ∈ cells -> y ∈ cells -> x <> y -> (mn < mx)%Qc.
Proof.
  intros [_ Hmn] [_ Hmx] Hx Hy Hne. apply Qcnot_le_lt. intros Hle.
  apply Hne. apply Qcle_antisym.
  - eapply Qcle_trans; [apply Hmx, Hx |]. eapply Qcle_trans; [exact Hle |].
    apply Hmn, Hy.
  - eapply Qcle_trans; [apply Hmx, Hy |]. eapply Qcle_trans; [exact Hle |].
    apply Hmn, Hx.
Qed.

(** X2.  Normalization bounds.  For a frame of shape (W, H), acquiring
    succeeds and every cell of the grid returned is a number of [0, 1],
    with or without interpolation, when the divisor of the normalization
    is not zero: with autofocus, when two clipped values differ; without,
    when the range of the camera has [range_min_c < range_max_c]. *)
Theorem acquire_normalized_bounds (self : camera) (sensor : list (list Qc))
    (W H : nat) :
  0 < W -> 0 < H -> has_shape sensor W H ->
  (_interpolate self = true ->
   has_shape (_grid_data self) (2 * W - 1) (2 * H - 1)) ->
  (if _auto_focus self
   then exists x y,
          x ∈ concat (clip sensor (_range_min_c self) (_range_max_c self)) /\
          y ∈ concat (clip sensor (_range_min_c self) (_range_max_c self)) /\
          x <> y
   else (_range_min_c self < _range_max_c self)%Qc) ->
  exists self' grid,
    acquire self sensor = Ok (self', grid) /\
    grid <> [] /\ Forall (Forall in_unit) grid.
Proof.
  intros HW HH Hsensor Hgrid Hrange.
  set (a := clip sensor (_range_min_c self) (_range_max_c self)) in *.
  set (data := flip (flip a 0) 1).
  assert (Sdata : has_shape data W H)
    by (apply has_shape_flips, has_shape_map, Hsensor).
  assert (Hne : concat data <> []) by (eapply concat_nonempty; eauto).
  destruct (min_of_is_Ok _ Hne) as [mn Hmin].
  destruct (max_of_is_Ok _ Hne) as [mx Hmax].
  pose proof (min_of_spec _ _ Hmin) as Hmn.
  pose proof (max_of_spec _ _ Hmax) as Hmx.
  set (normalized :=
         if _auto_focus self then normalize data mn mx
         else normalize data (_range_min_c self) (_range_max_c self)).
  assert (Hnorm : Forall (Forall in_unit) normalized).
  { unfold normalized. destruct (_auto_focus self).
    - destruct Hrange as (x & y & Hx & Hy & Hxy).
      apply normalize_unit.
      + apply (min_lt_max (concat data) mn mx x y Hmn Hmx); [| | exact Hxy];
          unfold data; now rewrite flips_perm.
      + apply Forall2d_concat, Forall_forall. intros z Hz. split.
        * now apply Hmn.
        * now apply Hmx.
    - apply normalize_unit; [exact Hrange |].
      apply Forall2d_flips, clip_range, Qclt_le_weak, Hrange. }
  assert (Snorm : has_shape normalized W H).
  { unfold normalized. destruct (_auto_focus self); apply has_shape_map, Sdata. }
  unfold acquire. rewrite (array_Ok _ _ _ Hsensor HW). cbn [mbind result_bind].
  fold a. fold data. unfold np.min, np.max. rewrite Hmin, Hmax.
  cbn [mbind result_bind]. fold normalized.
  destruct (_interpolate self) eqn:Hint.
  - destruct (upscale_preserves in_unit W H _ _ halve_unit HW HH Snorm
                (Hgrid eq_refl) Hnorm) as (u & Eu & Su & Hu).
    rewrite Eu. cbn [mbind result_bind]. eexists _, _. split; [reflexivity |].
    split; [| exact Hu]. destruct Su as [Hlen _].
    destruct u; simpl in *; [lia | discriminate].
  - eexists _, _. split; [reflexivity |]. split; [| exact Hnorm].
    destruct Snorm as [Hlen _].
    destruct normalized; simpl in *; [lia | discriminate].
Qed.

Lemma acquire_normalized_bounds_witness :
  exists self' grid,
    acquire amg_2x2_upscaling sample_2x2 = Ok (self', grid) /\
    grid <> [] /\ Forall (Forall in_unit) grid.
Proof.
  apply (acquire_normalized_bounds amg_2x2_upscaling sample_2x2 2 2).
  - lia.
  - lia.
  - split; [reflexivity | repeat constructor].
  - intros _. split; [reflexivity | repeat constructor].
  - exists (Qc_of_Z 10), (Qc_of_Z 20). repeat split.
    + decide_by_computation.
    + decide_by_computation.
    + intros E. discriminate E.
Defined.

End NormalizedBounds.
(** ** Loops *)

Section Loops.
Context {S X : Type}.
Implicit Types (body : X -> S -> result S) (xs : list X) (s : S).

Lemma for_each_app body xs ys s :
  for_each body (xs ++ ys) s = for_each body xs s ≫= for_each body ys.
Proof.
  revert s. induction xs as [| x xs IH]; intros s; simpl; [reflexivity |].
  destruct (body x s) as [s' | e]; simpl; [apply IH | reflexivity].
Qed.

Lemma for_each_ext body body' xs s :
  (forall x s, x ∈ xs -> body x s = body' x s) ->
  for_each body xs s = for_each body' xs s.
Proof.
  revert s. induction xs as [| x xs IH]; intros s Hext; simpl; [reflexivity |].
  rewrite Hext by left. destruct (body' x s); simpl; [| reflexivity].
  apply IH. intros y t Hy. apply Hext. now right.
Qed.

Lemma for_each_map {Y} (h : Y -> X) body (ys : list Y) s :
  for_each body (map h ys) s = for_each (fun y => body (h y)) ys s.
Proof.
  revert s. induction ys as [| y ys IH]; intros s; simpl; [reflexivity |].
  destruct (body (h y) s); simpl; [apply IH | reflexivity].
Qed.

(** A loop whose every iteration leaves the state as it is. *)
Lemma for_each_fixed body xs s :
  (forall x, x ∈ xs -> body x s = Ok s) -> for_each body xs s = Ok s.
Proof.
  induction xs as [| x xs IH]; intros Hfix; simpl; [reflexivity |].
  rewrite Hfix by left. simpl. apply IH. intros y Hy. apply Hfix. now right.
Qed.

End Loops.

Lemma for_each_nested {S X Y} (body : X -> Y -> S -> result S)
    (xs : list X) (ys : list Y) (s : S) :
  for_each (fun x => for_each (body x) ys) xs s
  = for_each (fun xy => body xy.1 xy.2)
      (flat_map (fun x => map (pair x) ys) xs) s.
Proof.
  revert s. induction xs as [| x xs IH]; intros s; simpl; [reflexivity |].
  rewrite for_each_app, for_each_map. simpl.
  destruct (for_each (body x) ys s); simpl; [apply IH | reflexivity].
Qed.

Lemma range_down_map (n : nat) : range_down n = map (fun k => n - 1 - k) (range n).
Proof.
  unfold range_down, range. induction n as [| n IH]; [reflexivity |].
  rewrite seq_S at 1. rewrite rev_app_distr. simpl. f_equal; [lia |].
  rewrite IH. rewrite <- seq_shift, map_map. apply map_ext_in.
  intros k Hk. apply in_seq in Hk. lia.
Qed.

(** ** The grid renderer *)

Section Render.
Import Display.
Variable index_to_rgb : float -> Z.

Lemma update_image_cell_eq self grid_data selfie _col _row :
  update_image_cell index_to_rgb grid_data selfie _col _row self
  = color ← cell_color index_to_rgb self grid_data selfie _col _row;
    cell ← getitem (image_group self) (group_index self _col _row);
    fill ← get_fill cell;
    if bool_decide (color <> fill)
    then set_fill self (group_index self _col _row) color
    else Ok self.
Proof.
  unfold update_image_cell, cell_color, group_index.
  destruct (getitem grid_data _col) as [column |]; [| reflexivity].
  cbn [mbind result_bind].
  destruct (if selfie then _ else _) as [ci |]; [| reflexivity].
  cbn [mbind result_bind].
  destruct (Float.py_truediv _ _); reflexivity.
Qed.

Lemma update_image_frame_eq self grid_data selfie :
  update_image_frame index_to_rgb self grid_data selfie
  = for_each (fun cr => update_image_cell index_to_rgb grid_data selfie cr.1 cr.2)
      (frame_cells self) self.
Proof. unfold update_image_frame. apply for_each_nested. Qed.

(** The colour of a cell depends on the display through its configuration
    only. *)
Lemma cell_color_config self self' grid_data selfie _col _row :
  _grid_axis self' = _grid_axis self ->
  _palette_size self' = _palette_size self ->
  cell_color index_to_rgb self' grid_data selfie _col _row
  = cell_color index_to_rgb self grid_data selfie _col _row.
Proof. intros Ha Hp. unfold cell_color. now rewrite Ha, Hp. Qed.

Lemma stored_fill_get self k e :
  image_group self !! k = Some e ->
  get_fill e = from_option Ok (Raise AttributeError) (stored_fill self k).
Proof.
  intros He. unfold stored_fill. rewrite He. now destruct e as [x y f | [f |]].
Qed.

Lemma get_fill_with_fill e color : get_fill (with_fill e color) = Ok color.
Proof. now destruct e. Qed.

(** What one assignment to a [fill] changes. *)
Lemma set_fill_Ok self k color self' :
  set_fill self k color = Ok self' ->
  _grid_axis self' = _grid_axis self /\
  _palette_size self' = _palette_size self /\
  fill_writes self' = S (fill_writes self) /\
  stored_fill self' k = Some color /\
  forall k', k' <> k -> image_group self' !! k' = image_group self !! k'.
Proof.
  unfold set_fill, getitem.
  destruct (image_group self !! k) as [e |] eqn:He; [| discriminate].
  cbn [mbind result_bind]. intros [= <-]. cbn.
  repeat split.
  - unfold stored_fill. cbn. rewrite list_lookup_insert_eq
      by (eapply lookup_lt_Some, He). now destruct e as [x y f | f].
  - intros k' Hk'. now apply list_lookup_insert_ne.
Qed.

(** One iteration: the display after it, by the colour computed and the
    colour stored before. *)
Lemma update_image_cell_Ok self grid_data selfie _col _row self' :
  update_image_cell index_to_rgb grid_data selfie _col _row self = Ok self' ->
  exists color,
    cell_color index_to_rgb self grid_data selfie _col _row = Ok color /\
    _grid_axis self' = _grid_axis self /\
    _palette_size self' = _palette_size self /\
    stored_fill self' (group_index self _col _row) = Some color /\
    (forall k, k <> group_index self _col _row ->
               image_group self' !! k = image_group self !! k) /\
    if bool_decide (stored_fill self (group_index self _col _row) = Some color)
    then self' = self
    else fill_writes self' = S (fill_writes self).
Proof.
  rewrite update_image_cell_eq.
  destruct (cell_color index_to_rgb _ _ _ _ _) as [color |]; [| discriminate].
  cbn [mbind result_bind]. unfold getitem at 1.
  destruct (image_group self !! _) as [e |] eqn:He; [| discriminate].
  cbn [mbind result_bind]. rewrite (stored_fill_get _ _ _ He).
  destruct (stored_fill self _) as [fill |] eqn:Hfill; [| discriminate].
  cbn [mbind result_bind from_option]. intros Hstep. exists color.
  split; [reflexivity |]. case_bool_decide as Hne.
  - apply set_fill_Ok in Hstep as (Ha & Hp & Hw & Hs & Hframe).
    rewrite bool_decide_eq_false_2 by congruence. auto 6.
  - injection Hstep as <-. assert (color = fill) as -> by (destruct (decide (color = fill)); [assumption | contradiction]).
    rewrite bool_decide_eq_true_2 by reflexivity. auto 6.
Qed.

(** An iteration that finds the colour it computes already stored writes
    nothing. *)
Lemma update_image_cell_same self grid_data selfie _col _row color :
  cell_color index_to_rgb self grid_data selfie _col _row = Ok color ->
  stored_fill self (group_index self _col _row) = Some color ->
  update_image_cell index_to_rgb grid_data selfie _col _row self = Ok self.
Proof.
  intros Hcolor Hfill. rewrite update_image_cell_eq, Hcolor.
  cbn [mbind result_bind]. unfold getitem, stored_fill in *.
  destruct (image_group self !! _) as [e |]; [| discriminate].
  cbn [mbind result_bind].
  assert (get_fill e = Ok color) as -> by (destruct e as [x y f | [f |]]; simpl in *; congruence).
  cbn [mbind result_bind]. now rewrite bool_decide_eq_false_2 by tauto.
Qed.

Lemma map_add_seq (k n : nat) : map (fun r => k + r) (seq 0 n) = seq k n.
Proof.
  revert k. induction n as [| n IH]; intros k; simpl; [reflexivity |].
  rewrite Nat.add_0_r. f_equal. rewrite <- seq_shift, map_map, <- (IH (S k)).
  apply map_ext. intros r. lia.
Qed.

Lemma group_indices (a0 a1 : nat) :
  flat_map (fun c => map (fun r => c * a1 + r) (seq 0 a1)) (seq 0 a0)
  = seq 0 (a0 * a1).
Proof.
  induction a0 as [| a0 IH]; [reflexivity |].
  rewrite seq_S, flat_map_app, IH. simpl. rewrite app_nil_r.
  replace (a1 + a0 * a1) with (a0 * a1 + a1) by lia. rewrite seq_app. f_equal.
  apply map_add_seq.
Qed.

Lemma frame_cells_indices self :
  map (fun cr => group_index self cr.1 cr.2) (frame_cells self)
  = seq 0 ((_grid_axis self).1 * (_grid_axis self).2).
Proof.
  unfold frame_cells, group_index, range. rewrite <- group_indices.
  induction (seq 0 (_grid_axis self).1) as [| c cs IH]; [reflexivity |].
  simpl. rewrite map_app, IH, map_map. reflexivity.
Qed.

Lemma elem_of_frame_cells self c r :
  (c, r) ∈ frame_cells self <-> c < (_grid_axis self).1 /\ r < (_grid_axis self).2.
Proof.
  unfold frame_cells, range. rewrite list_elem_of_In, in_flat_map. split.
  - intros (c' & Hc' & Hin). apply in_map_iff in Hin as (r' & [= <- <-] & Hr').
    apply in_seq in Hc', Hr'. lia.
  - intros [Hc Hr]. exists c. split; [apply in_seq; lia |].
    apply in_map, in_seq. lia.
Qed.


Lemma stored_fill_lookup self self' k :
  image_group self' !! k = image_group self !! k ->
  stored_fill self' k = stored_fill self k.
Proof. intros H. unfold stored_fill. now rewrite H. Qed.

Section Frame.

Variables (grid_data : ndarray float) (selfie : bool).

Let step (cr : nat * nat) : display -> result display :=
  update_image_cell index_to_rgb grid_data selfie cr.1 cr.2.

Lemma render_config cells self self' :
  for_each step cells self = Ok self' ->
  _grid_axis self' = _grid_axis self /\ _palette_size self' = _palette_size self.
Proof.
  revert self. induction cells as [| cr cells IH]; intros self; simpl.
  - now intros [= <-].
  - destruct (step cr self) as [s1 |] eqn:Hstep; [| discriminate].
    cbn [mbind result_bind]. intros Hrest.
    apply update_image_cell_Ok in Hstep as (color & _ & Ha & Hp & _).
    destruct (IH _ Hrest) as [Ha' Hp']. split; congruence.
Qed.

(** The loop leaves alone every element it does not visit. *)
Lemma render_frame cells self self' k :
  for_each step cells self = Ok self' ->
  k ∉ map (fun cr => group_index self cr.1 cr.2) cells ->
  image_group self' !! k = image_group self !! k.
Proof.
  revert self. induction cells as [| cr cells IH]; intros self; simpl.
  - now intros [= <-].
  - destruct (step cr self) as [s1 |] eqn:Hstep; [| discriminate].
    cbn [mbind result_bind]. intros Hrest Hk.
    apply not_elem_of_cons in Hk as [Hne Hk].
    apply update_image_cell_Ok in Hstep as (color & _ & Ha & _ & _ & Hframe & _).
    rewrite (IH _ Hrest).
    + apply Hframe, Hne.
    + unfold group_index in *. now rewrite Ha.
Qed.

(** After the loop every visited cell stores the colour computed for it. *)
Lemma render_cells_Ok cells self self' :
  for_each step cells self = Ok self' ->
  NoDup (map (fun cr => group_index self cr.1 cr.2) cells) ->
  forall cr, cr ∈ cells ->
    exists color,
      cell_color index_to_rgb self grid_data selfie cr.1 cr.2 = Ok color /\
      stored_fill self' (group_index self cr.1 cr.2) = Some color.
Proof.
  revert self. induction cells as [| cr0 cells IH]; intros self; simpl.
  - intros _ _ cr Hcr. inversion Hcr.
  - destruct (step cr0 self) as [s1 |] eqn:Hstep; [| discriminate].
    cbn [mbind result_bind]. intros Hrest Hnodup cr Hcr.
    apply NoDup_cons in Hnodup as [Hfresh Hnodup].
    apply update_image_cell_Ok in Hstep as (color & Hcolor & Ha & Hp & Hs & _).
    assert (Hgi : forall c r, group_index s1 c r = group_index self c r)
      by (intros; unfold group_index; now rewrite Ha).
    apply elem_of_cons in Hcr as [-> | Hcr].
    + exists color. split; [exact Hcolor |]. rewrite <- Hs.
      apply stored_fill_lookup, (render_frame _ _ _ _ Hrest).
      erewrite map_ext; [exact Hfresh |]. intros; apply Hgi.
    + destruct (IH s1 Hrest) with (cr := cr) as (color' & Hcolor' & Hs').
      * erewrite map_ext; [exact Hnodup |]. intros; apply Hgi.
      * exact Hcr.
      * exists color'. rewrite <- (cell_color_config _ s1) by assumption.
        rewrite <- Hgi. auto.
Qed.

End Frame.

(** C4.  One iteration of [update_image_frame] assigns the fill of its
    cell exactly when the colour it computes differs from the colour
    stored, and otherwise leaves the display as it is; consequently a
    second call with the same grid and selfie setting returns the display
    of the first call unchanged, its count of fill assignments included. *)
Theorem update_image_frame_diff_only self grid_data selfie :
  (forall _col _row self',
     update_image_cell index_to_rgb grid_data selfie _col _row self = Ok self' ->
     exists color,
       cell_color index_to_rgb self grid_data selfie _col _row = Ok color /\
       stored_fill self' (group_index self _col _row) = Some color /\
       if bool_decide (stored_fill self (group_index self _col _row) = Some color)
       then self' = self
       else fill_writes self' = S (fill_writes self)) /\
  (forall self',
     update_image_frame index_to_rgb self grid_data selfie = Ok self' ->
     update_image_frame index_to_rgb self' grid_data selfie = Ok self').
Proof.
  split.
  - intros _col _row self' Hstep.
    apply update_image_cell_Ok in Hstep as (color & Hc & _ & _ & Hs & _ & Hw).
    eauto.
  - intros self' Hfirst. rewrite update_image_frame_eq in *.
    destruct (render_config _ _ _ _ _ Hfirst) as [Ha Hp].
    pose proof (render_cells_Ok _ _ _ _ _ Hfirst) as Hcells.
    rewrite frame_cells_indices in Hcells. specialize (Hcells (NoDup_seq _ _)).
    assert (Hfc : frame_cells self' = frame_cells self)
      by (unfold frame_cells; now rewrite Ha).
    rewrite Hfc. apply for_each_fixed. intros cr Hcr.
    destruct (Hcells cr Hcr) as (color & Hcolor & Hs).
    apply update_image_cell_same with (color := color).
    + now rewrite (cell_color_config self self').
    + unfold group_index in *. now rewrite Ha.
Qed.


Lemma cell_color_read self grid_data selfie _col _row :
  cell_color index_to_rgb self grid_data selfie _col _row
  = v ← from_option Ok (Raise IndexError)
         (np.get2 grid_data _col (source_row self selfie _row));
    q ← quantize self v;
    Ok (index_to_rgb q).
Proof.
  unfold cell_color, np.get2, getitem, source_row, quantize.
  destruct (grid_data !! _col) as [column |]; cbn [mbind result_bind option_bind from_option];
    [| reflexivity].
  destruct selfie; destruct (column !! _); reflexivity.
Qed.

Lemma quantize_Ok self v :
  _palette_size self <> 0%Z -> exists q, quantize self v = Ok q.
Proof.
  intros Hp. unfold quantize, Float.py_truediv, Float.of_int, Float.Qc_is_zero.
  rewrite bool_decide_eq_false_2; [eauto |].
  rewrite <- Z2Qc_inj_0. intros Heq. now apply Z2Qc_inj in Heq.
Qed.

Lemma source_row_involutive self selfie r :
  r < (_grid_axis self).2 ->
  source_row self selfie r < (_grid_axis self).2 /\
  source_row self selfie (source_row self selfie r) = r.
Proof. unfold source_row. destruct selfie; lia. Qed.

(** After the loops, every cell holds the colour of the grid value its
    loop indices select. *)
Lemma rendered_cells self grid_data selfie self' :
  update_image_frame index_to_rgb self grid_data selfie = Ok self' ->
  forall _row _col,
    _col < (_grid_axis self).1 -> _row < (_grid_axis self).2 ->
    exists v q,
      np.get2 grid_data _col (source_row self selfie _row) = Some v /\
      quantize self v = Ok q /\
      stored_fill self' (group_index self _col _row) = Some (index_to_rgb q).
Proof.
  intros Hrun _row _col Hc Hr.
  rewrite update_image_frame_eq in Hrun.
  pose proof (render_cells_Ok _ _ _ _ _ Hrun) as Hcells.
  rewrite frame_cells_indices in Hcells. specialize (Hcells (NoDup_seq _ _)).
  destruct (Hcells (_col, _row)) as (color & Hcolor & Hs).
  { now apply elem_of_frame_cells. }
  cbn [fst snd] in *. rewrite cell_color_read in Hcolor.
  destruct (np.get2 _ _ _) as [v |] eqn:Hv; [| discriminate].
  cbn [mbind result_bind from_option] in Hcolor.
  destruct (quantize self v) as [q |] eqn:Hq; [| discriminate].
  injection Hcolor as <-. exists v, q. auto.
Qed.

(** The frame rendered with selfie on is the frame rendered with selfie
    off, mirrored in the second loop index. *)
Lemma mirrored_cells self grid_data plain mirrored :
  update_image_frame index_to_rgb self grid_data false = Ok plain ->
  update_image_frame index_to_rgb self grid_data true = Ok mirrored ->
  forall _row _col,
    _col < (_grid_axis self).1 -> _row < (_grid_axis self).2 ->
    stored_fill mirrored (group_index self _col _row)
    = stored_fill plain
        (group_index self _col ((_grid_axis self).2 - 1 - _row)).
Proof.
  intros Hplain Hmirrored _row _col Hc Hr.
  destruct (rendered_cells _ _ _ _ Hmirrored _row _col Hc Hr)
    as (v & q & Hv & Hq & Hs).
  destruct (rendered_cells _ _ _ _ Hplain ((_grid_axis self).2 - 1 - _row) _col Hc
              ltac:(lia)) as (v' & q' & Hv' & Hq' & Hs').
  rewrite Hs, Hs'. unfold source_row in Hv, Hv'. congruence.
Qed.

(** C5, as the code has it.  After [update_image_frame], the cell the
    loop indices (_row, _col) address, [image_group[_col * axis_height +
    _row]], holds the colour of the grid value at index (_col, _row) when
    selfie is off and at index (_col, axis_height - 1 - _row) when it is
    on.  So selfie mirrors the second index: the cell at row [_row] of the
    mirrored frame shows what the plain frame shows at row
    [axis_height - 1 - _row] of the same column; the column read never
    changes. *)
Theorem update_image_frame_source self grid_data :
  (forall selfie self',
     update_image_frame index_to_rgb self grid_data selfie = Ok self' ->
     forall _row _col,
       _col < (_grid_axis self).1 -> _row < (_grid_axis self).2 ->
       exists v q,
         np.get2 grid_data _col
           (if selfie then (_grid_axis self).2 - 1 - _row else _row) = Some v /\
         quantize self v = Ok q /\
         stored_fill self' (_col * (_grid_axis self).2 + _row)
         = Some (index_to_rgb q)) /\
  (forall plain mirrored,
     update_image_frame index_to_rgb self grid_data false = Ok plain ->
     update_image_frame index_to_rgb self grid_data true = Ok mirrored ->
     forall _row _col,
       _col < (_grid_axis self).1 -> _row < (_grid_axis self).2 ->
       stored_fill mirrored (_col * (_grid_axis self).2 + _row)
       = stored_fill plain
           (_col * (_grid_axis self).2 + ((_grid_axis self).2 - 1 - _row))).
Proof.
  split.
  - intros selfie self' Hrun _row _col Hc Hr.
    exact (rendered_cells self grid_data selfie self' Hrun _row _col Hc Hr).
  - intros plain mirrored Hplain Hmirrored _row _col Hc Hr.
    exact (mirrored_cells self grid_data plain mirrored Hplain Hmirrored
             _row _col Hc Hr).
Qed.

(** ** Grids of another shape *)

Section Shape.

Variables (grid_data : ndarray float) (selfie : bool).

Let step (cr : nat * nat) : display -> result display :=
  update_image_cell index_to_rgb grid_data selfie cr.1 cr.2.

Lemma ready_step self cr :
  ready self -> cr.1 < (_grid_axis self).1 -> cr.2 < (_grid_axis self).2 ->
  match np.get2 grid_data cr.1 (source_row self selfie cr.2) with
  | Some _ =>
      exists self', step cr self = Ok self' /\ ready self' /\
                    _grid_axis self' = _grid_axis self
  | None => step cr self = Raise IndexError
  end.
Proof.
  intros [Hp Hfills] Hc Hr. unfold step.
  rewrite update_image_cell_eq, cell_color_read.
  destruct (np.get2 _ _ _) as [v |]; [| reflexivity].
  cbn [from_option mbind result_bind].
  destruct (quantize_Ok self v Hp) as [q ->]. cbn [mbind result_bind].
  assert (Hk : group_index self cr.1 cr.2 < (_grid_axis self).1 * (_grid_axis self).2)
    by (unfold group_index; nia).
  destruct (Hfills _ Hk) as [fill Hfill]. unfold getitem.
  destruct (image_group self !! _) as [e |] eqn:He;
    [| unfold stored_fill in Hfill; rewrite He in Hfill; discriminate].
  cbn [mbind result_bind]. rewrite (stored_fill_get _ _ _ He), Hfill.
  cbn [from_option mbind result_bind]. case_bool_decide.
  - unfold set_fill, getitem. rewrite He. cbn [mbind result_bind].
    eexists. split; [reflexivity |]. split; [| reflexivity]. split; [exact Hp |].
    cbn. intros k Hk'. unfold stored_fill. cbn.
    destruct (decide (k = group_index self cr.1 cr.2)) as [-> | Hne].
    + rewrite list_lookup_insert_eq by (eapply lookup_lt_Some, He).
      destruct e as [x y f | f]; cbn; eauto.
    + rewrite list_lookup_insert_ne by congruence. apply (Hfills k Hk').
  - eexists. split; [reflexivity |]. split; [| reflexivity]. now split.
Qed.

Lemma ready_loop cells self :
  ready self ->
  Forall (fun cr => cr.1 < (_grid_axis self).1 /\ cr.2 < (_grid_axis self).2) cells ->
  (Forall (fun cr => is_Some (np.get2 grid_data cr.1 (source_row self selfie cr.2)))
     cells ->
   exists self', for_each step cells self = Ok self') /\
  (Exists (fun cr => ~ is_Some (np.get2 grid_data cr.1 (source_row self selfie cr.2)))
     cells ->
   for_each step cells self = Raise IndexError).
Proof.
  revert self. induction cells as [| cr cells IH]; intros self Hready Hin.
  - split; [simpl; eauto | intros Hex; inversion Hex].
  - apply Forall_cons in Hin as [[Hc Hr] Hin].
    pose proof (ready_step self cr Hready Hc Hr) as Hstep. simpl.
    destruct (np.get2 grid_data cr.1 (source_row self selfie cr.2)) as [v |] eqn:Hv.
    + destruct Hstep as (s1 & -> & Hready1 & Ha). cbn [mbind result_bind].
      assert (Hsame : forall r, source_row s1 selfie r = source_row self selfie r)
        by (intros; unfold source_row; now rewrite Ha).
      destruct (IH s1 Hready1) as [IHok IHerr]; [now rewrite Ha |]. split.
      * intros Hall. apply Forall_cons in Hall as [_ Hall]. apply IHok.
        eapply Forall_impl; [exact Hall |]. intros x. now rewrite Hsame.
      * intros Hex. apply Exists_cons in Hex as [Hbad | Hex].
        -- rewrite Hv in Hbad. exfalso. apply Hbad. eauto.
        -- apply IHerr. eapply Exists_impl; [exact Hex |]. intros x.
           now rewrite Hsame.
    + rewrite Hstep. split; [| reflexivity].
      intros Hall. apply Forall_cons in Hall as [[x Hx] _]. congruence.
Qed.

End Shape.

(** C9, as the code has it.  [update_image_frame] checks no shape.  On a
    display whose cells have fills and whose palette size is not zero, it
    succeeds on every grid that has a value at each index of the
    configured axis, whatever the dimensions of the grid, and raises
    IndexError on every other grid. *)
Theorem update_image_frame_shape self grid_data selfie :
  ready self ->
  (covers grid_data self ->
   exists self', update_image_frame index_to_rgb self grid_data selfie = Ok self') /\
  (~ covers grid_data self ->
   update_image_frame index_to_rgb self grid_data selfie = Raise IndexError).
Proof.
  intros Hready. rewrite update_image_frame_eq.
  destruct (ready_loop grid_data selfie (frame_cells self) self Hready)
    as [Hok Herr].
  { apply Forall_forall. intros [c r] Hcr. now apply elem_of_frame_cells. }
  split.
  - intros Hcov. apply Hok. apply Forall_forall. intros [c r] Hcr.
    apply elem_of_frame_cells in Hcr as [Hc Hr]. cbn [fst snd].
    apply Hcov; [exact Hc |]. now apply source_row_involutive.
  - intros Hnot. apply Herr. apply not_Forall_Exists; [intros x; apply _ |].
    intros Hall. apply Hnot. intros c r Hc Hr.
    rewrite Forall_forall in Hall.
    destruct (source_row_involutive self selfie r Hr) as [Hr' Hinv].
    specialize (Hall (c, source_row self selfie r)). cbn [fst snd] in Hall.
    rewrite Hinv in Hall. apply Hall. now apply elem_of_frame_cells.
Qed.

End Render.
(** ** The renderer on sample frames *)

Section RenderSamples.

Lemma display_2x2_init :
  Display.init (240, 240) (0, 0) (2, 2) 100 = Ok display_2x2.
Proof. reflexivity. Qed.

Lemma display_2x2_ready : ready display_2x2.
Proof.
  split; [discriminate |]. cbn. intros k Hk.
  do 4 (destruct k as [| k]; [cbn; eauto |]). lia.
Qed.

Import Display.

Lemma update_image_frame_diff_only_witness :
  exists self',
    update_image_frame gray_ramp display_2x2 checker_2x2 true = Ok self' /\
    fill_writes self' = 4 /\
    update_image_frame gray_ramp self' checker_2x2 true = Ok self'.
Proof.
  eexists. split; [vm_compute; reflexivity |]. split; [reflexivity |].
  apply (proj2 (update_image_frame_diff_only gray_ramp display_2x2 checker_2x2 true)).
  vm_compute; reflexivity.
Defined.

Lemma update_image_frame_source_witness :
  exists self' v q,
    update_image_frame gray_ramp display_2x2 columns_2x2 true = Ok self' /\
    np.get2 columns_2x2 1 (2 - 1 - 0) = Some v /\
    quantize display_2x2 v = Ok q /\
    stored_fill self' (1 * 2 + 0) = Some (gray_ramp q).
Proof.
  destruct (proj1 (update_image_frame_source gray_ramp display_2x2 columns_2x2)
              true _ ltac:(vm_compute; reflexivity) 0 1 ltac:(cbn; lia) ltac:(cbn; lia))
    as (v & q & Hv & Hq & Hs).
  eexists _, v, q. split; [vm_compute; reflexivity |]. auto.
Defined.

(** With selfie on, the renderer shows column 0 of the frame in
    destination column 0 all the same, and here the same picture as with
    selfie off. *)
Lemma selfie_keeps_source_column :
  exists plain mirrored,
    update_image_frame gray_ramp display_2x2 columns_2x2 false = Ok plain /\
    update_image_frame gray_ramp display_2x2 columns_2x2 true = Ok mirrored /\
    columns_2x2 !! 0 <> columns_2x2 !! 1 /\
    mirrored = plain /\
    stored_fill mirrored (0 * 2 + 0) = Some (gray_ramp (Float.of_int 0)) /\
    stored_fill mirrored (1 * 2 + 0) = Some (gray_ramp (Float.of_int 1)) /\
    gray_ramp (Float.of_int 0) <> gray_ramp (Float.of_int 1).
Proof.
  eexists _, _. split; [vm_compute; reflexivity |].
  split; [vm_compute; reflexivity |].
  split; [intros H; apply (bool_decide_eq_true_2 _) in H; vm_compute in H; discriminate |].
  split; [reflexivity |]. split; [reflexivity |]. split; [reflexivity |].
  vm_compute. discriminate.
Qed.

Lemma update_image_frame_shape_witness :
  update_image_frame gray_ramp display_2x2 [[Float.of_int 0]] false
  = Raise IndexError.
Proof.
  apply (update_image_frame_shape gray_ramp display_2x2 _ false display_2x2_ready).
  intros Hcov. destruct (Hcov 1 0 ltac:(cbn; lia) ltac:(cbn; lia)) as [x Hx].
  discriminate Hx.
Defined.

(** A 3 by 3 grid is rendered on the 2 by 2 display without an error. *)
Lemma oversized_grid_accepted :
  np.shape blank_3x3 <> _grid_axis display_2x2 /\
  exists self', update_image_frame gray_ramp display_2x2 blank_3x3 false = Ok self'.
Proof.
  split; [vm_compute; discriminate |]. eexists. vm_compute. reflexivity.
Qed.

End RenderSamples.
(** ** The bitmap export and the selfie mirror *)

Section BitmapExport.
Import Display.

Lemma row_fill_stored self row _col color :
  stored_fill self (row * (_grid_axis self).2 + _col) = Some color ->
  row_fill self row _col = Ok color.
Proof.
  unfold row_fill, stored_fill, getitem.
  destruct (image_group self !! _) as [[x y f | [f |]] |]; cbn; congruence.
Qed.

(** Two displays of one configuration whose rows read the same colours,
    one from left to right and the other from right to left, export the
    same row. *)
Lemma fetch_mirrored self self' row :
  _grid_axis self' = _grid_axis self ->
  (forall _col, _col < (_grid_axis self).1 ->
     row_fill self' row ((_grid_axis self).1 - 1 - _col) = row_fill self row _col) ->
  fetch_grid_row_bgr_colors self' row true = fetch_grid_row_bgr_colors self row false.
Proof.
  intros Ha Hfill. unfold fetch_grid_row_bgr_colors. rewrite Ha.
  rewrite range_down_map, for_each_map. f_equal.
  apply for_each_ext. intros _col [buffer index] Hcol.
  apply list_elem_of_In, in_seq in Hcol.
  specialize (Hfill _col ltac:(lia)). unfold row_fill in Hfill.
  rewrite Ha in Hfill.
  destruct (getitem (image_group self') _) as [cell' |];
    destruct (getitem (image_group self) _) as [cell |];
    cbn [mbind result_bind] in *;
    [rewrite Hfill | rewrite Hfill | rewrite <- Hfill | injection Hfill as ->];
    reflexivity.
Qed.


Variable index_to_rgb : float -> Z.

Lemma update_image_frame_config self grid_data selfie self' :
  update_image_frame index_to_rgb self grid_data selfie = Ok self' ->
  _grid_axis self' = _grid_axis self /\ _palette_size self' = _palette_size self.
Proof. rewrite update_image_frame_eq. apply render_config. Qed.

(** C6, as the code has it.  On a square grid, the mirror of the export
    reverses the same axis as the selfie mirror of [update_image_frame],
    and so undoes it: each row exported with the mirror from the frame
    rendered with selfie on is the row exported without it from the same
    frame rendered with selfie off, and so is the whole bitmap. *)
Theorem export_undoes_selfie_mirror self grid_data plain mirrored :
  (_grid_axis self).1 = (_grid_axis self).2 ->
  update_image_frame index_to_rgb self grid_data false = Ok plain ->
  update_image_frame index_to_rgb self grid_data true = Ok mirrored ->
  (forall row, row < (_grid_axis self).2 ->
     fetch_grid_row_bgr_colors mirrored row true
     = fetch_grid_row_bgr_colors plain row false) /\
  Code.capture_grid_and_upload true true mirrored
  = Code.capture_grid_and_upload false true plain.
Proof.
  intros Hsquare Hplain Hmirrored.
  destruct (update_image_frame_config _ _ _ _ Hplain) as [Ha _].
  destruct (update_image_frame_config _ _ _ _ Hmirrored) as [Ha' _].
  assert (Hrows : forall row, row < (_grid_axis self).2 ->
            fetch_grid_row_bgr_colors mirrored row true
            = fetch_grid_row_bgr_colors plain row false).
  { intros row Hrow. apply fetch_mirrored; [congruence |].
    rewrite Ha. intros _col Hcol.
    destruct (rendered_cells index_to_rgb _ _ _ _ Hplain _col row
                ltac:(lia) ltac:(lia)) as (v & q & _ & _ & Hs).
    unfold group_index in Hs.
    rewrite (row_fill_stored plain row _col (index_to_rgb q))
      by (now rewrite Ha).
    apply row_fill_stored. rewrite Ha'.
    pose proof (mirrored_cells index_to_rgb _ _ _ _ Hplain Hmirrored
                  ((_grid_axis self).1 - 1 - _col) row ltac:(lia) ltac:(lia))
      as Hm.
    unfold group_index in Hm. rewrite Hm, <- Hs. f_equal. lia. }
  split; [exact Hrows |].
  unfold Code.capture_grid_and_upload. rewrite Ha, Ha'. cbn [andb].
  erewrite for_each_ext; [reflexivity |].
  intros row data Hrow. cbn beta.
  rewrite Hrows; [reflexivity |].
  unfold range_down in Hrow. apply list_elem_of_In, in_rev, in_seq in Hrow. lia.
Qed.

End BitmapExport.

Lemma export_undoes_selfie_mirror_witness :
  exists plain mirrored,
    Display.update_image_frame gray_ramp display_2x2 checker_2x2 false = Ok plain /\
    Display.update_image_frame gray_ramp display_2x2 checker_2x2 true = Ok mirrored /\
    Code.capture_grid_and_upload true true mirrored
    = Code.capture_grid_and_upload false true plain.
Proof.
  eexists _, _. split; [vm_compute; reflexivity |].
  split; [vm_compute; reflexivity |].
  apply (export_undoes_selfie_mirror gray_ramp display_2x2 checker_2x2);
    [reflexivity | vm_compute; reflexivity | vm_compute; reflexivity].
Defined.

(** The bitmap exported in selfie mode is not the read-out of the grid as
    it is displayed. *)
Lemma export_mirrors_displayed_grid :
  exists mirrored,
    Display.update_image_frame gray_ramp display_2x2 checker_2x2 true = Ok mirrored /\
    Code.capture_grid_and_upload true true mirrored
    <> Code.capture_grid_and_upload false true mirrored.
Proof.
  eexists. split; [vm_compute; reflexivity |].
  intros H. apply (bool_decide_eq_true_2 _) in H. vm_compute in H. discriminate.
Qed.
(** ** The histogram scale *)

Section Histogram.
Import Display.

Lemma display_3x1_init :
  Display.init (240, 240) (0, 0) (3, 1) 100 = Ok display_3x1.
Proof. reflexivity. Qed.

Lemma for_each_invariant {S X} (P : S -> Prop) (body : X -> S -> result S) xs s s' :
  (forall x t t', P t -> body x t = Ok t' -> P t') ->
  P s -> for_each body xs s = Ok s' -> P s'.
Proof.
  intros Hstep. revert s. induction xs as [| x xs IH]; intros s Hs; simpl.
  - now intros [= <-].
  - destruct (body x s) as [t |] eqn:Hbody; [| discriminate].
    cbn [mbind result_bind]. apply IH. eapply Hstep; eauto.
Qed.

(** The histogram has one bin per grid column. *)
Lemma histogram_of_length self grid_data histogram :
  histogram_of self grid_data = Ok histogram ->
  length histogram = (_grid_axis self).1.
Proof.
  unfold histogram_of.
  apply (for_each_invariant (fun h => length h = (_grid_axis self).1)).
  - intros _row h h' Hh.
    apply (for_each_invariant (fun h => length h = (_grid_axis self).1)); [| exact Hh].
    intros _col t t' Ht.
    destruct (from_option _ _ _) as [x |]; [| discriminate]. cbn [mbind result_bind].
    destruct (Float.to_int _) as [i |]; [| discriminate]. cbn [mbind result_bind].
    destruct (int_index _ _) as [k |]; [| discriminate]. cbn [mbind result_bind].
    destruct (getitem t k) as [count |]; [| discriminate]. cbn [mbind result_bind].
    intros [= <-]. now rewrite length_insert.
  - apply length_replicate.
Qed.

(** C8, as the code has it.  With at least two bins, the bar-height
    divisor of [update_histo_frame] is the maximum bin count divided by
    [grid_axis[0] - 1], replaced by 1 only when that quotient is not
    positive; it is always positive, so no bar height divides by zero. *)
Theorem histo_scale_positive self grid_data histogram :
  2 <= (_grid_axis self).1 ->
  histogram_of self grid_data = Ok histogram ->
  exists top scale,
    np.max_of histogram = Ok top /\
    histo_scale_of self histogram = Ok (Fin scale) /\
    (0 < scale)%Qc /\
    scale = (let ratio := (top / Qc_of_Z (Z.of_nat (_grid_axis self).1 - 1))%Qc in
             if bool_decide (0 < ratio)%Qc then ratio else 1%Qc) /\
    forall count,
      Float.py_truediv (Fin count) (Fin scale) = Ok (Fin (count / scale)%Qc).
Proof.
  intros Hbins Hh. apply histogram_of_length in Hh.
  destruct histogram as [| c0 h]; [simpl in Hh; lia |].
  unfold histo_scale_of. cbn [np.max_of mbind result_bind].
  set (top := foldl np.Qc_max c0 h).
  set (d := Qc_of_Z (Z.of_nat (_grid_axis self).1 - 1)).
  assert (Hd : d <> 0%Qc).
  { unfold d. rewrite <- Z2Qc_inj_0. intros Heq. apply Z2Qc_inj in Heq. lia. }
  unfold Float.py_truediv at 1, Float.of_int. fold d.
  unfold Float.Qc_is_zero. rewrite bool_decide_eq_false_2 by exact Hd.
  cbn [mbind result_bind Float.div]. unfold Float.Qc_is_zero.
  rewrite bool_decide_eq_false_2 by exact Hd.
  assert (Hdiv : forall scale count, (0 < scale)%Qc ->
            Float.py_truediv (Fin count) (Fin scale) = Ok (Fin (count / scale)%Qc)).
  { intros scale count Hpos.
    assert (Hnz : scale <> 0%Qc) by (intros ->; now apply Qclt_not_eq in Hpos).
    unfold Float.py_truediv, Float.div, Float.Qc_is_zero.
    now rewrite !bool_decide_eq_false_2 by exact Hnz. }
  exists top. cbv zeta. unfold Float.leb, Float.ltb, Float.Qc_ltb.
  rewrite Z2Qc_inj_0. case_bool_decide as Hpos; cbn [negb].
  - exists (top / d)%Qc. repeat split; auto.
  - exists 1%Qc. repeat split; auto. unfold Float.of_int. now rewrite Z2Qc_inj_1.
Qed.

Lemma histo_scale_positive_witness :
  exists histogram top scale,
    histogram_of display_3x1 ramp_3x1 = Ok histogram /\
    np.max_of histogram = Ok top /\
    histo_scale_of display_3x1 histogram = Ok (Fin scale) /\
    (0 < scale)%Qc.
Proof.
  eexists. 
  destruct (histo_scale_positive display_3x1 ramp_3x1 _ ltac:(cbn; lia)
              ltac:(vm_compute; reflexivity))
    as (top & scale & Htop & Hscale & Hpos & _).
  exists top, scale. split; [vm_compute; reflexivity |]. auto.
Defined.

(** On the 3 by 1 frame the histogram is flat, and the scale is 1/2. *)
Lemma histo_scale_below_one :
  exists histogram,
    histogram_of display_3x1 ramp_3x1 = Ok histogram /\
    histogram = [1%Qc; 1%Qc; 1%Qc] /\
    histo_scale_of display_3x1 histogram = Ok (Fin (1 / Qc_of_Z 2)%Qc) /\
    ~ (1 ≤ 1 / Qc_of_Z 2)%Qc.
Proof.
  exists [1%Qc; 1%Qc; 1%Qc]. split; [decide_by_computation |].
  split; [reflexivity |]. split; [decide_by_computation |].
  intros H. apply (bool_decide_eq_true_2 _) in H. vm_compute in H. discriminate.
Qed.

End Histogram.
(** ** The bitmap encoder *)

Section Bitmap.
Import Display.

Lemma le_bytes_spec (n : nat) (v : Z) : Code.le_bytes n v = spec_little_endian n v.
Proof.
  unfold spec_little_endian. revert v.
  induction n as [| n IH]; intros v; [reflexivity |].
  cbn [Code.le_bytes seq map]. rewrite Z.div_1_r. f_equal.
  rewrite IH, <- seq_shift, map_map. apply map_ext. intros k.
  rewrite Z.shiftr_div_pow2 by lia. f_equal.
  rewrite Z.div_div by lia. f_equal.
  rewrite Nat2Z.inj_succ, Z.pow_succ_r by lia. reflexivity.
Qed.

Lemma land_255_mod (x : Z) : Z.land x 0xFF = (x mod 256)%Z.
Proof. change 0xFF%Z with (Z.ones 8). now rewrite Z.land_ones by lia. Qed.

Lemma pixel_bytes_spec (rgb : Z) : pixel_bytes rgb = spec_pixel rgb.
Proof.
  unfold pixel_bytes, spec_pixel, rgb888_to_bgr888_tuple.
  rewrite !land_255_mod, !Z.shiftr_div_pow2 by lia.
  rewrite Z.pow_0_r, Z.div_1_r. reflexivity.
Qed.

Lemma bytes_per_row_spec (w : nat) : bytes_per_row w = spec_bytes_per_row w.
Proof. reflexivity. Qed.

Lemma store_pixel {A} (pre rest : list A) (b g r x1 x2 x3 : A) :
  <[length pre + 2 := r]>
    (<[length pre + 1 := g]> (<[length pre := b]> (pre ++ x1 :: x2 :: x3 :: rest)))
  = pre ++ b :: g :: r :: rest.
Proof.
  rewrite !insert_app_r_alt by lia.
  replace (length pre - length pre) with 0 by lia.
  replace (length pre + 1 - length pre) with 1 by lia.
  replace (length pre + 2 - length pre) with 2 by lia.
  reflexivity.
Qed.

Lemma fetch_body_Ok self row col pre m rgb :
  stored_fill self (row * (_grid_axis self).2 + col) = Some rgb ->
  fetch_body self row col (pre ++ replicate (3 + m) Byte.x00, length pre)
  = Ok ((pre ++ pixel_bytes rgb) ++ replicate m Byte.x00,
        length (pre ++ pixel_bytes rgb)).
Proof.
  intros Hrgb. unfold fetch_body, stored_fill, getitem in *.
  destruct (image_group self !! _) as [cell |]; [| discriminate].
  cbn [mbind result_bind].
  assert (get_fill cell = Ok rgb) as ->
    by (destruct cell as [x y f | [f |]]; simpl in *; congruence).
  cbn [mbind result_bind]. unfold pixel_bytes.
  destruct (rgb888_to_bgr888_tuple rgb) as [[_blu _grn] _red].
  unfold setitem. cbn [Nat.add replicate].
  rewrite bool_decide_eq_true_2 by (rewrite length_app; simpl; lia).
  cbn [mbind result_bind].
  rewrite bool_decide_eq_true_2
    by (rewrite length_insert, length_app; simpl; lia).
  cbn [mbind result_bind].
  rewrite bool_decide_eq_true_2
    by (rewrite !length_insert, length_app; simpl; lia).
  cbn [mbind result_bind]. rewrite store_pixel, <- app_assoc, length_app.
  reflexivity.
Qed.

Lemma fetch_loop self row cols pre m :
  (forall col, col ∈ cols ->
     is_Some (stored_fill self (row * (_grid_axis self).2 + col))) ->
  for_each (fetch_body self row) cols
    (pre ++ replicate (3 * length cols + m) Byte.x00, length pre)
  = Ok ((pre
         ++ flat_map (fun col =>
              pixel_bytes (fill_at self (row * (_grid_axis self).2 + col))) cols)
        ++ replicate m Byte.x00,
        length pre + 3 * length cols).
Proof.
  revert pre. induction cols as [| col cols IH]; intros pre Hfills.
  - simpl. rewrite app_nil_r, Nat.add_0_r. reflexivity.
  - cbn [for_each length flat_map].
    destruct (Hfills col ltac:(left)) as [rgb Hrgb].
    replace (3 * S (length cols) + m) with (3 + (3 * length cols + m)) by lia.
    rewrite (fetch_body_Ok _ _ _ _ _ _ Hrgb). cbn [mbind result_bind].
    rewrite IH by (intros c Hc; apply Hfills; now right).
    unfold fill_at at 2. rewrite Hrgb. cbn [default from_option id].
    rewrite <- !app_assoc, length_app.
    assert (Hlen : length (pixel_bytes rgb) = 3).
    { unfold pixel_bytes. now destruct (rgb888_to_bgr888_tuple rgb) as [[? ?] ?]. }
    rewrite Hlen. do 2 f_equal. lia.
Qed.

(** A row of the export, explicitly: the pixels of the cells read, then
    the padding. *)
Lemma fetch_grid_row_bytes self row selfie :
  (forall col, col < (_grid_axis self).1 ->
     is_Some (stored_fill self (row * (_grid_axis self).2 + col))) ->
  fetch_grid_row_bgr_colors self row selfie
  = Ok (flat_map (fun col =>
          spec_pixel (fill_at self (row * (_grid_axis self).2 + col)))
          (if selfie then range_down (_grid_axis self).1
           else range (_grid_axis self).1)
        ++ replicate (spec_bytes_per_row (_grid_axis self).1
                      - 3 * (_grid_axis self).1) Byte.x00).
Proof.
  intros Hfills. unfold fetch_grid_row_bgr_colors.
  change (for_each _ ?cols ?st) with (for_each (fetch_body self row) cols st).
  set (cols := if selfie then _ else _).
  assert (Hlen : length cols = (_grid_axis self).1).
  { unfold cols, range_down, range. destruct selfie;
      now rewrite ?length_rev, length_seq. }
  assert (Hin : forall col, col ∈ cols -> col < (_grid_axis self).1).
  { intros col Hcol. unfold cols, range_down, range in Hcol.
    destruct selfie; apply list_elem_of_In in Hcol;
      [apply in_rev in Hcol |]; apply in_seq in Hcol; lia. }
  rewrite bytes_per_row_spec. unfold spec_bytes_per_row.
  replace (3 * (_grid_axis self).1 + (4 - (3 * (_grid_axis self).1) mod 4) mod 4)
    with (3 * length cols + (4 - (3 * (_grid_axis self).1) mod 4) mod 4)
    by (now rewrite Hlen).
  pose proof (fetch_loop self row cols []
                ((4 - (3 * (_grid_axis self).1) mod 4) mod 4)
                ltac:(intros col Hcol; apply Hfills, Hin, Hcol)) as Hloop.
  cbn [app length] in Hloop. rewrite Hloop.
  cbn [mbind result_bind fst app]. do 2 f_equal.
  - apply flat_map_ext. intros col. apply pixel_bytes_spec.
  - f_equal. rewrite Hlen. lia.
Qed.

Lemma flat_map_map {A B C} (f : B -> list C) (h : A -> B) (l : list A) :
  flat_map f (map h l) = flat_map (fun x => f (h x)) l.
Proof. induction l as [| x l IH]; simpl; [reflexivity | now rewrite IH]. Qed.

Lemma collect_rows (f : nat -> result (list byte)) (g : nat -> list byte)
    (rows : list nat) (acc : list byte) :
  (forall r, r ∈ rows -> f r = Ok (g r)) ->
  for_each (fun r (data : list byte) => x ← f r; Ok (data ++ x)) rows acc
  = Ok (acc ++ concat (map g rows)).
Proof.
  revert acc. induction rows as [| r rows IH]; intros acc Hf; simpl.
  - now rewrite app_nil_r.
  - rewrite (Hf r) by left. cbn [mbind result_bind].
    rewrite IH by (intros r' Hr'; apply Hf; now right).
    now rewrite <- app_assoc.
Qed.

Lemma append_zeros (header : list byte) (n : nat) :
  fold_left (fun h _ => h ++ [Byte.x00]) (range n) header
  = header ++ replicate n Byte.x00.
Proof.
  unfold range. generalize 0 as from. revert header.
  induction n as [| n IH]; intros header from; simpl.
  - now rewrite app_nil_r.
  - rewrite IH, <- app_assoc. reflexivity.
Qed.

(** On a square grid whose cells have fills, the encoder writes the bitmap
    of the specification for the rows of the grid, each row mirrored when
    selfie and image display are both on. *)
Theorem capture_square_grid (SELFIE DISPLAY_IMAGE : bool) self :
  (_grid_axis self).1 = (_grid_axis self).2 ->
  (forall k, k < (_grid_axis self).1 * (_grid_axis self).2 ->
             is_Some (stored_fill self k)) ->
  Code.capture_grid_and_upload SELFIE DISPLAY_IMAGE self
  = Ok (spec_bitmap (_grid_axis self).1 (_grid_axis self).2
          (map (if SELFIE && DISPLAY_IMAGE then @rev Z else id) (grid_rows self))).
Proof.
  intros Hsquare Hfills. unfold Code.capture_grid_and_upload.
  set (selfie := SELFIE && DISPLAY_IMAGE).
  set (cols := if selfie then range_down (_grid_axis self).1
               else range (_grid_axis self).1).
  rewrite (collect_rows _
    (fun row =>
       spec_row (_grid_axis self).1
         ((if selfie then @rev Z else id)
            (map (fun col => fill_at self (row * (_grid_axis self).1 + col))
                 (range (_grid_axis self).1))))).
  2:{ intros row Hrow. unfold range_down in Hrow.
      apply list_elem_of_In, in_rev, in_seq in Hrow.
      rewrite fetch_grid_row_bytes by (intros col Hcol; apply Hfills; nia).
      f_equal. unfold spec_row. f_equal. rewrite <- Hsquare.
      destruct selfie.
      - unfold range_down, range. now rewrite <- map_rev, flat_map_map.
      - unfold id. now rewrite flat_map_map. }
  cbn [mbind result_bind]. f_equal.
  unfold spec_bitmap, Code.pack_I, Code.pack_H, grid_rows, range_down, range.
  rewrite append_zeros, !le_bytes_spec, bytes_per_row_spec.
  rewrite map_map, <- map_rev, map_map, <- !app_assoc. reflexivity.
Qed.

Lemma lookup_flat_map_rows {A B} (f : A -> list B) (n : nat) (l : list A)
    (i j : nat) (x : A) :
  (forall y, length (f y) = n) -> l !! i = Some x -> j < n ->
  flat_map f l !! (i * n + j) = f x !! j.
Proof.
  intros Hlen. revert i. induction l as [| y l IH]; intros i Hi Hj; [discriminate |].
  simpl. destruct i as [| i].
  - injection Hi as ->. simpl. apply lookup_app_l. now rewrite Hlen.
  - simpl in Hi. rewrite lookup_app_r by (rewrite Hlen; lia).
    rewrite Hlen. replace (S i * n + j - n) with (i * n + j) by lia.
    now apply IH.
Qed.

(** [Display.__init__] puts the cell of display row [row] and display
    column [col] at [image_group[row * grid_axis[0] + col]]. *)
Lemma init_layout grid_size grid_offset grid_axis palette_size self row col :
  init grid_size grid_offset grid_axis palette_size = Ok self ->
  row < grid_axis.2 -> col < grid_axis.1 ->
  let cell_size := Nat.min (grid_size.1 / grid_axis.1) (grid_size.2 / grid_axis.2) in
  _grid_axis self = grid_axis /\
  image_group self !! (row * grid_axis.1 + col)
  = Some (Rect (col * cell_size + grid_offset.1)
               (row * cell_size + grid_offset.2) PURPLE).
Proof.
  unfold init. case_bool_decide; [discriminate |].
  case_bool_decide; [discriminate |]. intros [= <-] Hrow Hcol.
  cbn. split; [reflexivity |].
  rewrite lookup_app_l.
  - erewrite lookup_flat_map_rows.
    + rewrite list_lookup_fmap. unfold range. rewrite lookup_seq_lt by exact Hcol.
      reflexivity.
    + intros y. unfold range. now rewrite length_map, length_seq.
    + unfold range. now apply lookup_seq_lt.
    + exact Hcol.
  - rewrite (flat_map_constant_length (c := grid_axis.1)).
    + unfold range. rewrite length_seq. nia.
    + intros y _. unfold range. now rewrite length_map, length_seq.
Qed.

(** The sample displays are displays the code builds: the 1 by 2 display
    as constructed, the 3 by 2 display after the colours 1 to 6 were
    assigned to its cells in order. *)
Lemma display_1x2_init :
  Display.init (240, 240) (0, 0) (1, 2) 100 = Ok display_1x2.
Proof. reflexivity. Qed.

Lemma display_3x2_painted :
  Display.init (240, 240) (0, 0) (3, 2) 100
  ≫= for_each (fun k self => set_fill self k (Z.of_nat (S k))) (range 6)
  = Ok display_3x2.
Proof. reflexivity. Qed.

(** C3, where the code departs from it.  On the 3 by 2 grid whose rows
    hold the colours 1, 2, 3 and 4, 5, 6, the encoder writes a header
    that is the one of the specification, then the cells 3, 4, 5 as the
    bottom row instead of the cells 4, 5, 6: it reads row [row] from
    [image_group[row * grid_axis[1]]], where [Display.__init__] put it at
    [image_group[row * grid_axis[0]]].  On the 1 by 2 grid it reads a text
    label as the second row and raises AttributeError. *)
Theorem capture_non_square_grid :
  (exists bytes,
     Code.capture_grid_and_upload false true display_3x2 = Ok bytes /\
     grid_rows display_3x2 = [[1; 2; 3]; [4; 5; 6]]%Z /\
     take 54 bytes = take 54 (spec_bitmap 3 2 (grid_rows display_3x2)) /\
     drop 54 bytes = spec_row 3 [3; 4; 5]%Z ++ spec_row 3 [1; 2; 3]%Z /\
     bytes <> spec_bitmap 3 2 (grid_rows display_3x2)) /\
  Code.capture_grid_and_upload false true display_1x2 = Raise AttributeError.
Proof.
  split; [| reflexivity].
  eexists. split; [vm_compute; reflexivity |].
  split; [reflexivity |]. split; [reflexivity |]. split; [reflexivity |].
  intros H. apply (bool_decide_eq_true_2 _) in H. vm_compute in H. discriminate.
Qed.

Lemma capture_square_grid_witness :
  Code.capture_grid_and_upload true true display_2x2
  = Ok (spec_bitmap 2 2 (map (@rev Z) (grid_rows display_2x2))).
Proof.
  apply (capture_square_grid true true display_2x2); [reflexivity |].
  apply display_2x2_ready.
Defined.

End Bitmap.
(** ** Rational arithmetic and rounding *)

Lemma bind_Ok {A B} (x : A) (f : A -> result B) : (Ok x ≫= f) = f x.
Proof. reflexivity. Qed.

Section Rationals.

Lemma Qc_eq_Q (x y : Qc) : x = y <-> (x == y)%Q.
Proof. split; [now intros -> | apply Qc_is_canon]. Qed.

Lemma Qc_plus_Q (x y : Qc) : ((x + y)%Qc == x + y)%Q.
Proof. unfold Qcplus. simpl. apply Qred_correct. Qed.

Lemma Qc_mult_Q (x y : Qc) : ((x * y)%Qc == x * y)%Q.
Proof. unfold Qcmult. simpl. apply Qred_correct. Qed.

Lemma Qc_opp_Q (x : Qc) : ((- x)%Qc == - x)%Q.
Proof. unfold Qcopp. simpl. apply Qred_correct. Qed.

Lemma Qc_minus_Q (x y : Qc) : ((x - y)%Qc == x - y)%Q.
Proof. unfold Qcminus. rewrite Qc_plus_Q, Qc_opp_Q. reflexivity. Qed.

Lemma Qc_inv_Q (x : Qc) : ((/ x)%Qc == / x)%Q.
Proof. unfold Qcinv. simpl. apply Qred_correct. Qed.

Lemma Qc_div_Q (x y : Qc) : ((x / y)%Qc == x / y)%Q.
Proof. unfold Qcdiv. rewrite Qc_mult_Q, Qc_inv_Q. reflexivity. Qed.

Lemma Qc_of_Z_Q (z : Z) : (Qc_of_Z z == inject_Z z)%Q.
Proof. reflexivity. Qed.

Lemma Qc_div_pos_Q (x : Qc) (p : positive) :
  ((x / Qc_of_Z (Z.pos p))%Qc == x * (1 # p))%Q.
Proof. rewrite Qc_div_Q. unfold Qdiv. reflexivity. Qed.

End Rationals.

(** Statements of linear arithmetic on [Qc], carried to [Q]. *)
Ltac Qc_to_Q :=
  unfold Qcle, Qclt in *;
  repeat match goal with
  | H : @eq Qc _ _ |- _ => apply Qc_eq_Q in H
  | H : ~ @eq Qc _ _ |- _ => rewrite Qc_eq_Q in H
  | |- @eq Qc _ _ => apply Qc_eq_Q
  | |- ~ @eq Qc _ _ => rewrite Qc_eq_Q
  end;
  repeat (rewrite ?Qc_plus_Q, ?Qc_minus_Q, ?Qc_mult_Q, ?Qc_opp_Q,
            ?Qc_div_pos_Q, ?Qc_div_Q, ?Qc_inv_Q, ?Qc_of_Z_Q in * );
  change (inject_Z 0) with 0%Q in *;
  change (this (Q2Qc 0)) with 0%Q in *;
  change (this (Q2Qc 1)) with 1%Q in *;
  repeat match goal with
  | |- context [inject_Z (Z.pos ?p)] =>
      change (inject_Z (Z.pos p)) with (Z.pos p # 1)%Q in *
  | _ : context [inject_Z (Z.pos ?p)] |- _ =>
      change (inject_Z (Z.pos p)) with (Z.pos p # 1)%Q in *
  | |- context [inject_Z (Z.neg ?p)] =>
      change (inject_Z (Z.neg p)) with (Z.neg p # 1)%Q in *
  | _ : context [inject_Z (Z.neg ?p)] |- _ =>
      change (inject_Z (Z.neg p)) with (Z.neg p # 1)%Q in *
  end.

Ltac Qc_lra := Qc_to_Q; lra.

Section Rounding.

Import Float.

Lemma Fin_inj (x y : Qc) : Fin x = Fin y -> x = y.
Proof.
  intros E.
  exact (f_equal (fun f => match f with Fin q => q | _ => x end) E).
Qed.

Lemma Qc_ltb_spec (x y : Qc) : Qc_ltb x y = true <-> (x < y)%Qc.
Proof. unfold Qc_ltb. apply bool_decide_eq_true. Qed.

(** The nearest integer is within one half. *)
Lemma round_half_even_bounds (x : Qc) :
  (Qc_of_Z (round_half_even x) - 1 / Qc_of_Z 2 ≤ x)%Qc /\
  (x ≤ Qc_of_Z (round_half_even x) + 1 / Qc_of_Z 2)%Qc.
Proof.
  pose proof (Qfloor_le x) as Hlo. pose proof (Qlt_floor x) as Hhi.
  rewrite inject_Z_plus in Hhi. change (inject_Z 1) with 1%Q in Hhi.
  unfold round_half_even. set (fl := Qfloor x) in *.
  unfold Qc_ltb. repeat case_bool_decide.
  - Qc_lra.
  - Qc_to_Q. rewrite inject_Z_plus. change (inject_Z 1) with 1%Q. lra.
  - destruct (Z.even fl).
    + assert (Hle : (x - Qc_of_Z fl ≤ 1 / Qc_of_Z 2)%Qc) by now apply Qcnot_lt_le.
      Qc_lra.
    + assert (Hge : (1 / Qc_of_Z 2 ≤ x - Qc_of_Z fl)%Qc) by now apply Qcnot_lt_le.
      Qc_to_Q. rewrite inject_Z_plus. change (inject_Z 1) with 1%Q. lra.
Qed.

Lemma inject_Z_lt_1 (a b : Z) : (inject_Z a < inject_Z b + 1)%Q -> (a <= b)%Z.
Proof.
  intros H. change 1%Q with (inject_Z 1) in H. rewrite <- inject_Z_plus in H.
  rewrite <- Zlt_Qlt in H. lia.
Qed.

(** An integer nearer than one half is the result. *)
Lemma round_half_even_near (x : Qc) (n : Z) :
  (Qc_of_Z n - 1 / Qc_of_Z 2 < x)%Qc -> (x < Qc_of_Z n + 1 / Qc_of_Z 2)%Qc ->
  round_half_even x = n.
Proof.
  intros Hlo Hhi. destruct (round_half_even_bounds x) as [Rlo Rhi].
  set (r := round_half_even x) in *.
  assert (r <= n)%Z by (apply inject_Z_lt_1; Qc_lra).
  assert (n <= r)%Z by (apply inject_Z_lt_1; Qc_lra).
  lia.
Qed.

Lemma round_half_even_int (n : Z) : round_half_even (Qc_of_Z n) = n.
Proof. apply round_half_even_near; Qc_lra. Qed.

Lemma round_half_even_mono (x y : Qc) :
  (x ≤ y)%Qc -> (round_half_even x <= round_half_even y)%Z.
Proof.
  intros Hxy. destruct (Qcle_lt_or_eq _ _ Hxy) as [Hlt | ->]; [| lia].
  destruct (round_half_even_bounds x) as [Xlo Xhi].
  destruct (round_half_even_bounds y) as [Ylo Yhi].
  apply inject_Z_lt_1. Qc_lra.
Qed.

End Rounding.

Lemma Qc_div_mul_nonneg (k n M : Qc) :
  (0 ≤ k)%Qc -> (0 < n)%Qc -> (0 ≤ M)%Qc -> (0 ≤ k / n * M)%Qc.
Proof.
  intros Hk Hn HM. apply Qcmult_nonneg_nonneg; [| exact HM].
  unfold Qcdiv. apply Qcmult_nonneg_nonneg; [exact Hk |].
  apply Qclt_le_weak, Qcinv_pos, Hn.
Qed.

Lemma Qc_div_mul_mono (k k' n M : Qc) :
  (k ≤ k')%Qc -> (0 < n)%Qc -> (0 ≤ M)%Qc -> (k / n * M ≤ k' / n * M)%Qc.
Proof.
  intros Hk Hn HM. apply Qcmult_le_compat_r; [| exact HM].
  unfold Qcdiv. apply Qcmult_le_compat_r; [exact Hk |].
  apply Qclt_le_weak, Qcinv_pos, Hn.
Qed.

Lemma Qc_of_Z_le (a b : Z) : (a <= b)%Z -> (Qc_of_Z a ≤ Qc_of_Z b)%Qc.
Proof. intros H. unfold Qcle. rewrite !Qc_of_Z_Q, <- Zle_Qle. exact H. Qed.

Lemma Qc_of_Z_pos (a : Z) : (0 < a)%Z -> (0 < Qc_of_Z a)%Qc.
Proof.
  intros H. unfold Qclt. rewrite Qc_of_Z_Q.
  change (this (Q2Qc 0)) with (inject_Z 0). rewrite <- Zlt_Qlt. exact H.
Qed.

Section Sums.
Import np.

Lemma sum_bounds (cells : list Qc) (lo hi : Qc) :
  Forall (fun x => (lo ≤ x)%Qc /\ (x ≤ hi)%Qc) cells ->
  (Qc_of_Z (Z.of_nat (length cells)) * lo ≤ sum cells)%Qc /\
  (sum cells ≤ Qc_of_Z (Z.of_nat (length cells)) * hi)%Qc.
Proof.
  induction 1 as [| x cells [Hlo Hhi] _ [IHlo IHhi]].
  - cbn [length sum foldr]. change (Z.of_nat 0) with 0%Z. split; Qc_lra.
  - cbn [length sum foldr]. fold (sum cells). rewrite Nat2Z.inj_succ.
    unfold Z.succ. rewrite Z2Qc_inj_add, Z2Qc_inj_1.
    rewrite !Qcmult_plus_distr_l, !Qcmult_1_l.
    split.
    + rewrite (Qcplus_comm x). now apply Qcplus_le_compat.
    + rewrite (Qcplus_comm x). now apply Qcplus_le_compat.
Qed.

(** The mean lies between the minimum and the maximum. *)
Lemma mean_between (cells : list Qc) (mn mx : Qc) :
  is_minimum mn cells -> is_maximum mx cells -> cells <> [] ->
  (mn ≤ sum cells / Qc_of_Z (Z.of_nat (length cells)))%Qc /\
  (sum cells / Qc_of_Z (Z.of_nat (length cells)) ≤ mx)%Qc.
Proof.
  intros [_ Hmn] [_ Hmx] Hne.
  destruct (sum_bounds cells mn mx) as [Hlo Hhi].
  { apply Forall_forall. intros x Hx. split; [now apply Hmn | now apply Hmx]. }
  set (n := Qc_of_Z (Z.of_nat (length cells))) in *.
  assert (Hn : (0 < n)%Qc).
  { apply Qc_of_Z_pos. destruct cells; [congruence | simpl; lia]. }
  assert (Hn0 : n <> 0%Qc)
    by (intros E; rewrite E in Hn; exact (Qclt_not_le _ _ Hn (Qcle_refl _))).
  pose proof (Qcinv_pos _ Hn) as Hinv.
  split.
  - apply (Qcmult_lt_0_le_reg_r _ _ n Hn).
    rewrite (Qcmult_comm (sum cells / n)), Qcmult_div_r by exact Hn0.
    now rewrite Qcmult_comm.
  - apply (Qcmult_lt_0_le_reg_r _ _ n Hn).
    rewrite (Qcmult_comm (sum cells / n)), Qcmult_div_r by exact Hn0.
    now rewrite (Qcmult_comm mx).
Qed.

End Sums.

(** ** Temperature units (bundle/code.py) *)

Section Units.

Import Float Code.

Lemma Qc_of_Z_nonzero (p : positive) : Qc_is_zero (Qc_of_Z (Z.pos p)) = false.
Proof.
  unfold Qc_is_zero. apply bool_decide_eq_false_2. intros E.
  apply Qc_eq_Q in E. rewrite Qc_of_Z_Q in E. discriminate E.
Qed.

Lemma py_truediv_pos (x : Qc) (p : positive) :
  py_truediv (Fin x) (of_int (Z.pos p)) = Ok (Fin (x / Qc_of_Z (Z.pos p))%Qc).
Proof.
  unfold py_truediv, div, of_int. now rewrite Qc_of_Z_nonzero.
Qed.

Lemma py_truediv_int_pos (z : Z) (p : positive) :
  py_truediv (of_int z) (of_int (Z.pos p))
  = Ok (Fin (Qc_of_Z z / Qc_of_Z (Z.pos p))%Qc).
Proof. apply py_truediv_pos. Qed.

Lemma celsius_to_fahrenheit_Fin (c : Qc) :
  celsius_to_fahrenheit (Fin c)
  = Ok (round_half_even (Qc_of_Z 9 / Qc_of_Z 5 * c + Qc_of_Z 32)%Qc).
Proof.
  unfold celsius_to_fahrenheit.
  change (of_int 9) with (Fin (Qc_of_Z 9)). rewrite py_truediv_pos.
  reflexivity.
Qed.

Lemma fahrenheit_to_celsius_Fin (f : Qc) :
  fahrenheit_to_celsius (Fin f)
  = Ok (round_half_even ((f + - Qc_of_Z 32) * (Qc_of_Z 5 / Qc_of_Z 9))%Qc).
Proof.
  unfold fahrenheit_to_celsius.
  change (of_int 5) with (Fin (Qc_of_Z 5)). rewrite py_truediv_pos.
  reflexivity.
Qed.

(** A quotient by five or by nine is never nearer than a tenth (an
    eighteenth) to the middle between two integers. *)
Lemma rounds_firmly_fifths (m : Z) :
  rounds_firmly (Qc_of_Z m / Qc_of_Z 5) (round_half_even (Qc_of_Z m / Qc_of_Z 5)).
Proof.
  intros v Hlo Hhi. cbn [round_int]. f_equal.
  destruct (round_half_even_bounds (Qc_of_Z m / Qc_of_Z 5)) as [Rlo Rhi].
  generalize dependent (round_half_even (Qc_of_Z m / Qc_of_Z 5)).
  intros r Rlo Rhi.
  assert (Hz1 : (5 * r <= m + 2)%Z).
  { apply inject_Z_lt_1. rewrite inject_Z_plus, inject_Z_mult.
    change (inject_Z 5) with 5%Q. change (inject_Z 2) with 2%Q. Qc_lra. }
  assert (Hz2 : (m <= 5 * r + 2)%Z).
  { apply inject_Z_lt_1. rewrite inject_Z_plus, inject_Z_mult.
    change (inject_Z 5) with 5%Q. change (inject_Z 2) with 2%Q. Qc_lra. }
  rewrite Zle_Qle in Hz1, Hz2.
  rewrite inject_Z_plus, inject_Z_mult in Hz1.
  rewrite inject_Z_plus, inject_Z_mult in Hz2.
  change (inject_Z 5) with 5%Q in *. change (inject_Z 2) with 2%Q in *.
  apply round_half_even_near; Qc_lra.
Qed.

Lemma rounds_firmly_ninths (m : Z) :
  rounds_firmly (Qc_of_Z m / Qc_of_Z 9) (round_half_even (Qc_of_Z m / Qc_of_Z 9)).
Proof.
  intros v Hlo Hhi. cbn [round_int]. f_equal.
  destruct (round_half_even_bounds (Qc_of_Z m / Qc_of_Z 9)) as [Rlo Rhi].
  generalize dependent (round_half_even (Qc_of_Z m / Qc_of_Z 9)).
  intros r Rlo Rhi.
  assert (Hz1 : (9 * r <= m + 4)%Z).
  { apply inject_Z_lt_1. rewrite inject_Z_plus, inject_Z_mult.
    change (inject_Z 9) with 9%Q. change (inject_Z 4) with 4%Q. Qc_lra. }
  assert (Hz2 : (m <= 9 * r + 4)%Z).
  { apply inject_Z_lt_1. rewrite inject_Z_plus, inject_Z_mult.
    change (inject_Z 9) with 9%Q. change (inject_Z 4) with 4%Q. Qc_lra. }
  rewrite Zle_Qle in Hz1, Hz2.
  rewrite inject_Z_plus, inject_Z_mult in Hz1.
  rewrite inject_Z_plus, inject_Z_mult in Hz2.
  change (inject_Z 9) with 9%Q in *. change (inject_Z 4) with 4%Q in *.
  apply round_half_even_near; Qc_lra.
Qed.

Lemma celsius_exact (c : Z) :
  (Qc_of_Z 9 / Qc_of_Z 5 * Qc_of_Z c + Qc_of_Z 32)%Qc
  = (Qc_of_Z (9 * c + 160) / Qc_of_Z 5)%Qc.
Proof.
  rewrite Z2Qc_inj_add, Z2Qc_inj_mul.
  apply Qc_eq_Q. rewrite Qc_plus_Q, Qc_mult_Q, !Qc_div_pos_Q, Qc_plus_Q, Qc_mult_Q.
  rewrite !Qc_of_Z_Q. change (inject_Z 9) with 9%Q. change (inject_Z 32) with 32%Q.
  change (inject_Z 160) with 160%Q. change (1 # 5)%Q with (/ 5)%Q. field.
Qed.

Lemma fahrenheit_exact (f : Z) :
  ((Qc_of_Z f + - Qc_of_Z 32) * (Qc_of_Z 5 / Qc_of_Z 9))%Qc
  = (Qc_of_Z (5 * (f - 32)) / Qc_of_Z 9)%Qc.
Proof.
  rewrite Z2Qc_inj_mul, Z2Qc_inj_sub.
  apply Qc_eq_Q.
  rewrite Qc_mult_Q, Qc_plus_Q, Qc_opp_Q, !Qc_div_pos_Q, Qc_mult_Q, Qc_minus_Q.
  rewrite !Qc_of_Z_Q. change (inject_Z 5) with 5%Q. change (inject_Z 32) with 32%Q.
  change (1 # 9)%Q with (/ 9)%Q. field.
Qed.

(** The conversions of whole degrees, with their margins. *)
Lemma celsius_to_fahrenheit_firm (c : Z) :
  exists f,
    celsius_to_fahrenheit (of_int c) = Ok f /\
    rounds_firmly (Qc_of_Z 9 / Qc_of_Z 5 * Qc_of_Z c + Qc_of_Z 32) f /\
    (Qc_of_Z f - 1 / Qc_of_Z 2 ≤ Qc_of_Z 9 / Qc_of_Z 5 * Qc_of_Z c + Qc_of_Z 32)%Qc /\
    (Qc_of_Z 9 / Qc_of_Z 5 * Qc_of_Z c + Qc_of_Z 32 ≤ Qc_of_Z f + 1 / Qc_of_Z 2)%Qc.
Proof.
  eexists. split; [apply celsius_to_fahrenheit_Fin |].
  split; [| apply round_half_even_bounds].
  rewrite celsius_exact. apply rounds_firmly_fifths.
Qed.

Lemma fahrenheit_to_celsius_firm (f : Z) :
  exists c,
    fahrenheit_to_celsius (of_int f) = Ok c /\
    rounds_firmly ((Qc_of_Z f - Qc_of_Z 32) * (Qc_of_Z 5 / Qc_of_Z 9)) c /\
    (Qc_of_Z c - 1 / Qc_of_Z 2 ≤ (Qc_of_Z f - Qc_of_Z 32) * (Qc_of_Z 5 / Qc_of_Z 9))%Qc /\
    ((Qc_of_Z f - Qc_of_Z 32) * (Qc_of_Z 5 / Qc_of_Z 9) ≤ Qc_of_Z c + 1 / Qc_of_Z 2)%Qc.
Proof.
  eexists. split; [apply fahrenheit_to_celsius_Fin |].
  change (Qc_of_Z f - Qc_of_Z 32)%Qc with (Qc_of_Z f + - Qc_of_Z 32)%Qc.
  split; [| apply round_half_even_bounds].
  rewrite fahrenheit_exact. apply rounds_firmly_ninths.
Qed.

(** X3.  For temperatures of -1000 to 1000 degrees: whole degrees Celsius
    survive the trip to Fahrenheit and back, and whole degrees Fahrenheit
    come back from Celsius at most one degree off (60 F comes back as
    61 F).  Each of the roundings is firm: every value within a twentieth
    of a degree of the exact [9/5 c + 32] or [(f - 32) * 5/9] rounds to the
    same whole degree, so that the error of the float arithmetic, far
    smaller in this range, does not change a result. *)
Theorem temperature_round_trip (c f : Z) :
  (-1000 <= c <= 1000)%Z -> (-1000 <= f <= 1000)%Z ->
  (exists f',
     celsius_to_fahrenheit (of_int c) = Ok f' /\
     fahrenheit_to_celsius (of_int f') = Ok c /\
     rounds_firmly (Qc_of_Z 9 / Qc_of_Z 5 * Qc_of_Z c + Qc_of_Z 32) f' /\
     rounds_firmly ((Qc_of_Z f' - Qc_of_Z 32) * (Qc_of_Z 5 / Qc_of_Z 9)) c) /\
  (exists c' f',
     fahrenheit_to_celsius (of_int f) = Ok c' /\
     celsius_to_fahrenheit (of_int c') = Ok f' /\
     (f - 1 <= f' <= f + 1)%Z /\
     rounds_firmly ((Qc_of_Z f - Qc_of_Z 32) * (Qc_of_Z 5 / Qc_of_Z 9)) c' /\
     rounds_firmly (Qc_of_Z 9 / Qc_of_Z 5 * Qc_of_Z c' + Qc_of_Z 32) f') /\
  (fahrenheit_to_celsius (of_int 60) ≫= (fun c => celsius_to_fahrenheit (of_int c))
   = Ok 61%Z).
Proof.
  intros _ _. split; [| split].
  - destruct (celsius_to_fahrenheit_firm c) as (f' & Hf & Hfirm & Hlo & Hhi).
    destruct (fahrenheit_to_celsius_firm f') as (c' & Hc & Hfirm' & Hlo' & Hhi').
    assert (c' = c).
    { assert (c' <= c)%Z by (apply inject_Z_lt_1; Qc_lra).
      assert (c <= c')%Z by (apply inject_Z_lt_1; Qc_lra). lia. }
    subst c'. exists f'. auto.
  - destruct (fahrenheit_to_celsius_firm f) as (c' & Hc & Hfirm & Hlo & Hhi).
    destruct (celsius_to_fahrenheit_firm c') as (f' & Hf & Hfirm' & Hlo' & Hhi').
    exists c', f'. split; [exact Hc |]. split; [exact Hf |].
    split; [| split; assumption].
    assert (f' <= f + 1)%Z.
    { apply inject_Z_lt_1. rewrite inject_Z_plus. change (inject_Z 1) with 1%Q.
      Qc_lra. }
    assert (f - 1 <= f')%Z.
    { assert (f <= f' + 1)%Z; [| lia].
      apply inject_Z_lt_1. rewrite inject_Z_plus. change (inject_Z 1) with 1%Q.
      Qc_lra. }
    lia.
  - vm_compute. reflexivity.
Qed.

(** X4.  For temperatures of -1000 to 1000 degrees Celsius, the
    conversion to Fahrenheit never decreases when the temperature
    increases, gives a whole degree less than one degree away from
    [9/5 c + 32], between -1768 and 1832; and it has no value for a float
    that is not a number: ValueError for NaN, OverflowError for an
    infinity. *)
Theorem celsius_to_fahrenheit_monotone (c c' : Qc) :
  (Qc_of_Z (-1000) ≤ c)%Qc -> (c ≤ c')%Qc -> (c' ≤ Qc_of_Z 1000)%Qc ->
  exists f f',
    celsius_to_fahrenheit (Fin c) = Ok f /\
    celsius_to_fahrenheit (Fin c') = Ok f' /\
    (-1768 <= f)%Z /\ (f <= f')%Z /\ (f' <= 1832)%Z /\
    (Qc_of_Z f - 1 < Qc_of_Z 9 / Qc_of_Z 5 * c + Qc_of_Z 32)%Qc /\
    (Qc_of_Z 9 / Qc_of_Z 5 * c + Qc_of_Z 32 < Qc_of_Z f + 1)%Qc /\
    celsius_to_fahrenheit NaN = Raise ValueError /\
    forall negative, celsius_to_fahrenheit (Inf negative) = Raise OverflowError.
Proof.
  intros Hlo Hc Hhi. eexists _, _.
  split; [apply celsius_to_fahrenheit_Fin |].
  split; [apply celsius_to_fahrenheit_Fin |].
  split.
  { rewrite <- (round_half_even_int (-1768)). apply round_half_even_mono.
    Qc_lra. }
  split; [apply round_half_even_mono; Qc_lra |].
  split.
  { rewrite <- (round_half_even_int 1832). apply round_half_even_mono.
    Qc_lra. }
  destruct (round_half_even_bounds (Qc_of_Z 9 / Qc_of_Z 5 * c + Qc_of_Z 32))
    as [Rlo Rhi].
  split; [clear - Rlo; Qc_lra |]. split; [clear - Rhi; Qc_lra |].
  split; [reflexivity |]. intros []; reflexivity.
Qed.

Lemma temperature_round_trip_witness :
  exists f',
    celsius_to_fahrenheit (of_int 25) = Ok f' /\
    fahrenheit_to_celsius (of_int f') = Ok 25%Z /\
    round_int (Fin (Qc_of_Z 7703 / Qc_of_Z 100)%Qc) = Ok f'.
Proof.
  destruct (temperature_round_trip 25 60) as [(f' & Hf & Hc & Hfirm & _) _];
    [lia | lia |].
  exists f'. split; [exact Hf |]. split; [exact Hc |].
  apply Hfirm; decide_by_computation.
Defined.

Lemma celsius_to_fahrenheit_monotone_witness :
  exists f f',
    celsius_to_fahrenheit (Fin (Qc_of_Z 20)) = Ok f /\
    celsius_to_fahrenheit (Fin (Qc_of_Z 25)) = Ok f' /\
    (f <= f')%Z.
Proof.
  destruct (celsius_to_fahrenheit_monotone (Qc_of_Z 20) (Qc_of_Z 25))
    as (f & f' & Hf & Hf' & _ & Hle & _).
  - decide_by_computation.
  - decide_by_computation.
  - decide_by_computation.
  - exists f, f'. auto.
Defined.

End Units.
(** ** Display brightness (bundle/code.py, bundle/wtc_display.py) *)

Section Brightness.

Import Float Code.

Lemma ltb_Fin (x y : Qc) : ltb (Fin x) (Fin y) = bool_decide (x < y)%Qc.
Proof. reflexivity. Qed.

(** [map_range] on numbers, for an input range that is not empty and an
    output range in increasing order: the result is in the output range. *)
Lemma map_range_Fin (x a b lo hi : Qc) :
  a <> b -> (lo ≤ hi)%Qc ->
  exists m, map_range (Fin x) (Fin a) (Fin b) (Fin lo) (Fin hi) = Fin m /\
            (lo ≤ m)%Qc /\ (m ≤ hi)%Qc.
Proof.
  intros Hab Hle. unfold map_range. cbn [sub opp add].
  assert (Hz : (b + - a)%Qc <> 0%Qc) by (intros E; apply Hab; Qc_lra).
  rewrite (bool_decide_eq_false_2 (Fin (b + - a)%Qc = Fin 0%Qc))
    by (intros E; now apply Hz, Fin_inj).
  cbn [div]. unfold Qc_is_zero.
  rewrite (bool_decide_eq_false_2 ((b + - a)%Qc = 0%Qc)) by exact Hz.
  cbn [mul add leb]. rewrite ltb_Fin.
  rewrite (bool_decide_eq_false_2 (hi < lo)%Qc) by now apply Qcle_not_lt.
  cbn [negb]. unfold py_min, py_max. rewrite !ltb_Fin.
  set (mapped := ((x + - a) / (b + - a) * (hi + - lo) + lo)%Qc).
  case_bool_decide as H1.
  - rewrite ltb_Fin. rewrite bool_decide_eq_false_2 by now apply Qcle_not_lt.
    exists hi. split; [reflexivity |]. split; [exact Hle | apply Qcle_refl].
  - rewrite ltb_Fin. apply Qcnot_lt_le in H1. case_bool_decide as H2.
    + exists lo. split; [reflexivity |]. split; [apply Qcle_refl | exact Hle].
    + apply Qcnot_lt_le in H2. exists mapped. auto.
Qed.

Lemma round_Fin_3 (q : Qc) : round (Fin q) 3 = Fin (round3 q).
Proof. reflexivity. Qed.

Lemma round3_mono (x y : Qc) : (x ≤ y)%Qc -> (round3 x ≤ round3 y)%Qc.
Proof.
  intros Hxy. unfold round3.
  assert (H : (round_half_even (x * Qc_of_Z 1000) <= round_half_even (y * Qc_of_Z 1000))%Z)
    by (apply round_half_even_mono; Qc_lra).
  rewrite Zle_Qle in H. Qc_lra.
Qed.

Lemma round3_idempotent (x : Qc) : round3 (round3 x) = round3 x.
Proof.
  unfold round3. generalize (round_half_even (x * Qc_of_Z 1000)). intros n.
  replace (Qc_of_Z n / Qc_of_Z 1000 * Qc_of_Z 1000)%Qc with (Qc_of_Z n)
    by Qc_lra.
  now rewrite round_half_even_int.
Qed.

(** Rounding keeps a value between two bounds that have three decimals. *)
Lemma round3_between (lo x hi : Qc) :
  round3 lo = lo -> round3 hi = hi -> (lo ≤ x)%Qc -> (x ≤ hi)%Qc ->
  (lo ≤ round3 x)%Qc /\ (round3 x ≤ hi)%Qc.
Proof.
  intros Hlo Hhi H1 H2. split.
  - rewrite <- Hlo. now apply round3_mono.
  - rewrite <- Hhi. now apply round3_mono.
Qed.

Lemma to_int_nonneg (q : Qc) :
  (0 ≤ q)%Qc -> to_int (Fin q) = Ok (Qfloor q).
Proof.
  intros Hq. unfold to_int. f_equal. destruct q as [[n d] Hc]. simpl in *.
  unfold Qcle, Qle in Hq. simpl in Hq. apply Z.quot_div_nonneg; lia.
Qed.

Lemma Qfloor_between (q : Qc) (n : Z) :
  (0 ≤ q)%Qc -> (q ≤ Qc_of_Z n)%Qc -> (0 <= Qfloor q <= n)%Z.
Proof.
  intros H0 Hn. split.
  - change 0%Z with (Qfloor 0). apply Qfloor_resp_le. Qc_lra.
  - rewrite <- (Qfloor_Z n). apply Qfloor_resp_le. Qc_lra.
Qed.

Lemma three_tenths_rounded : round3 (Qc_of_Z 3 / Qc_of_Z 10) = (Qc_of_Z 3 / Qc_of_Z 10)%Qc.
Proof. decide_by_computation. Qed.

(** The value [adjust_brightness] computes, step by step. *)
Lemma adjust_brightness_eval (B o m : Qc) (light_sensor : nat -> Z)
    (st : lighting) :
  old_brightness st = Fin o ->
  map_range (Fin (lux_of light_sensor)) (Fin (Qc_of_Z 5)) (Fin (Qc_of_Z 200))
    (Fin (Qc_of_Z 3 / Qc_of_Z 10)) (Fin B) = Fin m ->
  let new := round3 (o + (round3 m + - o) / Qc_of_Z 5) in
  (0 ≤ new * Qc_of_Z 65535)%Qc ->
  adjust_brightness true (Fin B) light_sensor st
  = Ok {| old_brightness := Fin new;
          display_brightness := Fin new;
          duty_cycle := Qfloor (new * Qc_of_Z 65535)%Qc;
          pixels_brightness := Fin new |}.
Proof.
  intros Hold Hm new Hduty. unfold adjust_brightness. cbn [negb].
  rewrite (py_truediv_int_pos _ 20), bind_Ok. cbv beta.
  rewrite (py_truediv_pos _ 65535), bind_Ok. cbv beta.
  change (of_int 1500) with (Fin (Qc_of_Z 1500)).
  change (mul (Fin ?a) (Fin ?b)) with (Fin (a * b)%Qc).
  fold (lux_of light_sensor).
  change (of_int 5) with (Fin (Qc_of_Z 5)) at 1.
  change (of_int 200) with (Fin (Qc_of_Z 200)).
  rewrite Hm, round_Fin_3, Hold.
  change (sub (Fin ?a) (Fin ?b)) with (Fin (a + - b)%Qc).
  rewrite (py_truediv_pos _ 5), bind_Ok. cbv beta.
  change (add (Fin ?a) (Fin ?b)) with (Fin (a + b)%Qc).
  rewrite round_Fin_3. fold new.
  unfold Display.duty_cycle_of. change (of_int 65535) with (Fin (Qc_of_Z 65535)).
  change (mul (Fin ?a) (Fin ?b)) with (Fin (a * b)%Qc).
  rewrite to_int_nonneg by exact Hduty. rewrite bind_Ok. reflexivity.
Qed.

(** X5.  Brightness stays in range.  With automatic brightness on, a
    configured [BRIGHTNESS] of three decimals between 0.3 and 1, and an old
    brightness of three decimals between 0.3 and [BRIGHTNESS], whatever the
    light sensor reads: [adjust_brightness] succeeds; the target and the new
    brightness have three decimals and lie between 0.3 and [BRIGHTNESS];
    the new brightness lies between the old one and the target (no
    overshoot); it is what the display, the NeoPixel and [old_brightness]
    receive; and the backlight duty cycle is a 16-bit value. *)
Theorem adjust_brightness_in_range (B o : Qc) (light_sensor : nat -> Z)
    (st : lighting) :
  old_brightness st = Fin o ->
  round3 B = B -> round3 o = o ->
  (Qc_of_Z 3 / Qc_of_Z 10 ≤ o)%Qc -> (o ≤ B)%Qc -> (B ≤ 1)%Qc ->
  exists target new st',
    target_brightness_of (Fin B) light_sensor = Fin target /\
    adjust_brightness true (Fin B) light_sensor st = Ok st' /\
    old_brightness st' = Fin new /\
    display_brightness st' = Fin new /\
    pixels_brightness st' = Fin new /\
    Display.duty_cycle_of (Fin new) = Ok (duty_cycle st') /\
    (0 <= duty_cycle st' <= 65535)%Z /\
    round3 target = target /\ round3 new = new /\
    (Qc_of_Z 3 / Qc_of_Z 10 ≤ target)%Qc /\ (target ≤ B)%Qc /\
    (Qc_of_Z 3 / Qc_of_Z 10 ≤ new)%Qc /\ (new ≤ B)%Qc /\
    ((o ≤ new)%Qc /\ (new ≤ target)%Qc \/ (target ≤ new)%Qc /\ (new ≤ o)%Qc).
Proof.
  intros Hold HB Ho Hlo Hhi HB1.
  assert (HloB : (Qc_of_Z 3 / Qc_of_Z 10 ≤ B)%Qc) by (eapply Qcle_trans; eauto).
  destruct (map_range_Fin (lux_of light_sensor) (Qc_of_Z 5) (Qc_of_Z 200)
              (Qc_of_Z 3 / Qc_of_Z 10) B) as (m & Hm & Hm1 & Hm2);
    [intros E; discriminate E | exact HloB |].
  set (target := round3 m).
  destruct (round3_between _ m _ three_tenths_rounded HB Hm1 Hm2) as [Ht1 Ht2].
  fold target in Ht1, Ht2.
  set (moved := (o + (target + - o) / Qc_of_Z 5)%Qc).
  set (new := round3 moved).
  assert (Htarget : target_brightness_of (Fin B) light_sensor = Fin target).
  { unfold target_brightness_of. fold (of_int 5) (of_int 200).
    change (of_int 5) with (Fin (Qc_of_Z 5)).
    change (of_int 200) with (Fin (Qc_of_Z 200)). rewrite Hm. apply round_Fin_3. }
  assert (Hbetween : (o ≤ new)%Qc /\ (new ≤ target)%Qc
                     \/ (target ≤ new)%Qc /\ (new ≤ o)%Qc).
  { destruct (Qclt_le_dec target o) as [Hlt | Hge].
    - right. apply round3_between; [apply round3_idempotent | exact Ho | |];
        unfold moved; Qc_lra.
    - left. apply round3_between; [exact Ho | apply round3_idempotent | |];
        unfold moved; Qc_lra. }
  assert (Hnew : (Qc_of_Z 3 / Qc_of_Z 10 ≤ new)%Qc /\ (new ≤ B)%Qc).
  { destruct Hbetween as [[H1 H2] | [H1 H2]]; split;
      eauto using Qcle_trans. }
  assert (Hduty : (0 ≤ new * Qc_of_Z 65535)%Qc /\
                  (new * Qc_of_Z 65535 ≤ Qc_of_Z 65535)%Qc).
  { destruct Hnew as [H1 H2]. split; Qc_lra. }
  exists target, new.
  eexists. split; [exact Htarget |]. split.
  { apply (adjust_brightness_eval B o m light_sensor st Hold Hm), Hduty. }
  cbn [old_brightness display_brightness pixels_brightness duty_cycle].
  split; [reflexivity |]. split; [reflexivity |]. split; [reflexivity |].
  split. { apply to_int_nonneg, Hduty. }
  split; [apply Qfloor_between; apply Hduty |].
  split; [apply round3_idempotent |]. split; [apply round3_idempotent |].
  split; [exact Ht1 |]. split; [exact Ht2 |].
  split; [apply Hnew |]. split; [apply Hnew |]. exact Hbetween.
Qed.

Lemma adjust_brightness_in_range_witness :
  exists target new st',
    target_brightness_of (of_int 1) dark_room = Fin target /\
    adjust_brightness true (of_int 1) dark_room full_brightness = Ok st' /\
    old_brightness st' = Fin new /\
    (0 <= duty_cycle st' <= 65535)%Z /\
    (Qc_of_Z 3 / Qc_of_Z 10 ≤ new)%Qc /\ (new ≤ Qc_of_Z 1)%Qc.
Proof.
  destruct (adjust_brightness_in_range (Qc_of_Z 1) (Qc_of_Z 1) dark_room
              full_brightness)
    as (target & new & st' & Ht & Hst & Hn & _ & _ & _ & Hd & _ & _ & _ & _ & H1 & H2 & _).
  - reflexivity.
  - decide_by_computation.
  - decide_by_computation.
  - decide_by_computation.
  - decide_by_computation.
  - decide_by_computation.
  - exists target, new, st'. auto 10.
Defined.

End Brightness.
(** ** The bitmap encoder: rows, sizes and failures *)

Section BitmapRows.
Import Display.

(** X6.  A bitmap row holds its pixels and is padded to the next multiple
    of four bytes, with fewer than four bytes of padding. *)
Theorem bytes_per_row_aligned (source_width : nat) :
  bytes_per_row source_width mod 4 = 0 /\
  3 * source_width <= bytes_per_row source_width < 3 * source_width + 4.
Proof. unfold bytes_per_row. cbv zeta. lia. Qed.

Lemma uint8_value (z : Z) : Z.of_N (Byte.to_N (uint8 z)) = (z mod 256)%Z.
Proof.
  unfold uint8. pose proof (Z.mod_pos_bound z 256 eq_refl) as Hb.
  destruct (Byte.of_N (Z.to_N (z mod 256))) as [b |] eqn:E.
  - apply Byte.to_of_N in E. cbn [default from_option id]. rewrite E. lia.
  - apply Byte.of_N_None_iff in E. lia.
Qed.

Lemma le_value_le_bytes (n : nat) (v : Z) :
  le_value (Code.le_bytes n v) = (v mod 2 ^ (8 * Z.of_nat n))%Z.
Proof.
  revert v. induction n as [| n IH]; intros v.
  - simpl. now rewrite Z.mod_1_r.
  - cbn [Code.le_bytes le_value fold_right]. fold (le_value (Code.le_bytes n (Z.shiftr v 8))).
    rewrite IH, uint8_value, Z.shiftr_div_pow2 by lia.
    replace (8 * Z.of_nat (S n))%Z with (8 + 8 * Z.of_nat n)%Z by lia.
    rewrite Z.pow_add_r by lia. change (2 ^ 8)%Z with 256%Z.
    rewrite Z.rem_mul_r by lia. reflexivity.
Qed.

Lemma le_value_small (n : nat) (v : Z) :
  (0 <= v < 2 ^ (8 * Z.of_nat n))%Z -> le_value (Code.le_bytes n v) = v.
Proof. intros Hv. rewrite le_value_le_bytes. now apply Z.mod_small. Qed.

Lemma setitem_length {A} (b b' : list A) i x :
  setitem b i x = Ok b' -> length b' = length b.
Proof.
  unfold setitem. case_bool_decide; [| discriminate].
  intros [= <-]. apply length_insert.
Qed.

Lemma fetch_body_length self row col st st' :
  fetch_body self row col st = Ok st' -> length st'.1 = length st.1.
Proof.
  destruct st as [b i]. unfold fetch_body.
  destruct (getitem _ _) as [cell |]; [| discriminate]. cbn [mbind result_bind].
  destruct (get_fill cell) as [rgb |]; [| discriminate]. cbn [mbind result_bind].
  destruct (rgb888_to_bgr888_tuple rgb) as [[_blu _grn] _red].
  destruct (setitem b i _) as [b1 |] eqn:E1; [| discriminate].
  cbn [mbind result_bind].
  destruct (setitem b1 _ _) as [b2 |] eqn:E2; [| discriminate].
  cbn [mbind result_bind].
  destruct (setitem b2 _ _) as [b3 |] eqn:E3; [| discriminate].
  cbn [mbind result_bind]. intros [= <-]. cbn [fst].
  apply setitem_length in E1, E2, E3. congruence.
Qed.

Lemma fetch_as_loop self row selfie :
  fetch_grid_row_bgr_colors self row selfie
  = st ← for_each (fetch_body self row) (row_range self selfie)
           (replicate (bytes_per_row (_grid_axis self).1) Byte.x00, 0);
    Ok st.1.
Proof. reflexivity. Qed.

(** A row that is returned has the length of a bitmap row. *)
Lemma fetch_length self row selfie buffer :
  fetch_grid_row_bgr_colors self row selfie = Ok buffer ->
  length buffer = bytes_per_row (_grid_axis self).1.
Proof.
  rewrite fetch_as_loop.
  destruct (for_each _ _ _) as [st |] eqn:E; [| discriminate].
  cbn [mbind result_bind]. intros [= <-].
  apply (for_each_invariant
           (fun st => length st.1 = bytes_per_row (_grid_axis self).1)) in E.
  - exact E.
  - intros col t t' Ht Hbody. apply fetch_body_length in Hbody. congruence.
  - cbn [fst]. apply length_replicate.
Qed.

Lemma collect_rows_length (f : nat -> result (list byte)) (n : nat)
    (rows : list nat) (acc out : list byte) :
  (forall r x, f r = Ok x -> length x = n) ->
  for_each (fun r (data : list byte) => x ← f r; Ok (data ++ x)) rows acc = Ok out ->
  length out = length acc + length rows * n.
Proof.
  intros Hf. revert acc. induction rows as [| r rows IH]; intros acc.
  - simpl. intros [= <-]. lia.
  - cbn [for_each]. destruct (f r) as [x |] eqn:Ex; [| discriminate].
    cbn [mbind result_bind]. intros Hout. apply IH in Hout.
    rewrite Hout, length_app, (Hf _ _ Ex). simpl. lia.
Qed.

Lemma capture_Ok_inv SELFIE DISPLAY_IMAGE self bytes :
  Code.capture_grid_and_upload SELFIE DISPLAY_IMAGE self = Ok bytes ->
  exists data,
    length data = (_grid_axis self).2 * bytes_per_row (_grid_axis self).1 /\
    bytes
    = ([Byte.x42; Byte.x4d]
       ++ Code.pack_I (Z.of_nat (54 + (_grid_axis self).2
                                      * bytes_per_row (_grid_axis self).1))
       ++ [Byte.x00; Byte.x00] ++ [Byte.x00; Byte.x00] ++ Code.pack_I 54)
      ++ ((Code.pack_I 40 ++ Code.pack_I (Z.of_nat (_grid_axis self).1)
           ++ Code.pack_I (Z.of_nat (_grid_axis self).2)
           ++ Code.pack_H 1 ++ Code.pack_H 24) ++ replicate 24 Byte.x00)
      ++ data.
Proof.
  unfold Code.capture_grid_and_upload. cbv zeta. rewrite append_zeros.
  destruct (for_each _ _ _) as [data |] eqn:E; [| discriminate].
  cbn [mbind result_bind]. intros [= <-]. exists data. split; [| reflexivity].
  apply (collect_rows_length _ (bytes_per_row (_grid_axis self).1)) in E.
  - rewrite E. unfold range_down. rewrite length_rev, length_seq. simpl. lia.
  - intros r x. apply fetch_length.
Qed.

(** X7.  The header of every bitmap [capture_grid_and_upload] hands over
    describes it: the signature BM, the size field equal to the length of
    the byte array, [54 + height * bytes_per_row(width)], the pixel offset
    54, the 40-byte info header with the width and height of the grid, one
    plane, 24 bits per pixel, and zeros in the remaining fields.  (Width,
    height and size below 2^32, as the 32-bit fields need.) *)
Theorem capture_header_consistent SELFIE DISPLAY_IMAGE self bytes :
  Code.capture_grid_and_upload SELFIE DISPLAY_IMAGE self = Ok bytes ->
  (Z.of_nat (_grid_axis self).1 < 2 ^ 32)%Z ->
  (Z.of_nat (_grid_axis self).2 < 2 ^ 32)%Z ->
  (Z.of_nat (54 + (_grid_axis self).2 * bytes_per_row (_grid_axis self).1)
   < 2 ^ 32)%Z ->
  length bytes = 54 + (_grid_axis self).2 * bytes_per_row (_grid_axis self).1 /\
  take 2 bytes = [Byte.x42; Byte.x4d] /\
  le_value (take 4 (drop 2 bytes)) = Z.of_nat (length bytes) /\
  take 4 (drop 6 bytes) = replicate 4 Byte.x00 /\
  le_value (take 4 (drop 10 bytes)) = 54%Z /\
  le_value (take 4 (drop 14 bytes)) = 40%Z /\
  le_value (take 4 (drop 18 bytes)) = Z.of_nat (_grid_axis self).1 /\
  le_value (take 4 (drop 22 bytes)) = Z.of_nat (_grid_axis self).2 /\
  le_value (take 2 (drop 26 bytes)) = 1%Z /\
  le_value (take 2 (drop 28 bytes)) = 24%Z /\
  take 24 (drop 30 bytes) = replicate 24 Byte.x00.
Proof.
  intros Hcap Hwidth Hheight Hsize.
  destruct (capture_Ok_inv _ _ _ _ Hcap) as (data & Hlen & ->).
  set (size := 54 + (_grid_axis self).2 * bytes_per_row (_grid_axis self).1) in *.
  assert (Hall : length
            (([Byte.x42; Byte.x4d] ++ Code.pack_I (Z.of_nat size)
              ++ [Byte.x00; Byte.x00] ++ [Byte.x00; Byte.x00] ++ Code.pack_I 54)
             ++ ((Code.pack_I 40 ++ Code.pack_I (Z.of_nat (_grid_axis self).1)
                  ++ Code.pack_I (Z.of_nat (_grid_axis self).2)
                  ++ Code.pack_H 1 ++ Code.pack_H 24) ++ replicate 24 Byte.x00)
             ++ data) = size).
  { cbn [Code.pack_I Code.pack_H Code.le_bytes app replicate length].
    rewrite Hlen. unfold size. lia. }
  split; [exact Hall |]. split; [reflexivity |].
  split.
  { rewrite Hall.
    change (take 4 (drop 2 _)) with (Code.le_bytes 4 (Z.of_nat size)).
    apply le_value_small. change (2 ^ (8 * Z.of_nat 4))%Z with (2 ^ 32)%Z. lia. }
  split; [reflexivity |].
  split.
  { change (take 4 (drop 10 _)) with (Code.le_bytes 4 54).
    now apply le_value_small. }
  split.
  { change (take 4 (drop 14 _)) with (Code.le_bytes 4 40).
    now apply le_value_small. }
  split.
  { change (take 4 (drop 18 _))
      with (Code.le_bytes 4 (Z.of_nat (_grid_axis self).1)).
    apply le_value_small. change (2 ^ (8 * Z.of_nat 4))%Z with (2 ^ 32)%Z. lia. }
  split.
  { change (take 4 (drop 22 _))
      with (Code.le_bytes 4 (Z.of_nat (_grid_axis self).2)).
    apply le_value_small. change (2 ^ (8 * Z.of_nat 4))%Z with (2 ^ 32)%Z. lia. }
  split.
  { change (take 2 (drop 26 _)) with (Code.le_bytes 2 1).
    now apply le_value_small. }
  split.
  { change (take 2 (drop 28 _)) with (Code.le_bytes 2 24).
    now apply le_value_small. }
  reflexivity.
Qed.

Lemma capture_header_consistent_witness :
  exists bytes,
    Code.capture_grid_and_upload true true display_2x2 = Ok bytes /\
    length bytes = 70 /\
    le_value (take 4 (drop 2 bytes)) = 70%Z /\
    le_value (take 4 (drop 18 bytes)) = 2%Z.
Proof.
  destruct (Code.capture_grid_and_upload true true display_2x2) as [bytes |] eqn:E;
    [| vm_compute in E; discriminate E].
  destruct (capture_header_consistent true true display_2x2 bytes E)
    as (Hlen & _ & Hsize & _ & _ & _ & Hw & _); [reflexivity .. |].
  exists bytes. split; [reflexivity |]. split; [exact Hlen |].
  split; [| exact Hw]. rewrite Hsize, Hlen. reflexivity.
Defined.

Lemma row_range_length self selfie :
  length (row_range self selfie) = (_grid_axis self).1.
Proof.
  unfold row_range, range_down, range.
  destruct selfie; now rewrite ?length_rev, length_seq.
Qed.

Lemma row_range_lookup self selfie p :
  p < (_grid_axis self).1 ->
  row_range self selfie !! p
  = Some (if selfie then (_grid_axis self).1 - 1 - p else p).
Proof.
  intros Hp. unfold row_range. destruct selfie.
  - rewrite range_down_map, list_lookup_fmap. unfold range.
    rewrite lookup_seq_lt by exact Hp. reflexivity.
  - unfold range. now rewrite lookup_seq_lt.
Qed.

Lemma elem_of_row_range self selfie col :
  col ∈ row_range self selfie -> col < (_grid_axis self).1.
Proof.
  intros Hcol. unfold row_range, range_down, range in Hcol.
  destruct selfie; apply list_elem_of_In in Hcol;
    [apply in_rev in Hcol |]; apply in_seq in Hcol; lia.
Qed.

Lemma pixel_bytes_length (rgb : Z) : length (spec_pixel rgb) = 3.
Proof. reflexivity. Qed.

(** X8.  A row of the export.  When the elements
    [image_group[row * grid_axis[1] + col]] all have a fill colour,
    [fetch_grid_row_bgr_colors] returns [bytes_per_row(grid_axis[0])]
    bytes: the pixel at position [p] is the blue, green and red byte of the
    element of column [p] (of column [grid_axis[0] - 1 - p] when [selfie]),
    and the bytes after the pixels are zero. *)
Theorem fetch_grid_row_contract self row selfie :
  (forall col, col < (_grid_axis self).1 ->
     is_Some (stored_fill self (row * (_grid_axis self).2 + col))) ->
  exists buffer,
    fetch_grid_row_bgr_colors self row selfie = Ok buffer /\
    length buffer = bytes_per_row (_grid_axis self).1 /\
    (forall p, p < (_grid_axis self).1 ->
       let col := if selfie then (_grid_axis self).1 - 1 - p else p in
       exists rgb,
         stored_fill self (row * (_grid_axis self).2 + col) = Some rgb /\
         let '(_blu, _grn, _red) := rgb888_to_bgr888_tuple rgb in
         buffer !! (3 * p) = Some (uint8 _blu) /\
         buffer !! (3 * p + 1) = Some (uint8 _grn) /\
         buffer !! (3 * p + 2) = Some (uint8 _red)) /\
    (forall i, 3 * (_grid_axis self).1 <= i < bytes_per_row (_grid_axis self).1 ->
       buffer !! i = Some Byte.x00).
Proof.
  intros Hfills. pose proof (fetch_grid_row_bytes self row selfie Hfills) as Hrow.
  fold (row_range self selfie) in Hrow.
  eexists. split; [exact Hrow |].
  set (pixels := flat_map _ (row_range self selfie)).
  assert (Hpix : length pixels = 3 * (_grid_axis self).1).
  { unfold pixels.
    etransitivity;
      [apply (@flat_map_constant_length _ _ 3); intros x _; reflexivity |].
    rewrite row_range_length. lia. }
  split.
  { rewrite length_app, length_replicate, Hpix.
    unfold spec_bytes_per_row, bytes_per_row. lia. }
  split.
  - intros p Hp col.
    assert (Hcol : col < (_grid_axis self).1) by (unfold col; destruct selfie; lia).
    destruct (Hfills col Hcol) as [rgb Hrgb]. exists rgb. split; [exact Hrgb |].
    assert (Hcell : forall j, j < 3 ->
              (pixels ++ replicate (spec_bytes_per_row (_grid_axis self).1
                                    - 3 * (_grid_axis self).1) Byte.x00)
              !! (p * 3 + j) = pixel_bytes rgb !! j).
    { intros j Hj. rewrite lookup_app_l by (rewrite Hpix; lia). unfold pixels.
      rewrite (lookup_flat_map_rows _ 3 _ p j col);
        [| intros y; reflexivity | now apply row_range_lookup | exact Hj].
      unfold fill_at. rewrite Hrgb. cbn [default from_option id].
      now rewrite pixel_bytes_spec. }
    unfold pixel_bytes in Hcell.
    destruct (rgb888_to_bgr888_tuple rgb) as [[_blu _grn] _red].
    replace (3 * p) with (p * 3 + 0) by lia.
    replace (p * 3 + 0 + 1) with (p * 3 + 1) by lia.
    replace (p * 3 + 0 + 2) with (p * 3 + 2) by lia.
    rewrite !Hcell by lia. auto.
  - intros i Hi. rewrite lookup_app_r by (rewrite Hpix; lia).
    apply lookup_replicate_2. rewrite Hpix.
    unfold spec_bytes_per_row, bytes_per_row in *. lia.
Qed.

Lemma fetch_grid_row_contract_witness :
  exists buffer,
    fetch_grid_row_bgr_colors display_3x2 0 true = Ok buffer /\
    length buffer = 12 /\
    buffer !! 0 = Some (uint8 3).
Proof.
  destruct (fetch_grid_row_contract display_3x2 0 true)
    as (buffer & Hb & Hlen & Hpix & _).
  - intros col Hcol. simpl in Hcol.
    do 3 (destruct col as [| col]; [eexists; reflexivity |]). lia.
  - exists buffer. split; [exact Hb |]. split; [exact Hlen |].
    destruct (Hpix 0 ltac:(simpl; lia)) as (rgb & Hrgb & Hbytes).
    vm_compute in Hrgb. injection Hrgb as <-. apply Hbytes.
Defined.

(** X9.  How a row fails.  At the first column, in the order the columns
    are visited, whose element has no fill colour,
    [fetch_grid_row_bgr_colors] raises: IndexError when the index is past
    the end of [image_group], AttributeError when the element is a label. *)
Theorem fetch_grid_row_failure self row selfie done col rest :
  row_range self selfie = done ++ col :: rest ->
  (forall c, c ∈ done ->
     is_Some (stored_fill self (row * (_grid_axis self).2 + c))) ->
  stored_fill self (row * (_grid_axis self).2 + col) = None ->
  fetch_grid_row_bgr_colors self row selfie
  = Raise (if bool_decide (row * (_grid_axis self).2 + col
                           < length (image_group self))
           then AttributeError else IndexError).
Proof.
  intros Hcols Hdone Hcol. rewrite fetch_as_loop, Hcols, for_each_app.
  pose proof (row_range_length self selfie) as Hlen.
  rewrite Hcols, length_app in Hlen. cbn [length] in Hlen.
  pose proof (bytes_per_row_aligned (_grid_axis self).1) as [_ [Hw _]].
  replace (bytes_per_row (_grid_axis self).1)
    with (3 * length done
          + (bytes_per_row (_grid_axis self).1 - 3 * length done)) by lia.
  pose proof (fetch_loop self row done []
                (bytes_per_row (_grid_axis self).1 - 3 * length done) Hdone)
    as Hloop.
  cbn [app length] in Hloop. rewrite Hloop. cbn [mbind result_bind for_each].
  set (st := (_, _)). destruct st as [b i].
  unfold fetch_body, getitem. unfold stored_fill in Hcol.
  destruct (image_group self !! _) as [cell |] eqn:Ecell.
  - apply lookup_lt_Some in Ecell as Hlt.
    rewrite bool_decide_eq_true_2 by exact Hlt.
    destruct cell as [x y f | [f |]]; try discriminate Hcol. reflexivity.
  - apply lookup_ge_None in Ecell.
    rewrite bool_decide_eq_false_2 by lia. reflexivity.
Qed.

Lemma fetch_grid_row_failure_witness :
  fetch_grid_row_bgr_colors display_1x2 1 false = Raise AttributeError.
Proof.
  apply (fetch_grid_row_failure display_1x2 1 false [] 0 []).
  - reflexivity.
  - intros c Hc. inversion Hc.
  - reflexivity.
Defined.

(** X10.  A grid taller than wide cannot be exported.  With
    [1 <= grid_axis[0] < grid_axis[1]] and no fill colour past the grid
    cells (the labels of [__init__] have none), the first row
    [capture_grid_and_upload] fetches already addresses an element past the
    grid cells, and the export raises AttributeError or IndexError. *)
Theorem capture_tall_grid_fails SELFIE DISPLAY_IMAGE self :
  1 <= (_grid_axis self).1 -> (_grid_axis self).1 < (_grid_axis self).2 ->
  (forall k, (_grid_axis self).1 * (_grid_axis self).2 <= k ->
             stored_fill self k = None) ->
  exists e,
    Code.capture_grid_and_upload SELFIE DISPLAY_IMAGE self = Raise e /\
    (e = AttributeError \/ e = IndexError).
Proof.
  intros Hw Htall Hlabels.
  destruct (_grid_axis self) as [a0 a1] eqn:Eaxis. cbn [fst snd] in *.
  set (selfie := SELFIE && DISPLAY_IMAGE).
  set (col := if selfie then a0 - 1 else 0).
  assert (Hrange : exists rest, row_range self selfie = col :: rest).
  { unfold row_range, range_down, range. rewrite Eaxis. cbn [fst].
    destruct a0 as [| n]; [lia |]. unfold col. destruct selfie.
    - rewrite seq_S, rev_app_distr. simpl. rewrite Nat.sub_0_r. eauto.
    - simpl. eauto. }
  destruct Hrange as [rest Hrange].
  pose proof (fetch_grid_row_failure self (a1 - 1) selfie [] col rest) as Hfetch.
  rewrite Eaxis in Hfetch. cbn [fst snd app] in Hfetch.
  specialize (Hfetch Hrange ltac:(intros c Hc; inversion Hc)
                ltac:(apply Hlabels; nia)).
  unfold Code.capture_grid_and_upload. cbv zeta. rewrite Eaxis. cbn [fst snd].
  unfold range_down. destruct a1 as [| n]; [lia |].
  rewrite seq_S, rev_app_distr. cbn [rev app for_each Nat.add].
  replace (S n - 1) with n in Hfetch by lia. fold selfie. rewrite Hfetch.
  cbn [mbind result_bind]. eexists. split; [reflexivity |].
  case_bool_decide; auto.
Qed.

Lemma capture_tall_grid_fails_witness :
  exists e,
    Code.capture_grid_and_upload true true display_1x2 = Raise e /\
    (e = AttributeError \/ e = IndexError).
Proof.
  apply (capture_tall_grid_fails true true display_1x2).
  - simpl. lia.
  - simpl. lia.
  - intros k Hk. simpl in Hk. unfold stored_fill. simpl.
    do 2 (destruct k as [| k]; [lia |]).
    do 9 (destruct k as [| k]; [reflexivity |]). reflexivity.
Defined.

End BitmapRows.
(** ** The renderer: what a frame changes *)

Section RenderWrites.
Import Display.
Variable index_to_rgb : float -> Z.

Lemma same_element_refl e : same_element e e.
Proof. destruct e; simpl; auto. Qed.

Lemma same_element_trans e1 e2 e3 :
  same_element e1 e2 -> same_element e2 e3 -> same_element e1 e3.
Proof.
  destruct e1, e2, e3; simpl; try tauto. intros [-> ->] [-> ->]. auto.
Qed.

Lemma same_element_with_fill e color : same_element e (with_fill e color).
Proof. destruct e; simpl; auto. Qed.

Lemma same_layout_refl self : same_layout self self.
Proof.
  split; [reflexivity |]. split; [reflexivity |].
  apply Forall2_same_length_lookup. split; [reflexivity |].
  intros i x y Hx Hy. rewrite Hx in Hy. injection Hy as <-.
  apply same_element_refl.
Qed.

Lemma same_layout_trans s1 s2 s3 :
  same_layout s1 s2 -> same_layout s2 s3 -> same_layout s1 s3.
Proof.
  intros (Ha & Hp & He) (Ha' & Hp' & He').
  split; [congruence |]. split; [congruence |].
  apply Forall2_same_length_lookup in He as [Hlen He].
  apply Forall2_same_length_lookup in He' as [Hlen' He'].
  apply Forall2_same_length_lookup. split; [congruence |].
  intros i x z Hx Hz.
  destruct (lookup_lt_is_Some_2 (image_group s2) i) as [y Hy].
  { rewrite <- Hlen. eapply lookup_lt_Some, Hx. }
  eapply same_element_trans; eauto.
Qed.

Lemma set_fill_layout self k color self' :
  set_fill self k color = Ok self' -> same_layout self self'.
Proof.
  unfold set_fill, getitem.
  destruct (image_group self !! k) as [cell |] eqn:Hcell; [| discriminate].
  cbn [mbind result_bind]. intros [= <-].
  split; [reflexivity |]. split; [reflexivity |]. cbn [image_group].
  apply Forall2_same_length_lookup. split; [now rewrite length_insert |].
  intros i x y Hx Hy. destruct (decide (i = k)) as [-> | Hne].
  - rewrite list_lookup_insert_eq in Hy by (eapply lookup_lt_Some, Hcell).
    rewrite Hcell in Hx. injection Hx as <-. injection Hy as <-.
    apply same_element_with_fill.
  - rewrite list_lookup_insert_ne in Hy by congruence.
    rewrite Hx in Hy. injection Hy as <-. apply same_element_refl.
Qed.

Lemma update_image_cell_layout grid_data selfie _col _row self self' :
  update_image_cell index_to_rgb grid_data selfie _col _row self = Ok self' ->
  same_layout self self'.
Proof.
  rewrite update_image_cell_eq.
  destruct (cell_color _ _ _ _ _ _) as [color |]; [| discriminate].
  cbn [mbind result_bind].
  destruct (getitem _ _) as [cell |]; [| discriminate]. cbn [mbind result_bind].
  destruct (get_fill cell) as [fill |]; [| discriminate]. cbn [mbind result_bind].
  case_bool_decide.
  - apply set_fill_layout.
  - intros [= <-]. apply same_layout_refl.
Qed.

Lemma update_image_frame_layout self grid_data selfie self' :
  update_image_frame index_to_rgb self grid_data selfie = Ok self' ->
  same_layout self self'.
Proof.
  rewrite update_image_frame_eq. intros Hloop.
  apply (for_each_invariant (same_layout self)) in Hloop.
  - exact Hloop.
  - intros cr t t' Ht Hstep. eapply same_layout_trans; [exact Ht |].
    eapply update_image_cell_layout, Hstep.
  - apply same_layout_refl.
Qed.

Lemma changed_among_cons k ks before after :
  changed_among (k :: ks) before after
  = (if bool_decide (stored_fill before k <> stored_fill after k) then 1 else 0)
    + changed_among ks before after.
Proof.
  unfold changed_among. rewrite filter_cons.
  case_bool_decide as H; destruct (decide _) as [H' | H']; try tauto;
    reflexivity.
Qed.

Lemma changed_among_ext ks before before' after :
  (forall k, k ∈ ks -> stored_fill before' k = stored_fill before k) ->
  changed_among ks before' after = changed_among ks before after.
Proof.
  induction ks as [| k ks IH]; intros Hks; [reflexivity |].
  rewrite !changed_among_cons, IH by (intros; apply Hks; now right).
  now rewrite (Hks k) by now left.
Qed.

(** The loop writes once for each visited cell whose colour changes. *)
Lemma render_writes grid_data selfie cells self self' :
  for_each (fun cr => update_image_cell index_to_rgb grid_data selfie cr.1 cr.2)
    cells self = Ok self' ->
  NoDup (map (fun cr => group_index self cr.1 cr.2) cells) ->
  fill_writes self'
  = fill_writes self
    + changed_among (map (fun cr => group_index self cr.1 cr.2) cells) self self'.
Proof.
  revert self. induction cells as [| cr cells IH]; intros self.
  - simpl. intros [= <-] _. unfold changed_among. simpl. lia.
  - cbn [for_each map].
    destruct (update_image_cell _ _ _ _ _ self) as [s1 |] eqn:Hstep;
      [| discriminate].
    cbn [mbind result_bind]. intros Hrest Hnodup.
    apply NoDup_cons in Hnodup as [Hfresh Hnodup].
    apply update_image_cell_Ok in Hstep
      as (color & _ & Ha & _ & Hs & Hframe & Hwrite).
    assert (Hgi : forall c r, group_index s1 c r = group_index self c r)
      by (intros; unfold group_index; now rewrite Ha).
    assert (Hmap : map (fun cr => group_index s1 cr.1 cr.2) cells
                   = map (fun cr => group_index self cr.1 cr.2) cells)
      by (apply map_ext; intros; apply Hgi).
    rewrite (IH s1 Hrest) by now rewrite Hmap.
    rewrite Hmap, changed_among_cons.
    rewrite (changed_among_ext _ self s1).
    2:{ intros k Hk. apply stored_fill_lookup, Hframe.
        intros ->. now apply Hfresh. }
    assert (Hafter : stored_fill self' (group_index self cr.1 cr.2) = Some color).
    { rewrite <- Hs. apply stored_fill_lookup.
      apply (render_frame index_to_rgb grid_data selfie cells s1 self' _ Hrest).
      now rewrite Hmap. }
    rewrite Hafter. case_bool_decide as Hsame.
    + subst s1. rewrite bool_decide_eq_false_2 by tauto. lia.
    + rewrite bool_decide_eq_true_2 by exact Hsame. lia.
Qed.

(** X11.  What a frame changes.  A call of [update_image_frame] that
    returns leaves the configuration, the number of elements, the position
    of every rectangle and every element past the grid cells (the labels)
    as they were, and assigns exactly as many fill colours as there are
    grid cells whose stored colour differs before and after the call. *)
Theorem update_image_frame_writes self grid_data selfie self' :
  update_image_frame index_to_rgb self grid_data selfie = Ok self' ->
  same_layout self self' /\
  length (image_group self') = length (image_group self) /\
  (forall k, (_grid_axis self).1 * (_grid_axis self).2 <= k ->
             image_group self' !! k = image_group self !! k) /\
  fill_writes self' = fill_writes self + changed_cells self self' /\
  changed_cells self self' <= (_grid_axis self).1 * (_grid_axis self).2.
Proof.
  intros Hframe. pose proof (update_image_frame_layout _ _ _ _ Hframe) as Hlayout.
  split; [exact Hlayout |]. split.
  { destruct Hlayout as (_ & _ & He). symmetry. eapply Forall2_length, He. }
  rewrite update_image_frame_eq in Hframe. split.
  { intros k Hk.
    apply (render_frame index_to_rgb grid_data selfie _ _ _ _ Hframe).
    rewrite frame_cells_indices. intros Hin.
    apply list_elem_of_In, in_seq in Hin. lia. }
  split.
  { rewrite (render_writes _ _ _ _ _ Hframe).
    - unfold changed_cells. now rewrite frame_cells_indices.
    - rewrite frame_cells_indices. apply NoDup_ListNoDup, seq_NoDup. }
  unfold changed_cells, changed_among.
  etransitivity; [apply length_filter |]. now rewrite length_seq.
Qed.

End RenderWrites.

Lemma update_image_frame_writes_witness :
  exists self',
    Display.update_image_frame gray_ramp display_2x2 columns_2x2 false = Ok self' /\
    Display.fill_writes self' = Display.fill_writes display_2x2 + changed_cells display_2x2 self'.
Proof.
  destruct (Display.update_image_frame gray_ramp display_2x2 columns_2x2 false)
    as [self' |] eqn:E; [| vm_compute in E; discriminate E].
  exists self'. split; [reflexivity |].
  apply (update_image_frame_writes gray_ramp display_2x2 columns_2x2 false self' E).
Defined.

(** ** The renderer: palette steps, and the display as constructed *)

Section PaletteSteps.
Import Display.
Variable index_to_rgb : float -> Z.

Lemma update_image_frame_covered self grid_data selfie :
  ready self -> covers grid_data self ->
  exists self', update_image_frame index_to_rgb self grid_data selfie = Ok self'.
Proof.
  intros Hready Hcov. rewrite update_image_frame_eq.
  destruct (ready_loop index_to_rgb grid_data selfie (frame_cells self) self Hready)
    as [Hok _].
  { apply Forall_forall. intros [c r] Hcr. now apply elem_of_frame_cells. }
  apply Hok. apply Forall_forall. intros [c r] Hcr.
  apply elem_of_frame_cells in Hcr as [Hc Hr]. cbn [fst snd].
  apply Hcov; [exact Hc |]. now apply source_row_involutive.
Qed.

Lemma Qc_of_Z_inj_nonzero (z : Z) : z <> 0%Z -> Qc_of_Z z <> 0%Qc.
Proof.
  intros Hz E. apply Hz. apply Qc_eq_Q in E. rewrite Qc_of_Z_Q in E.
  change (this (Q2Qc 0)) with (inject_Z 0) in E.
  rewrite inject_Z_injective in E. exact E.
Qed.

Lemma quantize_Fin self (x : Qc) :
  _palette_size self <> 0%Z ->
  quantize self (Fin x)
  = Ok (Fin (Qc_of_Z (Float.round_half_even (x * Qc_of_Z (_palette_size self)))
             / Qc_of_Z (_palette_size self))%Qc).
Proof.
  intros Hp. unfold quantize, Float.of_int.
  change (Float.mul (Fin ?a) (Fin ?b)) with (Fin (a * b)%Qc).
  unfold Float.round. change (10 ^ Z.of_nat 0)%Z with 1%Z.
  unfold Float.py_truediv, Float.div, Float.Qc_is_zero.
  rewrite bool_decide_eq_false_2 by now apply Qc_of_Z_inj_nonzero.
  do 2 f_equal.
  replace (x * Qc_of_Z (_palette_size self) * Qc_of_Z 1)%Qc
    with (x * Qc_of_Z (_palette_size self))%Qc by Qc_lra.
  generalize (Float.round_half_even (x * Qc_of_Z (_palette_size self))).
  intros k. f_equal. Qc_lra.
Qed.

(** A value of [0, 1] is quantized to one of the steps [k / palette_size],
    [0 <= k <= palette_size]. *)
Lemma quantize_unit self v :
  (0 < _palette_size self)%Z -> in_unit v ->
  exists k, (0 <= k <= _palette_size self)%Z /\
            quantize self v
            = Ok (Fin (Qc_of_Z k / Qc_of_Z (_palette_size self))%Qc).
Proof.
  intros Hp Hv. destruct v as [x | |]; try contradiction. destruct Hv as [H0 H1].
  exists (Float.round_half_even (x * Qc_of_Z (_palette_size self))).
  split; [| apply quantize_Fin; lia].
  assert (Hps : (0 ≤ Qc_of_Z (_palette_size self))%Qc).
  { unfold Qcle. rewrite Qc_of_Z_Q. change (this (Q2Qc 0)) with (inject_Z 0).
    rewrite <- Zle_Qle. lia. }
  split.
  - rewrite <- (round_half_even_int 0). apply round_half_even_mono.
    replace (Qc_of_Z 0) with 0%Qc by Qc_lra. now apply Qcmult_nonneg_nonneg.
  - rewrite <- (round_half_even_int (_palette_size self)) at 2.
    apply round_half_even_mono.
    rewrite <- (Qcmult_1_l (Qc_of_Z (_palette_size self))) at 2.
    now apply Qcmult_le_compat_r.
Qed.

(** A grid of values of [0, 1] is rendered in palette steps. *)
Lemma rendered_palette_steps self grid_data selfie :
  ready self -> (0 < _palette_size self)%Z ->
  (forall c r, c < (_grid_axis self).1 -> r < (_grid_axis self).2 ->
     exists v, np.get2 grid_data c r = Some v /\ in_unit v) ->
  exists self',
    update_image_frame index_to_rgb self grid_data selfie = Ok self' /\
    forall _col _row,
      _col < (_grid_axis self).1 -> _row < (_grid_axis self).2 ->
      exists k,
        (0 <= k <= _palette_size self)%Z /\
        stored_fill self' (_col * (_grid_axis self).2 + _row)
        = Some (index_to_rgb
                  (Fin (Qc_of_Z k / Qc_of_Z (_palette_size self))%Qc)).
Proof.
  intros Hready Hp Hgrid.
  destruct (update_image_frame_covered self grid_data selfie Hready)
    as [self' Hframe].
  { intros c r Hc Hr. destruct (Hgrid c r Hc Hr) as (v & -> & _). eauto. }
  exists self'. split; [exact Hframe |]. intros _col _row Hc Hr.
  destruct (rendered_cells index_to_rgb _ _ _ _ Hframe _row _col Hc Hr)
    as (v & q & Hv & Hq & Hfill).
  destruct (source_row_involutive self selfie _row Hr) as [Hr' _].
  destruct (Hgrid _col _ Hc Hr') as (v' & Hv' & Hunit).
  rewrite Hv in Hv'. injection Hv' as <-.
  destruct (quantize_unit self v Hp Hunit) as (k & Hk & Hq').
  rewrite Hq in Hq'. injection Hq' as ->. exists k. split; [exact Hk |].
  exact Hfill.
Qed.

(** X12.  Palette steps.  On a display whose cells have fills and whose
    palette size is positive, a grid that has a value of [0, 1] at every
    index of the configured axis is rendered without an exception, and the
    colour of every cell is [index_to_rgb(k / palette_size)] for a whole
    [k] with [0 <= k <= palette_size]: the palette is asked for its steps
    only. *)
Theorem update_image_frame_palette_steps self grid_data selfie :
  ready self -> (0 < _palette_size self)%Z ->
  (forall c r, c < (_grid_axis self).1 -> r < (_grid_axis self).2 ->
     exists v, np.get2 grid_data c r = Some v /\ in_unit v) ->
  exists self',
    update_image_frame index_to_rgb self grid_data selfie = Ok self' /\
    forall _col _row,
      _col < (_grid_axis self).1 -> _row < (_grid_axis self).2 ->
      exists k,
        (0 <= k <= _palette_size self)%Z /\
        stored_fill self' (_col * (_grid_axis self).2 + _row)
        = Some (index_to_rgb
                  (Fin (Qc_of_Z k / Qc_of_Z (_palette_size self))%Qc)).
Proof. apply rendered_palette_steps. Qed.

End PaletteSteps.

Lemma update_image_frame_palette_steps_witness :
  exists self',
    Display.update_image_frame gray_ramp display_2x2 columns_2x2 true = Ok self' /\
    exists k, (0 <= k <= 100)%Z /\
      stored_fill self' 0
      = Some (gray_ramp (Fin (Qc_of_Z k / Qc_of_Z 100)%Qc)).
Proof.
  destruct (update_image_frame_palette_steps gray_ramp display_2x2 columns_2x2 true)
    as (self' & Hframe & Hcells).
  - split; [discriminate |]. intros k Hk. simpl in Hk.
    do 4 (destruct k as [| k]; [eexists; reflexivity |]). lia.
  - reflexivity.
  - intros c r Hc Hr. simpl in Hc, Hr.
    destruct c as [| [| c]]; [| | lia];
      (destruct r as [| [| r]]; [| | lia]);
      (eexists; split; [reflexivity |]); split; decide_by_computation.
  - exists self'. split; [exact Hframe |].
    apply (Hcells 0 0); simpl; lia.
Defined.
(** ** The display as constructed, and the first frame *)

Section Construction.
Import Display.

Lemma init_Ok grid_size grid_offset grid_axis palette_size :
  1 <= grid_axis.1 -> 1 <= grid_axis.2 ->
  1 <= Nat.min (grid_size.1 / grid_axis.1) (grid_size.2 / grid_axis.2) ->
  exists self, init grid_size grid_offset grid_axis palette_size = Ok self.
Proof.
  intros H0 H1 Hcell. unfold init. rewrite bool_decide_eq_false_2 by lia.
  rewrite bool_decide_eq_false_2 by lia. eauto.
Qed.

Lemma init_length grid_size grid_offset grid_axis palette_size self :
  init grid_size grid_offset grid_axis palette_size = Ok self ->
  _grid_axis self = grid_axis /\ _palette_size self = palette_size /\
  fill_writes self = 0 /\
  length (image_group self) = grid_axis.1 * grid_axis.2 + 9 /\
  forall k, grid_axis.1 * grid_axis.2 <= k < grid_axis.1 * grid_axis.2 + 9 ->
            image_group self !! k = Some (Label None).
Proof.
  unfold init. case_bool_decide; [discriminate |].
  case_bool_decide; [discriminate |]. intros [= <-]. cbn.
  set (cells := flat_map _ _).
  assert (Hcells : length cells = grid_axis.1 * grid_axis.2).
  { unfold cells. rewrite (flat_map_constant_length (c := grid_axis.1)).
    - unfold range. rewrite length_seq. lia.
    - intros y _. unfold range. now rewrite length_map, length_seq. }
  split; [reflexivity |]. split; [reflexivity |]. split; [reflexivity |].
  split.
  - rewrite length_app, Hcells. reflexivity.
  - intros k Hk. rewrite lookup_app_r by lia.
    change (Label None :: _) with (replicate 9 (Label None)).
    apply lookup_replicate_2. lia.
Qed.

Lemma init_cell_fill grid_size grid_offset grid_axis palette_size self k :
  init grid_size grid_offset grid_axis palette_size = Ok self ->
  k < grid_axis.1 * grid_axis.2 -> stored_fill self k = Some PURPLE.
Proof.
  intros Hinit Hk. unfold stored_fill.
  assert (Hrow : k / grid_axis.1 < grid_axis.2)
    by (apply Nat.Div0.div_lt_upper_bound; lia).
  assert (Hcol : k mod grid_axis.1 < grid_axis.1)
    by (apply Nat.mod_upper_bound; lia).
  destruct (init_layout _ _ _ _ _ _ _ Hinit Hrow Hcol) as [_ Hk'].
  replace (k / grid_axis.1 * grid_axis.1 + k mod grid_axis.1) with k in Hk'
    by (pose proof (Nat.div_mod_eq k grid_axis.1); lia).
  now rewrite Hk'.
Qed.

Lemma init_no_fill_past grid_size grid_offset grid_axis palette_size self k :
  init grid_size grid_offset grid_axis palette_size = Ok self ->
  grid_axis.1 * grid_axis.2 <= k -> stored_fill self k = None.
Proof.
  intros Hinit Hk. destruct (init_length _ _ _ _ _ Hinit) as (_ & _ & _ & Hlen & Hlabels).
  unfold stored_fill.
  destruct (decide (k < grid_axis.1 * grid_axis.2 + 9)) as [Hlt | Hge].
  - now rewrite Hlabels by lia.
  - now rewrite lookup_ge_None_2 by lia.
Qed.

Lemma init_ready grid_size grid_offset grid_axis palette_size self :
  init grid_size grid_offset grid_axis palette_size = Ok self ->
  palette_size <> 0%Z -> ready self.
Proof.
  intros Hinit Hp.
  destruct (init_length _ _ _ _ _ Hinit) as (Ha & Hp' & _).
  split; [congruence |]. rewrite Ha. intros k Hk.
  rewrite (init_cell_fill _ _ _ _ _ _ Hinit Hk). eauto.
Qed.

(** X13.  The display as constructed.  [Display.__init__] raises
    ZeroDivisionError when an axis of the grid is zero, and ValueError
    (from the first [Rect]) when the grid area is too small for a cell of
    one pixel,
    [cell_size = min(grid_size[0] // grid_axis[0], grid_size[1] // grid_axis[1]) = 0].
    Otherwise the image group holds the [grid_axis[0] * grid_axis[1]] grid
    cells followed by nine labels: the cell of row [row] and column [col]
    is element [row * grid_axis[0] + col], a purple square of side
    [cell_size] at [(col * cell_size, row * cell_size)] plus the offset,
    inside the grid area; and no element past the grid cells has a fill
    colour. *)
Theorem display_init_layout grid_size grid_offset grid_axis palette_size :
  let cell_size :=
    Nat.min (grid_size.1 / grid_axis.1) (grid_size.2 / grid_axis.2) in
  (grid_axis.1 = 0 \/ grid_axis.2 = 0 ->
   init grid_size grid_offset grid_axis palette_size = Raise ZeroDivisionError) /\
  (1 <= grid_axis.1 -> 1 <= grid_axis.2 -> cell_size = 0 ->
   init grid_size grid_offset grid_axis palette_size = Raise ValueError) /\
  (1 <= grid_axis.1 -> 1 <= grid_axis.2 -> 1 <= cell_size ->
   exists self,
     init grid_size grid_offset grid_axis palette_size = Ok self /\
     _grid_axis self = grid_axis /\ _palette_size self = palette_size /\
     fill_writes self = 0 /\
     length (image_group self) = grid_axis.1 * grid_axis.2 + 9 /\
     (forall row col, row < grid_axis.2 -> col < grid_axis.1 ->
        image_group self !! (row * grid_axis.1 + col)
        = Some (Rect (col * cell_size + grid_offset.1)
                     (row * cell_size + grid_offset.2) PURPLE) /\
        col * cell_size + cell_size <= grid_size.1 /\
        row * cell_size + cell_size <= grid_size.2) /\
     (forall k, k < grid_axis.1 * grid_axis.2 -> stored_fill self k = Some PURPLE) /\
     (forall k, grid_axis.1 * grid_axis.2 <= k < grid_axis.1 * grid_axis.2 + 9 ->
        image_group self !! k = Some (Label None)) /\
     (forall k, grid_axis.1 * grid_axis.2 <= k -> stored_fill self k = None)).
Proof.
  intros cell_size. split.
  { intros Hzero. unfold init. now rewrite bool_decide_eq_true_2. }
  split.
  { intros H0 H1 Hcell. unfold init. rewrite bool_decide_eq_false_2 by lia.
    now rewrite bool_decide_eq_true_2. }
  intros H0 H1 Hside.
  destruct (init_Ok grid_size grid_offset grid_axis palette_size H0 H1 Hside)
    as [self Hinit].
  destruct (init_length _ _ _ _ _ Hinit) as (Ha & Hp & Hw & Hlen & Hlabels).
  exists self. split; [exact Hinit |]. split; [exact Ha |].
  split; [exact Hp |]. split; [exact Hw |]. split; [exact Hlen |].
  assert (Hcell : forall row col, row < grid_axis.2 -> col < grid_axis.1 ->
            image_group self !! (row * grid_axis.1 + col)
            = Some (Rect (col * cell_size + grid_offset.1)
                         (row * cell_size + grid_offset.2) PURPLE)).
  { intros row col Hrow Hcol.
    now destruct (init_layout _ _ _ _ _ row col Hinit Hrow Hcol) as [_ H]. }
  split.
  { intros row col Hrow Hcol. split; [now apply Hcell |].
    assert (Hx : grid_axis.1 * cell_size <= grid_size.1).
    { etransitivity; [| apply (Nat.Div0.mul_div_le _ grid_axis.1)].
      apply Nat.mul_le_mono_l. unfold cell_size. lia. }
    assert (Hy : grid_axis.2 * cell_size <= grid_size.2).
    { etransitivity; [| apply (Nat.Div0.mul_div_le _ grid_axis.2)].
      apply Nat.mul_le_mono_l. unfold cell_size. lia. }
    nia. }
  split; [intros k Hk; now apply (init_cell_fill _ _ _ _ _ _ Hinit) |].
  split; [exact Hlabels |].
  intros k Hk. now apply (init_no_fill_past _ _ _ _ _ _ Hinit).
Qed.

Lemma display_init_layout_witness :
  (exists self,
     init (240, 240) (0, 0) (15, 15) 100 = Ok self /\
     length (image_group self) = 234 /\
     image_group self !! (2 * 15 + 3) = Some (Rect 48 32 PURPLE)) /\
  init (10, 240) (0, 0) (15, 15) 100 = Raise ValueError.
Proof.
  destruct (display_init_layout (240, 240) (0, 0) (15, 15) 100) as (_ & _ & H).
  destruct H as (self & Hinit & _ & _ & _ & Hlen & Hcells & _);
    [simpl; lia | simpl; lia | vm_compute; lia |].
  split.
  - exists self. split; [exact Hinit |]. split; [exact Hlen |].
    now destruct (Hcells 2 3 ltac:(simpl; lia) ltac:(simpl; lia)) as [H _].
  - destruct (display_init_layout (10, 240) (0, 0) (15, 15) 100) as (_ & H & _).
    apply H; [simpl; lia | simpl; lia | reflexivity].
Defined.

End Construction.

Section Startup.
Import Display.
Variable index_to_rgb : float -> Z.

Lemma get2_reshape_range (cell : nat -> float) (rows cols c r : nat) :
  c < rows -> r < cols ->
  np.get2 (Camera.reshape_range cell rows cols) c r = Some (cell (c * cols + r)).
Proof.
  intros Hc Hr. unfold np.get2, Camera.reshape_range.
  rewrite list_lookup_fmap, lookup_seq_lt by exact Hc. cbn.
  rewrite list_lookup_fmap, lookup_seq_lt by exact Hr. reflexivity.
Qed.

Lemma spectrum_cell (n k : nat) :
  1 <= n ->
  Float.div (Float.of_nat (n - k)) (Float.of_nat n) = Fin (spectrum_value n k) /\
  in_unit (Fin (spectrum_value n k)).
Proof.
  intros Hn. unfold Float.of_nat, Float.of_int, Float.div, Float.Qc_is_zero.
  rewrite bool_decide_eq_false_2 by (apply Qc_of_Z_inj_nonzero; lia).
  split; [reflexivity |]. unfold spectrum_value. cbn [in_unit].
  apply Qc_div_unit.
  - replace 0%Qc with (Qc_of_Z 0) by Qc_lra. apply Qc_of_Z_le. lia.
  - apply Qc_of_Z_le. lia.
  - apply Qc_of_Z_pos. lia.
Qed.

(** X14.  The first frame.  For a sensor with at least one element on each
    axis, a palette of 1 to 1000 steps and a grid area with room for a
    cell of one pixel, the display constructed for the grid axis of the
    camera renders the start-up spectrum of the camera without an
    exception, as a ramp: the cell of group index [i] shows the palette
    step [k(i) / palette_size] for a whole [0 <= k(i) <= palette_size] less
    than one step away from [(n - i) / n * palette_size], [n] being the
    number of cells; the first cell shows the last step of the palette and
    the steps never increase with the group index. *)
Theorem startup_spectrum_renders (sensor_axis : nat * nat) (temp_range_c : Qc * Qc)
    (auto_focus interpolate : bool) (grid_size grid_offset : nat * nat)
    (palette_size : Z) :
  let camera := Camera.init_axis sensor_axis temp_range_c auto_focus interpolate in
  let grid_axis := Camera._grid_axis camera in
  let n := grid_axis.1 * grid_axis.2 in
  1 <= sensor_axis.1 -> 1 <= sensor_axis.2 ->
  (0 < palette_size <= 1000)%Z ->
  grid_axis.1 <= grid_size.1 -> grid_axis.2 <= grid_size.2 ->
  exists display display' (k : nat -> Z),
    init grid_size grid_offset grid_axis palette_size = Ok display /\
    update_image_frame index_to_rgb display (Camera._grid_data camera) false
    = Ok display' /\
    k 0 = palette_size /\
    (forall i j, i <= j -> (k j <= k i)%Z) /\
    forall _col _row,
      _col < grid_axis.1 -> _row < grid_axis.2 ->
      let i := _col * grid_axis.2 + _row in
      (0 <= k i <= palette_size)%Z /\
      (Qc_of_Z (k i) - 1 < spectrum_value n i * Qc_of_Z palette_size)%Qc /\
      (spectrum_value n i * Qc_of_Z palette_size < Qc_of_Z (k i) + 1)%Qc /\
      stored_fill display' i
      = Some (index_to_rgb (Fin (Qc_of_Z (k i) / Qc_of_Z palette_size)%Qc)).
Proof.
  intros camera grid_axis n H0 H1 Hp Hfit0 Hfit1.
  assert (Hg : 1 <= grid_axis.1 /\ 1 <= grid_axis.2).
  { unfold grid_axis, camera, Camera.init_axis. cbn [Camera._grid_axis].
    destruct interpolate; cbn [fst snd]; lia. }
  assert (Hn : 1 <= n) by (unfold n; nia).
  destruct (init_Ok grid_size grid_offset grid_axis palette_size) as [display Hinit];
    [lia | lia | |].
  { assert (1 <= grid_size.1 / grid_axis.1)
      by (apply Nat.div_le_lower_bound; lia).
    assert (1 <= grid_size.2 / grid_axis.2)
      by (apply Nat.div_le_lower_bound; lia).
    lia. }
  destruct (init_length _ _ _ _ _ Hinit) as (Ha & Hps & _).
  pose proof (init_ready _ _ _ _ _ Hinit ltac:(lia)) as Hready.
  assert (Hcell : forall c r, c < grid_axis.1 -> r < grid_axis.2 ->
            np.get2 (Camera._grid_data camera) c r
            = Some (Fin (spectrum_value n (c * grid_axis.2 + r)))).
  { intros c r Hc Hr. unfold camera at 1, Camera.init_axis.
    cbn [Camera._grid_data]. fold grid_axis. fold n.
    rewrite get2_reshape_range by assumption.
    f_equal. apply spectrum_cell. exact Hn. }
  destruct (update_image_frame_covered index_to_rgb display
              (Camera._grid_data camera) false Hready) as [display' Hframe].
  { intros c r Hc Hr. rewrite Ha in Hc, Hr. rewrite Hcell by assumption. eauto. }
  assert (Hnpos : (0 < Qc_of_Z (Z.of_nat n))%Qc) by (apply Qc_of_Z_pos; lia).
  assert (Hpspos : (0 ≤ Qc_of_Z palette_size)%Qc)
    by (apply Qclt_le_weak, Qc_of_Z_pos; lia).
  exists display, display',
    (fun i => Float.round_half_even (spectrum_value n i * Qc_of_Z palette_size)).
  split; [exact Hinit |]. split; [exact Hframe |]. split.
  { unfold spectrum_value. rewrite Nat.sub_0_r. unfold Qcdiv.
    rewrite Qcmult_inv_r, Qcmult_1_l; [apply round_half_even_int |].
    intros E. rewrite E in Hnpos. exact (Qclt_not_le _ _ Hnpos (Qcle_refl _)). }
  split.
  { intros i j Hij. apply round_half_even_mono. unfold spectrum_value.
    apply Qc_div_mul_mono; [apply Qc_of_Z_le; lia | exact Hnpos | exact Hpspos]. }
  intros _col _row Hc Hr i.
  destruct (spectrum_cell n i Hn) as [_ [Hlo Hhi]].
  destruct (round_half_even_bounds (spectrum_value n i * Qc_of_Z palette_size))
    as [Rlo Rhi].
  split.
  { split.
    - rewrite <- (round_half_even_int 0). apply round_half_even_mono.
      rewrite Z2Qc_inj_0. now apply Qcmult_nonneg_nonneg.
    - rewrite <- (round_half_even_int palette_size) at 2.
      apply round_half_even_mono.
      rewrite <- (Qcmult_1_l (Qc_of_Z palette_size)) at 2.
      now apply Qcmult_le_compat_r. }
  split; [clear - Rlo; Qc_lra |]. split; [clear - Rhi; Qc_lra |].
  destruct (rendered_cells index_to_rgb _ _ _ _ Hframe _row _col)
    as (v & q & Hv & Hq & Hfill); [now rewrite Ha | now rewrite Ha |].
  unfold source_row in Hv. rewrite Hcell in Hv by assumption.
  injection Hv as <-. rewrite quantize_Fin in Hq by (rewrite Hps; lia).
  injection Hq as <-. unfold group_index in Hfill. rewrite Ha, Hps in Hfill.
  exact Hfill.
Qed.

End Startup.

Lemma startup_spectrum_renders_witness :
  exists display display' (k : nat -> Z),
    Display.init (240, 240) (0, 0) (3, 3) 100 = Ok display /\
    Display.update_image_frame gray_ramp display
      (Camera._grid_data (Camera.init_axis (2, 2) (Qc_of_Z 0, Qc_of_Z 80) true true))
      false = Ok display' /\
    k 0%nat = 100%Z /\
    stored_fill display' 0
    = Some (gray_ramp (Fin (Qc_of_Z (k 0%nat) / Qc_of_Z 100)%Qc)).
Proof.
  destruct (startup_spectrum_renders gray_ramp (2, 2) (Qc_of_Z 0, Qc_of_Z 80)
              true true (240, 240) (0, 0) 100)
    as (display & display' & k & Hinit & Hframe & Hk0 & _ & Hcells);
    [simpl; lia | simpl; lia | lia | simpl; lia | simpl; lia |].
  exists display, display', k. split; [exact Hinit |]. split; [exact Hframe |].
  split; [exact Hk0 |].
  destruct (Hcells 0 0) as (_ & _ & _ & Hfill); [simpl; lia | simpl; lia |].
  exact Hfill.
Defined.
(** ** The histogram display *)

Section HistogramCounts.
Import Display.

Lemma histogram_of_as_loop self grid_data :
  histogram_of self grid_data
  = for_each (fun rc => histogram_body self grid_data rc.1 rc.2)
      (flat_map (fun _row => map (pair _row) (range (_grid_axis self).1))
         (range (_grid_axis self).2))
      (replicate (_grid_axis self).1 0%Qc).
Proof. unfold histogram_of. apply for_each_nested. Qed.

Lemma sum_insert (l : list Qc) (i : nat) (c x : Qc) :
  l !! i = Some c -> np.sum (<[i := x]> l) = (np.sum l - c + x)%Qc.
Proof.
  revert i. induction l as [| y l IH]; intros [| i] Hi; try discriminate.
  - injection Hi as ->. simpl. ring.
  - simpl in Hi |- *. rewrite (IH _ Hi). ring.
Qed.

Lemma histogram_body_Ok self grid_data _row _col h h' :
  histogram_body self grid_data _row _col h = Ok h' ->
  length h' = length h /\
  np.sum h' = (np.sum h + 1)%Qc /\
  (Forall (fun x => (0 ≤ x)%Qc) h -> Forall (fun x => (0 ≤ x)%Qc) h').
Proof.
  unfold histogram_body.
  destruct (from_option _ _ _) as [x |]; [| discriminate]. cbn [mbind result_bind].
  destruct (Float.to_int _) as [z |]; [| discriminate]. cbn [mbind result_bind].
  destruct (int_index _ _) as [i |]; [| discriminate]. cbn [mbind result_bind].
  unfold getitem. destruct (h !! i) as [count |] eqn:Hi; [| discriminate].
  cbn [mbind result_bind]. intros [= <-].
  split; [apply length_insert |]. split.
  - rewrite (sum_insert _ _ _ _ Hi). ring.
  - intros Hpos. apply Forall_insert; [exact Hpos |].
    rewrite Forall_lookup in Hpos. specialize (Hpos _ _ Hi).
    cbv beta in Hpos. Qc_lra.
Qed.

Lemma histogram_loop self grid_data cells h h' :
  for_each (fun rc => histogram_body self grid_data rc.1 rc.2) cells h = Ok h' ->
  length h' = length h /\
  np.sum h' = (np.sum h + Qc_of_Z (Z.of_nat (length cells)))%Qc /\
  (Forall (fun x => (0 ≤ x)%Qc) h -> Forall (fun x => (0 ≤ x)%Qc) h').
Proof.
  revert h. induction cells as [| rc cells IH]; intros h.
  - cbn [for_each]. intros [= <-]. split; [reflexivity |]. split; [| auto].
    cbn [length]. change (Z.of_nat 0) with 0%Z. Qc_lra.
  - cbn [for_each].
    destruct (histogram_body _ _ _ _ h) as [h1 |] eqn:Hstep; [| discriminate].
    cbn [mbind result_bind]. intros Hrest.
    apply histogram_body_Ok in Hstep as (Hl1 & Hs1 & Hp1).
    apply IH in Hrest as (Hl & Hs & Hp).
    split; [congruence |]. split; [| auto].
    rewrite Hs, Hs1. cbn [length]. rewrite Nat2Z.inj_succ.
    Qc_to_Q. unfold Z.succ. rewrite inject_Z_plus. change (inject_Z 1) with 1%Q.
    lra.
Qed.

Lemma sum_replicate_0 (n : nat) : np.sum (replicate n 0%Qc) = 0%Qc.
Proof. induction n as [| n IH]; simpl; [reflexivity |]. rewrite IH. ring. Qed.

(** X15.  The histogram counts every cell once.  When the first loop of
    [update_histo_frame] completes, the histogram has one bin for each of
    the [grid_axis[0]] columns, no bin is negative, and the bins add up to
    the number of cells, [grid_axis[0] * grid_axis[1]]. *)
Theorem histogram_counts_cells self grid_data histogram :
  histogram_of self grid_data = Ok histogram ->
  length histogram = (_grid_axis self).1 /\
  Forall (fun count => (0 ≤ count)%Qc) histogram /\
  np.sum histogram
  = Qc_of_Z (Z.of_nat ((_grid_axis self).1 * (_grid_axis self).2)).
Proof.
  rewrite histogram_of_as_loop. intros Hloop.
  apply histogram_loop in Hloop as (Hlen & Hsum & Hpos).
  rewrite length_replicate in Hlen. split; [exact Hlen |]. split.
  - apply Hpos. apply Forall_replicate. apply Qcle_refl.
  - rewrite Hsum, sum_replicate_0.
    rewrite (flat_map_constant_length (c := (_grid_axis self).1)).
    + unfold range. rewrite length_seq.
      replace ((_grid_axis self).2 * (_grid_axis self).1)
        with ((_grid_axis self).1 * (_grid_axis self).2) by lia.
      ring.
    + intros y _. unfold range. now rewrite length_map, length_seq.
Qed.

Lemma histogram_counts_cells_witness :
  exists histogram,
    histogram_of display_3x1 ramp_3x1 = Ok histogram /\
    length histogram = 3 /\
    np.sum histogram = Qc_of_Z 3.
Proof.
  destruct (histogram_of display_3x1 ramp_3x1) as [histogram |] eqn:E;
    [| vm_compute in E; discriminate E].
  destruct (histogram_counts_cells display_3x1 ramp_3x1 histogram E)
    as (Hlen & _ & Hsum).
  exists histogram. split; [reflexivity |]. split; [exact Hlen |]. exact Hsum.
Defined.

End HistogramCounts.

Section HistogramFrames.
Import Display.
Variable index_to_rgb : float -> Z.

Lemma for_each_ext_inv {S X} (P : S -> Prop) (body body' : X -> S -> result S)
    xs s :
  (forall x t t', P t -> body' x t = Ok t' -> P t') ->
  (forall x t, x ∈ xs -> P t -> body x t = body' x t) ->
  P s -> for_each body xs s = for_each body' xs s.
Proof.
  intros Hinv. revert s. induction xs as [| x xs IH]; intros s Hext Hs;
    [reflexivity |].
  cbn [for_each]. rewrite (Hext x s ltac:(left) Hs).
  destruct (body' x s) as [t |] eqn:Hbody; [| reflexivity].
  cbn [mbind result_bind]. apply IH.
  - intros y u Hy. apply Hext. now right.
  - eapply Hinv; eauto.
Qed.

(** A loop of assignments to fill colours, at indices inside the image
    group. *)
Lemma set_fill_loop {X} (idx : X -> nat) (colour : X -> Z) (cells : list X) self :
  (forall x, x ∈ cells -> idx x < length (image_group self)) ->
  exists self',
    for_each (fun x s => set_fill s (idx x) (colour x)) cells self = Ok self' /\
    same_layout self self' /\
    fill_writes self' = fill_writes self + length cells /\
    (forall k, k ∉ map idx cells -> image_group self' !! k = image_group self !! k) /\
    (NoDup (map idx cells) ->
     forall x, x ∈ cells -> stored_fill self' (idx x) = Some (colour x)).
Proof.
  revert self. induction cells as [| x cells IH]; intros self Hidx.
  - exists self. split; [reflexivity |]. split; [apply same_layout_refl |].
    split; [simpl; lia |]. split; [auto |]. intros _ y Hy. inversion Hy.
  - cbn [for_each].
    destruct (lookup_lt_is_Some_2 _ _ (Hidx x ltac:(left))) as [cell Hcell].
    destruct (set_fill self (idx x) (colour x)) as [s1 |] eqn:Hstep.
    2:{ unfold set_fill, getitem in Hstep. rewrite Hcell in Hstep. discriminate. }
    pose proof (set_fill_layout _ _ _ _ Hstep) as Hlay1.
    pose proof (set_fill_Ok _ _ _ _ Hstep) as (_ & _ & Hw1 & Hs1 & Hf1).
    assert (Hlen1 : length (image_group s1) = length (image_group self)).
    { destruct Hlay1 as (_ & _ & He). symmetry. eapply Forall2_length, He. }
    destruct (IH s1) as (self' & Hloop & Hlay & Hw & Hf & Hs).
    { intros y Hy. rewrite Hlen1. apply Hidx. now right. }
    exists self'. cbn [mbind result_bind]. split; [exact Hloop |].
    split; [eapply same_layout_trans; eauto |].
    split; [cbn [length]; lia |]. split.
    + intros k Hk. cbn [map] in Hk. apply not_elem_of_cons in Hk as [Hne Hk].
      rewrite (Hf k Hk). now apply Hf1.
    + intros Hnodup y Hy. cbn [map] in Hnodup.
      apply NoDup_cons in Hnodup as [Hfresh Hnodup].
      apply elem_of_cons in Hy as [-> | Hy].
      * rewrite <- Hs1. apply stored_fill_lookup, Hf, Hfresh.
      * now apply Hs.
Qed.

Lemma py_truediv_Fin (x y : Qc) :
  y <> 0%Qc -> Float.py_truediv (Fin x) (Fin y) = Ok (Fin (x / y)%Qc).
Proof.
  intros Hy. unfold Float.py_truediv, Float.div, Float.Qc_is_zero.
  now rewrite !bool_decide_eq_false_2 by exact Hy.
Qed.

(** The body of the paint loop is one assignment. *)
Lemma paint_body self0 histogram (scale : Qc) _col _row self :
  _grid_axis self = _grid_axis self0 ->
  (0 < scale)%Qc -> 1 <= (_grid_axis self0).2 ->
  _col < length histogram ->
  (count ← getitem histogram _col;
   bar ← Float.py_truediv (Fin count) (Fin scale);
   let group_index := _row * (_grid_axis self).2 + _col in
   if Float.ltb
        (Float.of_int (Z.of_nat (_grid_axis self).1 - 1 - Z.of_nat _row)) bar
   then
     position ← Float.py_truediv (Float.of_nat _col)
                  (Float.of_nat (_grid_axis self).2);
     set_fill self group_index (index_to_rgb (Float.round position 3))
   else set_fill self group_index BLACK)
  = set_fill self (_row * (_grid_axis self0).2 + _col)
      (bar_color index_to_rgb self0 histogram scale _col _row).
Proof.
  intros Ha Hscale Hrows Hcol. rewrite Ha.
  destruct (lookup_lt_is_Some_2 _ _ Hcol) as [count Hcount].
  unfold getitem. rewrite Hcount, bind_Ok. cbv beta.
  rewrite py_truediv_Fin
    by (intros ->; exact (Qclt_not_le _ _ Hscale (Qcle_refl _))).
  rewrite bind_Ok. cbv beta zeta.
  unfold bar_color, bar_reaches. rewrite Hcount. cbn [default from_option id].
  change (Float.ltb (Float.of_int ?z) (Fin ?b))
    with (bool_decide (Qc_of_Z z < b)%Qc).
  case_bool_decide; [| reflexivity].
  unfold Float.of_nat, Float.of_int.
  rewrite py_truediv_Fin by (apply Qc_of_Z_inj_nonzero; lia).
  now rewrite bind_Ok.
Qed.

Lemma update_histo_frame_as_loop self grid_data histogram scale :
  histogram_of self grid_data = Ok histogram ->
  histo_scale_of self histogram = Ok (Fin scale) ->
  (0 < scale)%Qc -> 1 <= (_grid_axis self).2 ->
  update_histo_frame index_to_rgb self grid_data
  = for_each (fun cr s =>
                set_fill s (cr.2 * (_grid_axis self).2 + cr.1)
                  (bar_color index_to_rgb self histogram scale cr.1 cr.2))
      (frame_cells self) self.
Proof.
  intros Hh Hscale Hpos Hrows. unfold update_histo_frame.
  rewrite Hh, bind_Ok. cbv beta. rewrite Hscale, bind_Ok. cbv beta.
  rewrite for_each_nested. fold (frame_cells self).
  apply (for_each_ext_inv (fun s => _grid_axis s = _grid_axis self)).
  - intros cr t t' Ht Hstep. apply set_fill_Ok in Hstep as (Ha & _). congruence.
  - intros [c r] t Hcr Ht. cbn [fst snd].
    apply elem_of_frame_cells in Hcr as [Hc _].
    apply paint_body; try assumption.
    now rewrite (histogram_of_length _ _ _ Hh).
  - reflexivity.
Qed.

(** A number is counted in one of the bins. *)
Lemma histogram_body_Fin self grid_data _row _col (x : Qc) h :
  np.get2 grid_data _col _row = Some (Fin x) ->
  1 <= (_grid_axis self).1 -> length h = (_grid_axis self).1 ->
  exists h', histogram_body self grid_data _row _col h = Ok h' /\
             length h' = (_grid_axis self).1.
Proof.
  intros Hx Hbins Hlen. unfold histogram_body.
  rewrite Hx. cbn [from_option]. rewrite bind_Ok. cbv beta.
  destruct (map_range_Fin x (Qc_of_Z 0) (Qc_of_Z 1) (Qc_of_Z 0)
              (Qc_of_Z (Z.of_nat (_grid_axis self).1 - 1)))
    as (m & Hm & Hm0 & Hm1).
  { intros E. apply Z2Qc_inj in E. discriminate E. }
  { apply Qc_of_Z_le. lia. }
  unfold Float.of_int. rewrite Hm.
  rewrite Z2Qc_inj_0 in Hm0.
  rewrite to_int_nonneg by exact Hm0. rewrite bind_Ok. cbv beta.
  destruct (Qfloor_between m _ Hm0 Hm1) as [Hf0 Hf1].
  unfold int_index. rewrite bool_decide_eq_true_2 by lia.
  rewrite bind_Ok. cbv beta.
  destruct (lookup_lt_is_Some_2 h (Z.to_nat (Qfloor m))) as [count Hcount];
    [lia |].
  unfold getitem. rewrite Hcount, bind_Ok. cbv beta.
  eexists. split; [reflexivity |]. now rewrite length_insert.
Qed.

(** A cell that is not a number stops the histogram. *)
Lemma histogram_body_NaN self grid_data _row _col h :
  np.get2 grid_data _col _row = Some NaN ->
  histogram_body self grid_data _row _col h = Raise ValueError.
Proof.
  intros Hx. unfold histogram_body. rewrite Hx. cbn [from_option].
  rewrite bind_Ok. cbv beta.
  assert (Hmap : forall hi,
            map_range NaN (Float.of_int 0) (Float.of_int 1) (Float.of_int 0)
              (Float.of_int hi) = NaN).
  { intros hi. unfold map_range, Float.of_int.
    change (Float.sub (Fin ?a) (Fin ?b)) with (Fin (a + - b)%Qc).
    rewrite bool_decide_eq_false_2
      by (intros E; apply Fin_inj in E; revert E; decide_by_computation).
    unfold Float.py_min, Float.py_max. cbn [Float.sub Float.add Float.opp
      Float.div Float.mul Float.ltb].
    destruct (Float.leb _ _); reflexivity. }
  now rewrite Hmap.
Qed.

Lemma histogram_loop_Fin self grid_data cells h :
  1 <= (_grid_axis self).1 -> length h = (_grid_axis self).1 ->
  Forall (fun rc => exists x : Qc, np.get2 grid_data rc.2 rc.1 = Some (Fin x)) cells ->
  exists h',
    for_each (fun rc => histogram_body self grid_data rc.1 rc.2) cells h = Ok h'.
Proof.
  intros Hbins. revert h. induction cells as [| rc cells IH]; intros h Hlen Hall.
  - simpl. eauto.
  - apply Forall_cons in Hall as [[x Hx] Hall]. cbn [for_each].
    destruct (histogram_body_Fin self grid_data rc.1 rc.2 x h Hx Hbins Hlen)
      as (h1 & -> & Hlen1).
    rewrite bind_Ok. now apply IH.
Qed.

Lemma histogram_loop_NaN self grid_data cells h :
  1 <= (_grid_axis self).1 -> length h = (_grid_axis self).1 ->
  Forall (fun rc => (exists x : Qc, np.get2 grid_data rc.2 rc.1 = Some (Fin x))
                    \/ np.get2 grid_data rc.2 rc.1 = Some NaN) cells ->
  Exists (fun rc => np.get2 grid_data rc.2 rc.1 = Some NaN) cells ->
  for_each (fun rc => histogram_body self grid_data rc.1 rc.2) cells h
  = Raise ValueError.
Proof.
  intros Hbins. revert h. induction cells as [| rc cells IH]; intros h Hlen Hall Hex.
  - inversion Hex.
  - apply Forall_cons in Hall as [Hrc Hall]. cbn [for_each].
    destruct Hrc as [[x Hx] | Hnan].
    + destruct (histogram_body_Fin self grid_data rc.1 rc.2 x h Hx Hbins Hlen)
        as (h1 & -> & Hlen1).
      rewrite bind_Ok. apply IH; [exact Hlen1 | exact Hall |].
      apply Exists_cons in Hex as [Hbad | Hex]; [congruence | exact Hex].
    + now rewrite (histogram_body_NaN _ _ _ _ _ Hnan).
Qed.

Lemma elem_of_histogram_cells self r c :
  (r, c) ∈ flat_map (fun _row => map (pair _row) (range (_grid_axis self).1))
             (range (_grid_axis self).2)
  <-> r < (_grid_axis self).2 /\ c < (_grid_axis self).1.
Proof.
  rewrite list_elem_of_In, in_flat_map. unfold range. split.
  - intros (r' & Hr' & Hin). apply in_map_iff in Hin as (c' & [= <- <-] & Hc').
    apply in_seq in Hr', Hc'. lia.
  - intros [Hr Hc]. exists r. split; [apply in_seq; lia |].
    apply in_map, in_seq. lia.
Qed.

(** The divisor of the bar heights, with two bins or more. *)
Lemma histo_scale_value self histogram :
  2 <= (_grid_axis self).1 -> length histogram = (_grid_axis self).1 ->
  exists top scale,
    is_maximum top histogram /\
    histo_scale_of self histogram = Ok (Fin scale) /\ (0 < scale)%Qc /\
    scale = (let ratio := (top / Qc_of_Z (Z.of_nat (_grid_axis self).1 - 1))%Qc in
             if bool_decide (0 < ratio)%Qc then ratio else 1%Qc).
Proof.
  intros Hbins Hlen.
  destruct (np.max_of histogram) as [top |] eqn:Htop.
  2:{ destruct histogram; [simpl in Hlen; lia | discriminate]. }
  pose proof (max_of_spec _ _ Htop) as Hmax.
  unfold histo_scale_of. rewrite Htop, bind_Ok. cbv beta.
  set (d := Qc_of_Z (Z.of_nat (_grid_axis self).1 - 1)).
  assert (Hd : d <> 0%Qc) by (apply Qc_of_Z_inj_nonzero; lia).
  unfold Float.of_int at 1. fold d. rewrite (py_truediv_Fin _ _ Hd), bind_Ok.
  cbv beta. exists top. cbv zeta.
  unfold Float.leb, Float.ltb, Float.Qc_ltb, Float.of_int.
  rewrite Z2Qc_inj_0. case_bool_decide as Hpos; cbn [negb].
  - exists (top / d)%Qc. auto.
  - exists 1%Qc. rewrite Z2Qc_inj_1. split; [exact Hmax |].
    split; [reflexivity |]. split; [reflexivity | reflexivity].
Qed.

(** The rows a bar reaches are the rows from [bar_top] on. *)
Lemma bar_reaches_top (bins : nat) (count scale : Qc) (_row : nat) :
  bar_reaches bins count scale _row
  = bool_decide (bar_top bins count scale <= _row).
Proof.
  unfold bar_reaches, bar_top. apply bool_decide_ext.
  set (q := (count / scale)%Qc).
  pose proof (Qfloor_le (Qc_of_Z (Z.of_nat bins - 1) - q)%Qc) as Hlo.
  pose proof (Qlt_floor (Qc_of_Z (Z.of_nat bins - 1) - q)%Qc) as Hhi.
  set (fl := Qfloor (Qc_of_Z (Z.of_nat bins - 1) - q)%Qc) in *.
  replace (Z.of_nat bins - 1 - Z.of_nat _row)%Z
    with (Z.of_nat bins - 1 + - Z.of_nat _row)%Z by lia.
  rewrite Z2Qc_inj_add, Z2Qc_inj_opp.
  rewrite inject_Z_plus in Hhi. change (inject_Z 1) with 1%Q in Hhi.
  split.
  - intros Hreach.
    assert (fl + 1 <= Z.of_nat _row)%Z; [| lia].
    assert (fl <= Z.of_nat _row - 1)%Z; [| lia].
    apply inject_Z_lt_1. unfold Z.sub. rewrite inject_Z_plus, inject_Z_opp.
    change (inject_Z 1) with 1%Q. Qc_lra.
  - intros Htop.
    assert (Hz : (fl + 1 <= Z.of_nat _row)%Z) by lia.
    rewrite Zle_Qle, inject_Z_plus in Hz. change (inject_Z 1) with 1%Q in Hz.
    Qc_lra.
Qed.

Lemma bar_reaches_mono (bins : nat) (count count' scale : Qc) (_row : nat) :
  (0 < scale)%Qc -> (count ≤ count')%Qc ->
  bar_reaches bins count scale _row = true ->
  bar_reaches bins count' scale _row = true.
Proof.
  unfold bar_reaches. intros Hscale Hle Hreach.
  apply bool_decide_eq_true_1 in Hreach. apply bool_decide_eq_true_2.
  eapply Qclt_le_trans; [exact Hreach |].
  unfold Qcdiv. apply Qcmult_le_compat_r; [exact Hle |].
  apply Qclt_le_weak, Qcinv_pos, Hscale.
Qed.

(** The bottom row is reached exactly by the bars of the bins that are
    not empty. *)
Lemma bar_reaches_bottom (bins : nat) (count scale : Qc) :
  1 <= bins -> (0 < scale)%Qc ->
  bar_reaches bins count scale (bins - 1) = true <-> (0 < count)%Qc.
Proof.
  intros Hbins Hscale. unfold bar_reaches.
  replace (Z.of_nat bins - 1 - Z.of_nat (bins - 1))%Z with 0%Z by lia.
  rewrite Z2Qc_inj_0, bool_decide_eq_true.
  pose proof (Qcinv_pos _ Hscale) as Hinv. unfold Qcdiv. split.
  - intros Hq. apply Qcnot_le_lt. intros Hle.
    apply (Qclt_not_le _ _ Hq).
    rewrite <- (Qcmult_0_l (/ scale)).
    apply Qcmult_le_compat_r; [exact Hle | now apply Qclt_le_weak].
  - intros Hc. now apply Qcmult_pos_pos.
Qed.

Lemma histogram_of_sum self grid_data histogram :
  histogram_of self grid_data = Ok histogram ->
  Forall (fun count => (0 ≤ count)%Qc) histogram /\
  np.sum histogram
  = Qc_of_Z (Z.of_nat ((_grid_axis self).2 * (_grid_axis self).1)).
Proof.
  rewrite histogram_of_as_loop. intros Hloop.
  apply histogram_loop in Hloop as (_ & Hsum & Hpos). split.
  - apply Hpos. apply Forall_replicate. apply Qcle_refl.
  - rewrite Hsum, sum_replicate_0.
    rewrite (flat_map_constant_length (c := (_grid_axis self).1)).
    + unfold range. rewrite length_seq. ring.
    + intros y _. unfold range. now rewrite length_map, length_seq.
Qed.

(** The fullest bin is not empty, and its bar reaches the second row from
    the top. *)
Lemma fullest_bar self grid_data histogram top scale :
  2 <= (_grid_axis self).1 -> 1 <= (_grid_axis self).2 ->
  histogram_of self grid_data = Ok histogram ->
  is_maximum top histogram ->
  scale = (let ratio := (top / Qc_of_Z (Z.of_nat (_grid_axis self).1 - 1))%Qc in
           if bool_decide (0 < ratio)%Qc then ratio else 1%Qc) ->
  (0 < top)%Qc /\ bar_reaches (_grid_axis self).1 top scale 1 = true.
Proof.
  intros Hbins Hrows Hh [Hin Hmax] Hscale.
  destruct (histogram_of_sum _ _ _ Hh) as [Hpos Hsum].
  assert (Htop : (0 < top)%Qc).
  { apply Qcnot_le_lt. intros Hle.
    destruct (sum_bounds histogram 0%Qc 0%Qc) as [_ Hhi].
    { rewrite Forall_forall in Hpos. apply Forall_forall. intros x Hx.
      split; [now apply Hpos |].
      eapply Qcle_trans; [now apply Hmax | exact Hle]. }
    rewrite Hsum in Hhi.
    assert (Hcells : (0 < Qc_of_Z (Z.of_nat ((_grid_axis self).2 * (_grid_axis self).1)))%Qc)
      by (apply Qc_of_Z_pos; nia).
    rewrite Qcmult_0_r in Hhi. exact (Qclt_not_le _ _ Hcells Hhi). }
  split; [exact Htop |].
  set (d := Qc_of_Z (Z.of_nat (_grid_axis self).1 - 1)) in *.
  assert (Hd : (0 < d)%Qc) by (apply Qc_of_Z_pos; lia).
  assert (Hratio : (0 < top / d)%Qc).
  { unfold Qcdiv. apply Qcmult_pos_pos; [exact Htop | now apply Qcinv_pos]. }
  cbv zeta in Hscale. rewrite bool_decide_eq_true_2 in Hscale by exact Hratio.
  subst scale. unfold bar_reaches. apply bool_decide_eq_true_2.
  assert (Hd0 : d <> 0%Qc)
    by (intros E; rewrite E in Hd; exact (Qclt_not_le _ _ Hd (Qcle_refl _))).
  assert (Htop0 : top <> 0%Qc)
    by (intros E; rewrite E in Htop; exact (Qclt_not_le _ _ Htop (Qcle_refl _))).
  replace (top / (top / d))%Qc with d by (field; auto).
  unfold d. change (Z.of_nat 1) with 1%Z.
  rewrite (Z2Qc_inj_sub (Z.of_nat (_grid_axis self).1 - 1) 1), Z2Qc_inj_1.
  generalize (Qc_of_Z (Z.of_nat (_grid_axis self).1 - 1)). intros x. Qc_lra.
Qed.

Lemma round3_near (x : Qc) :
  (x - 1 / Qc_of_Z 1000 < round3 x)%Qc /\ (round3 x < x + 1 / Qc_of_Z 1000)%Qc.
Proof.
  unfold round3.
  destruct (round_half_even_bounds (x * Qc_of_Z 1000)) as [Rlo Rhi].
  generalize dependent (Float.round_half_even (x * Qc_of_Z 1000)).
  intros r Rlo Rhi. split; Qc_lra.
Qed.


Lemma update_histo_frame_NaN self grid_data :
  1 <= (_grid_axis self).1 ->
  (forall c r, c < (_grid_axis self).1 -> r < (_grid_axis self).2 ->
     (exists x : Qc, np.get2 grid_data c r = Some (Fin x))
     \/ np.get2 grid_data c r = Some NaN) ->
  (exists c r, c < (_grid_axis self).1 /\ r < (_grid_axis self).2 /\
               np.get2 grid_data c r = Some NaN) ->
  update_histo_frame index_to_rgb self grid_data = Raise ValueError.
Proof.
  intros Hbins Hgrid (c & r & Hc & Hr & Hnan).
  unfold update_histo_frame. rewrite histogram_of_as_loop.
  rewrite histogram_loop_NaN; [reflexivity | exact Hbins | | |].
  - apply length_replicate.
  - apply Forall_forall. intros [r' c'] Hrc.
    apply elem_of_histogram_cells in Hrc as [Hr' Hc']. now apply Hgrid.
  - apply Exists_exists. exists (r, c). split; [| exact Hnan].
    now apply elem_of_histogram_cells.
Qed.

(** X17.  When the histogram cannot be shown.  On a grid whose values are
    numbers or NaN, [update_histo_frame] raises ValueError as soon as one
    value inside the configured axis is NaN ([int()] of the re-mapped
    value); and with a single column, [grid_axis[0] = 1], a grid of numbers
    makes it raise ZeroDivisionError (the scale divides by
    [grid_axis[0] - 1]). *)
Theorem update_histo_frame_failures self grid_data :
  (1 <= (_grid_axis self).1 ->
   (forall c r, c < (_grid_axis self).1 -> r < (_grid_axis self).2 ->
      (exists x : Qc, np.get2 grid_data c r = Some (Fin x))
      \/ np.get2 grid_data c r = Some NaN) ->
   (exists c r, c < (_grid_axis self).1 /\ r < (_grid_axis self).2 /\
                np.get2 grid_data c r = Some NaN) ->
   update_histo_frame index_to_rgb self grid_data = Raise ValueError) /\
  ((_grid_axis self).1 = 1 ->
   (forall c r, c < (_grid_axis self).1 -> r < (_grid_axis self).2 ->
      exists x : Qc, np.get2 grid_data c r = Some (Fin x)) ->
   update_histo_frame index_to_rgb self grid_data = Raise ZeroDivisionError).
Proof.
  split; [apply update_histo_frame_NaN |].
  intros Hone Hgrid.
  destruct (histogram_loop_Fin self grid_data
              (flat_map (fun _row => map (pair _row) (range (_grid_axis self).1))
                 (range (_grid_axis self).2))
              (replicate (_grid_axis self).1 0%Qc)) as [histogram Hh].
  { lia. }
  { apply length_replicate. }
  { apply Forall_forall. intros [r c] Hrc.
    apply elem_of_histogram_cells in Hrc as [Hr Hc]. now apply Hgrid. }
  rewrite <- histogram_of_as_loop in Hh.
  pose proof (histogram_of_length _ _ _ Hh) as Hlen.
  unfold update_histo_frame. rewrite Hh, bind_Ok. cbv beta.
  unfold histo_scale_of.
  destruct (np.max_of histogram) as [top |] eqn:Htop.
  2:{ destruct histogram; [simpl in Hlen; lia | discriminate]. }
  rewrite bind_Ok. cbv beta. rewrite Hone.
  change (Z.of_nat 1 - 1)%Z with 0%Z.
  unfold Float.py_truediv, Float.of_int, Float.Qc_is_zero.
  rewrite bool_decide_eq_true_2 by apply Z2Qc_inj_0. reflexivity.
Qed.

End HistogramFrames.


Lemma update_histo_frame_failures_witness :
  Display.update_histo_frame gray_ramp display_2x2 nan_2x2 = Raise ValueError /\
  Display.update_histo_frame gray_ramp display_1x2 columns_2x2
  = Raise ZeroDivisionError.
Proof.
  destruct (update_histo_frame_failures gray_ramp display_2x2 nan_2x2) as [Hnan _].
  destruct (update_histo_frame_failures gray_ramp display_1x2 columns_2x2)
    as [_ Hone].
  split.
  - apply Hnan.
    + simpl. lia.
    + intros c r Hc Hr. simpl in Hc, Hr.
      destruct c as [| [| c]]; [| | lia];
        (destruct r as [| [| r]]; [| | lia]);
        first [right; reflexivity | left; eexists; reflexivity].
    + exists 0, 0. split; [simpl; lia |]. split; [simpl; lia | reflexivity].
  - apply Hone.
    + reflexivity.
    + intros c r Hc Hr. simpl in Hc, Hr.
      destruct c as [| c]; [| lia].
      destruct r as [| [| r]]; [| | lia]; eexists; reflexivity.
Defined.
(** ** One acquisition, end to end *)

Section Acquisition.
Import np Camera.

(** The outcome of [acquire] on a frame of the shape of the sensor. *)
Lemma acquire_Ok_explicit (self : camera) (sensor : list (list Qc)) (W H : nat) :
  0 < W -> 0 < H -> has_shape sensor W H ->
  (_interpolate self = true ->
   has_shape (_grid_data self) (2 * W - 1) (2 * H - 1)) ->
  let data :=
    flip (flip (clip sensor (_range_min_c self) (_range_max_c self)) 0) 1 in
  exists mn mx grid self',
    is_minimum mn (concat data) /\ is_maximum mx (concat data) /\
    let normalized :=
      if _auto_focus self then normalize data mn mx
      else normalize data (_range_min_c self) (_range_max_c self) in
    acquire self sensor = Ok (self', grid) /\
    statistics self' = (mn, mean data, mx) /\
    has_shape data W H /\ has_shape normalized W H /\
    if _interpolate self
    then upscale normalized (_grid_data self) = Ok grid /\
         has_shape grid (2 * W - 1) (2 * H - 1)
    else grid = normalized.
Proof.
  intros HW HH Hsensor Hgrid data.
  assert (Sdata : has_shape data W H)
    by (apply has_shape_flips, has_shape_map, Hsensor).
  assert (Hne : concat data <> []) by (eapply concat_nonempty; eauto).
  destruct (min_of_is_Ok _ Hne) as [mn Hmin].
  destruct (max_of_is_Ok _ Hne) as [mx Hmax].
  exists mn, mx.
  set (normalized :=
         if _auto_focus self then normalize data mn mx
         else normalize data (_range_min_c self) (_range_max_c self)).
  assert (Snorm : has_shape normalized W H).
  { unfold normalized. destruct (_auto_focus self); apply has_shape_map, Sdata. }
  unfold acquire. rewrite (array_Ok _ _ _ Hsensor HW), bind_Ok. cbv beta zeta.
  fold data. unfold np.min, np.max. rewrite Hmin, bind_Ok. cbv beta.
  rewrite Hmax, bind_Ok. cbv beta. fold normalized.
  destruct (_interpolate self) eqn:Hint.
  - destruct (upscale_preserves (fun _ => True) W H _ _ ltac:(auto) HW HH Snorm
                (Hgrid eq_refl)) as (u & Eu & Su & _).
    { apply Forall_forall. intros row _. apply Forall_forall. auto. }
    rewrite Eu, bind_Ok. eexists _, _.
    split; [now apply min_of_spec |]. split; [now apply max_of_spec |].
    cbv zeta. split; [reflexivity |]. split; [reflexivity |]. auto.
  - eexists _, _.
    split; [now apply min_of_spec |]. split; [now apply max_of_spec |].
    cbv zeta. split; [reflexivity |]. split; [reflexivity |]. auto.
Qed.

Lemma lookup_rev {A} (l : list A) (i : nat) :
  i < length l -> rev l !! i = l !! (length l - 1 - i).
Proof.
  induction l as [| x l IH]; intros Hi; [simpl in Hi; lia |].
  cbn [rev length] in *. destruct (decide (i < length l)) as [Hlt | Hge].
  - rewrite lookup_app_l by (now rewrite length_rev). rewrite IH by exact Hlt.
    replace (S (length l) - 1 - i) with (S (length l - 1 - i)) by lia.
    reflexivity.
  - rewrite lookup_app_r by (rewrite length_rev; lia). rewrite length_rev.
    replace (i - length l) with 0 by lia.
    replace (S (length l) - 1 - i) with 0 by lia. reflexivity.
Qed.

(** The two flips of [acquire] turn the array by half a turn. *)
Lemma get2_flips {A} (a : ndarray A) (W H i j : nat) :
  has_shape a W H -> i < W -> j < H ->
  get2 (flip (flip a 0) 1) i j = get2 a (W - 1 - i) (H - 1 - j).
Proof.
  intros [Hlen Hrows] Hi Hj. unfold get2. cbn [flip].
  rewrite list_lookup_fmap, lookup_rev by lia. rewrite Hlen.
  destruct (a !! (W - 1 - i)) as [row |] eqn:Hrow; [| reflexivity].
  cbn. rewrite Forall_lookup in Hrows. specialize (Hrows _ _ Hrow).
  cbv beta in Hrows. rewrite lookup_rev by lia. now rewrite Hrows.
Qed.

Lemma get2_map {A B} (f : A -> B) (a : ndarray A) (i j : nat) :
  get2 (map (map f) a) i j = f <$> get2 a i j.
Proof.
  unfold get2. rewrite list_lookup_fmap.
  destruct (a !! i) as [row |]; [| reflexivity]. cbn.
  now rewrite list_lookup_fmap.
Qed.

(** X18.  Orientation of a frame.  [acquire] returns the frame turned by
    half a turn: the value computed from the sensor element
    [(W - 1 - i, H - 1 - j)], clipped to the range of the camera and
    normalized by the minimum and maximum of the statistics (by the range
    of the camera without autofocus), is cell [(i, j)] of the grid
    returned, and cell [(2i, 2j)] when the camera interpolates. *)
Theorem acquire_orientation (self : camera) (sensor : list (list Qc)) (W H : nat) :
  0 < W -> 0 < H -> has_shape sensor W H ->
  (_interpolate self = true ->
   has_shape (_grid_data self) (2 * W - 1) (2 * H - 1)) ->
  exists self' grid,
    acquire self sensor = Ok (self', grid) /\
    forall i j, i < W -> j < H ->
      exists x,
        get2 sensor (W - 1 - i) (H - 1 - j) = Some x /\
        let clipped := Qc_max (_range_min_c self) (Qc_min x (_range_max_c self)) in
        let '(lo, hi) :=
          if _auto_focus self then (_sensor_min_c self', _sensor_max_c self')
          else (_range_min_c self, _range_max_c self) in
        get2 grid (if _interpolate self then 2 * i else i)
                  (if _interpolate self then 2 * j else j)
        = Some (Float.div (Fin (clipped - lo)%Qc) (Fin (hi - lo)%Qc)).
Proof.
  intros HW HH Hsensor Hgrid.
  destruct (acquire_Ok_explicit self sensor W H HW HH Hsensor Hgrid)
    as (mn & mx & grid & self' & _ & _ & Hacq & Hstat & Sdata & Snorm & Hout).
  cbv zeta in Hacq, Snorm, Hout.
  exists self', grid. split; [exact Hacq |]. intros i j Hi Hj.
  destruct (get2_is_Some sensor W H (W - 1 - i) (H - 1 - j) Hsensor) as [x Hx];
    [lia | lia |].
  exists x. split; [exact Hx |]. cbv zeta.
  injection Hstat as Hmn _ Hmx.
  set (data := flip (flip (clip sensor (_range_min_c self) (_range_max_c self)) 0) 1)
    in *.
  assert (Hdata : get2 data i j
            = Some (Qc_max (_range_min_c self) (Qc_min x (_range_max_c self)))).
  { unfold data. rewrite (get2_flips _ W H) by (try apply has_shape_map; assumption).
    unfold clip. now rewrite get2_map, Hx. }
  assert (Hnorm : forall lo hi,
            get2 (normalize data lo hi) i j
            = Some (Float.div
                      (Fin (Qc_max (_range_min_c self)
                              (Qc_min x (_range_max_c self)) - lo)%Qc)
                      (Fin (hi - lo)%Qc))).
  { intros lo hi. unfold normalize. now rewrite get2_map, Hdata. }
  rewrite Hmn, Hmx.
  destruct (_interpolate self).
  - destruct Hout as [Hup _].
    destruct (upscale_cells W H _ HW HH Snorm _ (Hgrid eq_refl))
      as (u & Hu & _ & Heven & _).
    rewrite Hup in Hu. injection Hu as <-.
    destruct (Heven i j Hi Hj) as [_ ->].
    destruct (_auto_focus self); apply Hnorm.
  - subst grid. destruct (_auto_focus self); apply Hnorm.
Qed.

Lemma elem_of_concat_get2 {A} (a : ndarray A) (x : A) :
  x ∈ concat a -> exists i j, get2 a i j = Some x.
Proof.
  intros Hx. apply list_elem_of_In, in_concat in Hx as (row & Hrow & Hx).
  apply list_elem_of_In, list_elem_of_lookup in Hrow as [i Hi].
  apply list_elem_of_In, list_elem_of_lookup in Hx as [j Hj].
  exists i, j. unfold get2. rewrite Hi. exact Hj.
Qed.

(** X22.  Autofocus uses the whole palette.  With autofocus on and a frame
    in which two clipped values differ, the grid [acquire] returns holds
    the value 0 (at the coldest element) and the value 1 (at the hottest). *)
Theorem autofocus_full_range (self : camera) (sensor : list (list Qc)) (W H : nat) :
  _auto_focus self = true ->
  0 < W -> 0 < H -> has_shape sensor W H ->
  (_interpolate self = true ->
   has_shape (_grid_data self) (2 * W - 1) (2 * H - 1)) ->
  (exists x y,
     x ∈ concat (clip sensor (_range_min_c self) (_range_max_c self)) /\
     y ∈ concat (clip sensor (_range_min_c self) (_range_max_c self)) /\
     x <> y) ->
  exists self' grid,
    acquire self sensor = Ok (self', grid) /\
    (_sensor_min_c self' < _sensor_max_c self')%Qc /\
    (exists i j, get2 grid i j = Some (Fin 0%Qc)) /\
    (exists i j, get2 grid i j = Some (Fin 1%Qc)).
Proof.
  intros Hauto HW HH Hsensor Hgrid (x & y & Hx & Hy & Hxy).
  destruct (acquire_Ok_explicit self sensor W H HW HH Hsensor Hgrid)
    as (mn & mx & grid & self' & Hmn & Hmx & Hacq & Hstat & Sdata & Snorm & Hout).
  cbv zeta in Hacq, Snorm, Hout. rewrite Hauto in *.
  set (data := flip (flip (clip sensor (_range_min_c self) (_range_max_c self)) 0) 1)
    in *.
  assert (Hlt : (mn < mx)%Qc).
  { apply (min_lt_max (concat data) mn mx x y Hmn Hmx); [| | exact Hxy];
      unfold data; now rewrite flips_perm. }
  assert (Hne : (mx - mn)%Qc <> 0%Qc) by (intros E; Qc_lra).
  assert (Hcell : forall v, v ∈ concat data ->
            exists i j, get2 grid i j
                        = Some (Fin ((v - mn) / (mx - mn))%Qc)).
  { intros v Hv. destruct (elem_of_concat_get2 data v Hv) as (i & j & Hij).
    destruct (get2_Some_bounds _ _ _ _ _ _ Sdata Hij) as [Hi Hj].
    assert (Hn : get2 (normalize data mn mx) i j
                 = Some (Fin ((v - mn) / (mx - mn))%Qc)).
    { unfold normalize. rewrite get2_map, Hij. cbn.
      unfold Float.div, Float.Qc_is_zero.
      now rewrite bool_decide_eq_false_2 by exact Hne. }
    destruct (_interpolate self).
    - destruct Hout as [Hup _].
      destruct (upscale_cells W H _ HW HH Snorm _ (Hgrid eq_refl))
        as (u & Hu & _ & Heven & _).
      rewrite Hup in Hu. injection Hu as <-.
      exists (2 * i), (2 * j). destruct (Heven i j Hi Hj) as [_ ->]. exact Hn.
    - subst grid. eauto. }
  injection Hstat as Hmin _ Hmax.
  exists self', grid. split; [exact Hacq |]. split; [now rewrite Hmin, Hmax |].
  split.
  - destruct (Hcell mn ltac:(apply Hmn)) as (i & j & Hij). exists i, j.
    rewrite Hij. do 2 f_equal. unfold Qcdiv.
    replace (mn - mn)%Qc with 0%Qc by ring. apply Qcmult_0_l.
  - destruct (Hcell mx ltac:(apply Hmx)) as (i & j & Hij). exists i, j.
    rewrite Hij. do 2 f_equal. now apply Qcmult_inv_r.
Qed.

End Acquisition.

Lemma acquire_orientation_witness :
  exists self' grid,
    Camera.acquire amg_2x2 sample_2x2 = Ok (self', grid) /\
    forall i j, i < 2 -> j < 2 ->
      exists x,
        np.get2 sample_2x2 (2 - 1 - i) (2 - 1 - j) = Some x /\
        np.get2 grid i j
        = Some (Float.div
                  (Fin (np.Qc_max (Qc_of_Z 0) (np.Qc_min x (Qc_of_Z 80))
                        - Camera._sensor_min_c self')%Qc)
                  (Fin (Camera._sensor_max_c self' - Camera._sensor_min_c self')%Qc)).
Proof.
  apply (acquire_orientation amg_2x2 sample_2x2 2 2).
  - lia.
  - lia.
  - split; [reflexivity | repeat constructor].
  - discriminate.
Defined.

Section Cycle.
Import np Camera Code.
Variable index_to_rgb : float -> Z.

(** A frame whose divisor is not zero is normalized into [0, 1]. *)
Lemma acquire_bounded (self : camera) (sensor : list (list Qc)) (W H : nat) :
  0 < W -> 0 < H -> has_shape sensor W H ->
  (_interpolate self = true ->
   has_shape (_grid_data self) (2 * W - 1) (2 * H - 1)) ->
  (if _auto_focus self
   then exists x y,
          x ∈ concat (clip sensor (_range_min_c self) (_range_max_c self)) /\
          y ∈ concat (clip sensor (_range_min_c self) (_range_max_c self)) /\
          x <> y
   else (_range_min_c self < _range_max_c self)%Qc) ->
  exists mn avg mx self' grid,
    acquire self sensor = Ok (self', grid) /\
    statistics self' = (mn, avg, mx) /\
    (mn ≤ avg)%Qc /\ (avg ≤ mx)%Qc /\
    has_shape grid (if _interpolate self then 2 * W - 1 else W)
                   (if _interpolate self then 2 * H - 1 else H) /\
    Forall (Forall in_unit) grid.
Proof.
  intros HW HH Hsensor Hgrid Hrange.
  destruct (acquire_Ok_explicit self sensor W H HW HH Hsensor Hgrid)
    as (mn & mx & grid & self' & Hmn & Hmx & Hacq & Hstat & Sdata & Snorm & Hout).
  cbv zeta in Hacq, Snorm, Hout.
  set (data := flip (flip (clip sensor (_range_min_c self) (_range_max_c self)) 0) 1)
    in *.
  set (normalized :=
         if _auto_focus self then normalize data mn mx
         else normalize data (_range_min_c self) (_range_max_c self)) in *.
  assert (Hnorm : Forall (Forall in_unit) normalized).
  { unfold normalized. destruct (_auto_focus self).
    - destruct Hrange as (x & y & Hx & Hy & Hxy).
      apply normalize_unit.
      + apply (min_lt_max (concat data) mn mx x y Hmn Hmx); [| | exact Hxy];
          unfold data; now rewrite flips_perm.
      + apply Forall2d_concat, Forall_forall. intros z Hz. split.
        * now apply Hmn.
        * now apply Hmx.
    - apply normalize_unit; [exact Hrange |].
      apply Forall2d_flips, clip_range, Qclt_le_weak, Hrange. }
  assert (Hne : concat data <> []) by (eapply concat_nonempty; eauto).
  destruct (mean_between (concat data) mn mx Hmn Hmx Hne) as [Hlo Hhi].
  exists mn, (mean data), mx, self', grid.
  split; [exact Hacq |]. split; [exact Hstat |].
  split; [exact Hlo |]. split; [exact Hhi |].
  destruct (_interpolate self).
  - destruct Hout as [Hup Sgrid]. split; [exact Sgrid |].
    destruct (upscale_preserves in_unit W H _ _ halve_unit HW HH Snorm
                (Hgrid eq_refl) Hnorm) as (u & Eu & _ & Hu).
    rewrite Hup in Eu. now injection Eu as <-.
  - subst grid. auto.
Qed.

Lemma fahrenheit_order (a b : Qc) :
  (a ≤ b)%Qc ->
  (Float.round_half_even (Qc_of_Z 9 / Qc_of_Z 5 * a + Qc_of_Z 32)
   <= Float.round_half_even (Qc_of_Z 9 / Qc_of_Z 5 * b + Qc_of_Z 32))%Z.
Proof. intros Hab. apply round_half_even_mono. Qc_lra. Qed.

(** X19.  One cycle in image mode.  For a frame of the shape of the sensor
    whose normalization does not divide by zero (with autofocus, two
    clipped values differ; without, the range of the camera is not empty),
    a display whose grid axis is the shape of the grid the camera returns,
    whose cells have fills and whose palette size is positive:
    [acquire_and_display] completes; every cell shows a palette step
    [k / palette_size] with [0 <= k <= palette_size]; the labels show the
    alarm setting and the statistics in Fahrenheit, with
    [min <= avg <= max]; the layout of the display is unchanged. *)
Theorem acquire_and_display_image (ALARM_F : Z) (SELFIE : bool)
    (camera : camera) (sensor : list (list Qc)) (display : Display.display)
    (W H : nat) :
  0 < W -> 0 < H -> has_shape sensor W H ->
  (_interpolate camera = true ->
   has_shape (_grid_data camera) (2 * W - 1) (2 * H - 1)) ->
  (if _auto_focus camera
   then exists x y,
          x ∈ concat (clip sensor (_range_min_c camera) (_range_max_c camera)) /\
          y ∈ concat (clip sensor (_range_min_c camera) (_range_max_c camera)) /\
          x <> y
   else (_range_min_c camera < _range_max_c camera)%Qc) ->
  ready display -> (0 < Display._palette_size display)%Z ->
  Display._grid_axis display
  = (if _interpolate camera then 2 * W - 1 else W,
     if _interpolate camera then 2 * H - 1 else H) ->
  exists camera' display' labels,
    acquire_and_display index_to_rgb ALARM_F true SELFIE camera sensor display
    = Ok (camera', display', labels) /\
    alarm_value labels = ALARM_F /\
    celsius_to_fahrenheit (Fin (_sensor_min_c camera')) = Ok (min_value labels) /\
    celsius_to_fahrenheit (Fin (_sensor_avg_c camera')) = Ok (avg_value labels) /\
    celsius_to_fahrenheit (Fin (_sensor_max_c camera')) = Ok (max_value labels) /\
    (min_value labels <= avg_value labels <= max_value labels)%Z /\
    same_layout display display' /\
    forall _col _row,
      _col < (Display._grid_axis display).1 ->
      _row < (Display._grid_axis display).2 ->
      exists k,
        (0 <= k <= Display._palette_size display)%Z /\
        stored_fill display' (_col * (Display._grid_axis display).2 + _row)
        = Some (index_to_rgb
                  (Fin (Qc_of_Z k / Qc_of_Z (Display._palette_size display))%Qc)).
Proof.
  intros HW HH Hsensor Hgrid Hrange Hready Hp Haxis.
  destruct (acquire_bounded camera sensor W H HW HH Hsensor Hgrid Hrange)
    as (mn & avg & mx & camera' & grid & Hacq & Hstat & Hlo & Hhi & Sgrid & Hunit).
  destruct (rendered_palette_steps index_to_rgb display grid SELFIE Hready Hp)
    as (display' & Hframe & Hsteps).
  { intros c r Hc Hr. rewrite Haxis in Hc, Hr. cbn [fst snd] in Hc, Hr.
    destruct (get2_is_Some grid _ _ c r Sgrid Hc Hr) as [v Hv].
    exists v. split; [exact Hv |]. eapply get2_Forall; eauto. }
  injection Hstat as Hmn Havg Hmx.
  eexists camera', display', _. split.
  { unfold acquire_and_display. rewrite Hacq, bind_Ok. cbv beta iota.
    unfold statistics. rewrite Hmn, Havg, Hmx.
    rewrite !celsius_to_fahrenheit_Fin, !bind_Ok. cbv beta.
    rewrite Hframe, bind_Ok. reflexivity. }
  cbn [alarm_value min_value avg_value max_value].
  rewrite Hmn, Havg, Hmx, !celsius_to_fahrenheit_Fin.
  split; [reflexivity |]. split; [reflexivity |]. split; [reflexivity |].
  split; [reflexivity |].
  split; [split; now apply fahrenheit_order |].
  split; [eapply update_image_frame_layout, Hframe | exact Hsteps].
Qed.

Lemma acquire_uniform_NaN (self : Camera.camera) (sensor : list (list Qc))
    (W H : nat) (v : Qc) :
  _auto_focus self = true ->
  0 < W -> 0 < H -> has_shape sensor W H ->
  (_interpolate self = true ->
   has_shape (_grid_data self) (2 * W - 1) (2 * H - 1)) ->
  Forall (Forall (eq v))
    (clip sensor (_range_min_c self) (_range_max_c self)) ->
  exists self' grid,
    acquire self sensor = Ok (self', grid) /\
    statistics self' = (v, v, v) /\
    has_shape grid (if _interpolate self then 2 * W - 1 else W)
                   (if _interpolate self then 2 * H - 1 else H) /\
    Forall (Forall (eq NaN)) grid.
Proof.
  intros Hauto HW HH Hsensor Hgrid Hu.
  destruct (acquire_Ok_explicit self sensor W H HW HH Hsensor Hgrid)
    as (mn & mx & grid & self' & Hmn & Hmx & Hacq & Hstat & Sdata & Snorm & Hout).
  cbv zeta in Hacq, Snorm, Hout. rewrite Hauto in *.
  set (data := flip (flip (clip sensor (_range_min_c self) (_range_max_c self)) 0) 1)
    in *.
  assert (Hcells : forall x, x ∈ concat data -> v = x).
  { apply Forall2d_concat in Hu. rewrite Forall_forall in Hu.
    intros x Hx. apply Hu. unfold data in Hx. now rewrite flips_perm in Hx. }
  assert (mn = v) as -> by (symmetry; apply Hcells, Hmn).
  assert (mx = v) as -> by (symmetry; apply Hcells, Hmx).
  assert (Hne : concat data <> []) by (eapply concat_nonempty; eauto).
  destruct (mean_between (concat data) v v Hmn Hmx Hne) as [Hlo Hhi].
  assert (Hmean : mean data = v) by (apply Qcle_antisym; assumption).
  assert (Hnorm : Forall (Forall (eq NaN)) (normalize data v v)).
  { apply normalize_uniform, Forall2d_concat, Forall_forall, Hcells. }
  exists self', grid. split; [exact Hacq |].
  split; [now rewrite Hstat, Hmean |].
  destruct (_interpolate self).
  - destruct Hout as [Hup Sgrid]. split; [exact Sgrid |].
    destruct (upscale_preserves (eq NaN) W H _ _ halve_NaN HW HH Snorm
                (Hgrid eq_refl) Hnorm) as (u & Eu & _ & Hnan).
    rewrite Hup in Eu. now injection Eu as <-.
  - subst grid. auto.
Qed.

(** X20.  A uniform scene stops the histogram.  With autofocus on and a
    frame whose clipped values are all equal, the grid [acquire] returns is
    NaN in every cell, and in histogram mode [acquire_and_display] raises
    ValueError: [update_histo_frame] takes [int()] of a value that is not
    a number. *)
Theorem uniform_scene_stops_histogram (ALARM_F : Z) (SELFIE : bool)
    (camera : camera) (sensor : list (list Qc)) (display : Display.display)
    (W H : nat) (v : Qc) :
  _auto_focus camera = true ->
  0 < W -> 0 < H -> has_shape sensor W H ->
  (_interpolate camera = true ->
   has_shape (_grid_data camera) (2 * W - 1) (2 * H - 1)) ->
  Forall (Forall (eq v))
    (clip sensor (_range_min_c camera) (_range_max_c camera)) ->
  Display._grid_axis display
  = (if _interpolate camera then 2 * W - 1 else W,
     if _interpolate camera then 2 * H - 1 else H) ->
  acquire_and_display index_to_rgb ALARM_F false SELFIE camera sensor display
  = Raise ValueError.
Proof.
  intros Hauto HW HH Hsensor Hgrid Hu Haxis.
  destruct (acquire_uniform_NaN camera sensor W H v Hauto HW HH Hsensor Hgrid Hu)
    as (camera' & grid & Hacq & Hstat & Sgrid & Hnan).
  assert (Hcell : forall c r,
            c < (Display._grid_axis display).1 ->
            r < (Display._grid_axis display).2 ->
            get2 grid c r = Some NaN).
  { intros c r Hc Hr. rewrite Haxis in Hc, Hr. cbn [fst snd] in Hc, Hr.
    destruct (get2_is_Some grid _ _ c r Sgrid Hc Hr) as [x Hx].
    rewrite Hx. f_equal. symmetry. eapply (get2_Forall (eq NaN)); eauto. }
  assert (Hpos : 1 <= (Display._grid_axis display).1
                 /\ 1 <= (Display._grid_axis display).2).
  { rewrite Haxis. cbn [fst snd]. destruct (_interpolate camera); lia. }
  unfold acquire_and_display. rewrite Hacq, bind_Ok. cbv beta iota.
  rewrite Hstat. cbv beta iota.
  rewrite !celsius_to_fahrenheit_Fin, !bind_Ok. cbv beta.
  rewrite (update_histo_frame_NaN index_to_rgb display grid); [reflexivity | lia | |].
  - intros c r Hc Hr. right. now apply Hcell.
  - exists 0, 0. split; [lia |]. split; [lia |]. apply Hcell; lia.
Qed.

End Cycle.

Lemma acquire_and_display_image_witness :
  exists camera' display' labels,
    Code.acquire_and_display gray_ramp 120 true true amg_2x2 sample_2x2 display_2x2
    = Ok (camera', display', labels) /\
    (Code.min_value labels <= Code.avg_value labels <= Code.max_value labels)%Z.
Proof.
  destruct (acquire_and_display_image gray_ramp 120 true amg_2x2 sample_2x2
              display_2x2 2 2)
    as (camera' & display' & labels & Hcycle & _ & _ & _ & _ & Horder & _).
  - lia.
  - lia.
  - split; [reflexivity | repeat constructor].
  - discriminate.
  - exists (Qc_of_Z 10), (Qc_of_Z 20). repeat split.
    + decide_by_computation.
    + decide_by_computation.
    + intros E. discriminate E.
  - split; [discriminate |]. intros k Hk. simpl in Hk.
    do 4 (destruct k as [| k]; [eexists; reflexivity |]). lia.
  - reflexivity.
  - reflexivity.
  - exists camera', display', labels. auto.
Defined.

Lemma uniform_scene_stops_histogram_witness :
  Code.acquire_and_display gray_ramp 120 false true amg_2x2 uniform_2x2 display_2x2
  = Raise ValueError.
Proof.
  apply (uniform_scene_stops_histogram gray_ramp 120 true amg_2x2 uniform_2x2
           display_2x2 2 2 (Qc_of_Z 25)).
  - reflexivity.
  - lia.
  - lia.
  - split; [reflexivity | repeat constructor].
  - discriminate.
  - repeat constructor; decide_by_computation.
  - reflexivity.
Defined.

Lemma autofocus_full_range_witness :
  exists self' grid,
    Camera.acquire amg_2x2_upscaling sample_2x2 = Ok (self', grid) /\
    (exists i j, np.get2 grid i j = Some (Fin 0%Qc)) /\
    (exists i j, np.get2 grid i j = Some (Fin 1%Qc)).
Proof.
  destruct (autofocus_full_range amg_2x2_upscaling sample_2x2 2 2)
    as (self' & grid & Hacq & _ & H0 & H1).
  - reflexivity.
  - lia.
  - lia.
  - split; [reflexivity | repeat constructor].
  - intros _. split; [reflexivity | repeat constructor].
  - exists (Qc_of_Z 10), (Qc_of_Z 20). repeat split.
    + decide_by_computation.
    + decide_by_computation.
    + intros E. discriminate E.
  - exists self', grid. auto.
Defined.
(** ** The statistics of a frame *)

Section ClippedStatistics.
Import np Camera.

(** With [lo <= hi], ulab's [clip] is the clipping of the specification. *)
Lemma clip_cell_clamp (lo hi x : Qc) :
  (lo ≤ hi)%Qc -> Qc_max lo (Qc_min x hi) = clamp lo hi x.
Proof.
  intros Hrange. unfold clamp, Qc_max, Qc_min.
  repeat case_bool_decide; try reflexivity; Qc_lra.
Qed.

Lemma clip_cell_range (lo hi x : Qc) :
  (lo ≤ hi)%Qc ->
  (lo ≤ Qc_max lo (Qc_min x hi))%Qc /\ (Qc_max lo (Qc_min x hi) ≤ hi)%Qc.
Proof.
  intros Hrange. unfold Qc_max, Qc_min.
  repeat case_bool_decide; split; Qc_lra.
Qed.

(** C7.  After every acquisition the statistics are the minimum, the
    arithmetic mean and the maximum, in Celsius, of the samples clipped
    into the range of the camera, every sample [x] counting as
    [max(range_min_c, min(x, range_max_c))]: the minimum and the maximum
    are clipped samples that bound all of them, and the average is their
    sum over their number.  When the range is not empty,
    [range_min_c <= range_max_c], this is the clipping of the
    specification (a sample below the range counts as [range_min_c], one
    above it as [range_max_c], one inside it as itself), and the minimum
    and the maximum, and with them every clipped sample, lie in the range.
    The statistics are the same whatever the autofocus setting (and any
    other state) of the camera that acquires the frame with the same
    range. *)
Theorem acquire_statistics (self : camera) sensor self' grid :
  acquire self sensor = Ok (self', grid) ->
  let lo := _range_min_c self in
  let hi := _range_max_c self in
  let cells := concat (map (map (fun x => Qc_max lo (Qc_min x hi))) sensor) in
  let '(min_c, avg_c, max_c) := statistics self' in
  is_minimum min_c cells /\
  (cells <> [] /\ avg_c = (sum cells / Qc_of_Z (Z.of_nat (length cells)))%Qc) /\
  is_maximum max_c cells /\
  ((lo ≤ hi)%Qc ->
   cells = concat (map (map (clamp lo hi)) sensor) /\
   (lo ≤ min_c)%Qc /\ (min_c ≤ max_c)%Qc /\ (max_c ≤ hi)%Qc) /\
  forall other other' grid',
    _range_min_c other = _range_min_c self ->
    _range_max_c other = _range_max_c self ->
    acquire other sensor = Ok (other', grid') ->
    statistics other' = statistics self'.
Proof.
  intros Hacq.
  pose proof (acquire_Ok_inv _ _ _ _ Hacq) as (Hmin & Havg & Hmax).
  cbv zeta. unfold statistics.
  set (lo := _range_min_c self) in *. set (hi := _range_max_c self) in *.
  change (map (map (fun x => Qc_max lo (Qc_min x hi))) sensor)
    with (clip sensor lo hi).
  set (a := clip sensor lo hi) in *.
  pose proof (flips_perm a) as Hp.
  apply min_of_spec in Hmin as Hmin'. apply max_of_spec in Hmax as Hmax'.
  assert (Hmn : is_minimum (_sensor_min_c self') (concat a))
    by (eapply is_minimum_perm; eauto).
  assert (Hmx : is_maximum (_sensor_max_c self') (concat a))
    by (eapply is_maximum_perm; eauto).
  assert (Hne : concat a <> []).
  { intros Hnil. destruct Hmn as [Hin _]. rewrite Hnil in Hin. inversion Hin. }
  assert (Hmean : _sensor_avg_c self'
                  = (sum (concat a) / Qc_of_Z (Z.of_nat (length (concat a))))%Qc).
  { rewrite Havg. unfold mean. now rewrite (sum_perm _ _ Hp), Hp. }
  split; [exact Hmn |]. split; [split; [exact Hne | exact Hmean] |].
  split; [exact Hmx |]. split.
  - intros Hrange. split.
    + unfold a, clip. f_equal. apply map_ext. intros row. apply map_ext.
      intros x. now apply clip_cell_clamp.
    + assert (Hcell : forall x, x ∈ concat a -> (lo ≤ x)%Qc /\ (x ≤ hi)%Qc).
      { intros x Hx. apply list_elem_of_In, in_concat in Hx as (row & Hrow & Hx).
        unfold a, clip in Hrow. apply in_map_iff in Hrow as (row0 & <- & _).
        apply in_map_iff in Hx as (x0 & <- & _). now apply clip_cell_range. }
      split; [apply Hcell, Hmn |]. split; [apply Hmn, Hmx |].
      apply Hcell, Hmx.
  - intros other other' grid' Hlo Hhi Hacq'.
    pose proof (acquire_Ok_inv _ _ _ _ Hacq') as (Hmin2 & Havg2 & Hmax2).
    rewrite Hlo, Hhi in *. fold lo hi in Hmin2, Havg2, Hmax2.
    fold a in Hmin2, Havg2, Hmax2.
    rewrite Hmin in Hmin2. rewrite Hmax in Hmax2.
    injection Hmin2 as <-. injection Hmax2 as <-. now rewrite Havg, Havg2.
Qed.

Lemma acquire_statistics_witness :
  (exists self' grid,
     acquire amg_2x2 sample_2x2 = Ok (self', grid) /\
     statistics self' = (Qc_of_Z 10, Qc_of_Z 25, Qc_of_Z 40)) /\
  exists self' grid,
    acquire amg_2x2 hot_cold_2x2 = Ok (self', grid) /\
    statistics self' = (Qc_of_Z 0, (Qc_of_Z 75 / Qc_of_Z 2)%Qc, Qc_of_Z 80) /\
    is_minimum (_sensor_min_c self')
      (concat (map (map (clamp (Qc_of_Z 0) (Qc_of_Z 80))) hot_cold_2x2)) /\
    is_maximum (_sensor_max_c self')
      (concat (map (map (clamp (Qc_of_Z 0) (Qc_of_Z 80))) hot_cold_2x2)).
Proof.
  split.
  { eexists _, _. split; [vm_compute; reflexivity | decide_by_computation]. }
  destruct (acquire amg_2x2 hot_cold_2x2) as [[self' grid] |] eqn:Hacq;
    [| vm_compute in Hacq; discriminate].
  pose proof (acquire_statistics amg_2x2 hot_cold_2x2 self' grid Hacq)
    as Hstat.
  cbv zeta in Hstat. unfold statistics in Hstat.
  destruct Hstat as (Hmin & _ & Hmax & Hrange & _).
  destruct Hrange as (Hcells & _); [decide_by_computation |].
  change (_range_min_c amg_2x2) with (Qc_of_Z 0) in *.
  change (_range_max_c amg_2x2) with (Qc_of_Z 80) in *.
  rewrite Hcells in Hmin, Hmax.
  exists self', grid. split; [reflexivity |].
  split; [| split; [exact Hmin | exact Hmax]].
  vm_compute in Hacq. injection Hacq as <- _. decide_by_computation.
Defined.

End ClippedStatistics.
(** ** The reused grid buffer *)

Section Buffer.
Import np Camera.

Lemma ndarray_ext {A} (a b : ndarray A) (n m : nat) :
  has_shape a n m -> has_shape b n m ->
  (forall i j, i < n -> j < m -> get2 a i j = get2 b i j) -> a = b.
Proof.
  intros [Hla Hra] [Hlb Hrb] Hcells. apply list_eq_same_length with n; try assumption.
  intros i ra rb Hi Ha Hb.
  rewrite Forall_lookup in Hra, Hrb.
  pose proof (Hra _ _ Ha) as Hlen_a. pose proof (Hrb _ _ Hb) as Hlen_b.
  cbv beta in Hlen_a, Hlen_b.
  apply list_eq_same_length with m; try assumption.
  intros j x y Hj Hx Hy. specialize (Hcells i j Hi Hj).
  unfold get2 in Hcells. rewrite Ha, Hb in Hcells. cbn in Hcells. congruence.
Qed.

(** X21.  Nothing of the old grid survives.  [acquire] upscales into the
    grid array of the previous frame; the result does not depend on what
    that array held: two grids of the right shape give the same upscaled
    frame, every cell being written from the new sensor data. *)
Theorem upscale_overwrites_grid (W H : nat) (s g g' : ndarray float) :
  0 < W -> 0 < H -> has_shape s W H ->
  has_shape g (2 * W - 1) (2 * H - 1) ->
  has_shape g' (2 * W - 1) (2 * H - 1) ->
  exists u, upscale s g = Ok u /\ upscale s g' = Ok u.
Proof.
  intros HW HH Hs Hg Hg'.
  destruct (upscale_cells W H s HW HH Hs g Hg) as (u & Hu & Su & Heven & Hodd & Hhor).
  destruct (upscale_cells W H s HW HH Hs g' Hg')
    as (u' & Hu' & Su' & Heven' & Hodd' & Hhor').
  exists u. split; [exact Hu |]. rewrite Hu'. f_equal.
  assert (Hcol : forall r j, r < 2 * W - 1 -> j < H ->
            get2 u' r (2 * j) = get2 u r (2 * j)).
  { intros r j Hr Hj. destruct (Nat.Even_or_Odd r) as [[i ->] | [i ->]].
    - destruct (Heven i j ltac:(lia) Hj) as [_ ->].
      now destruct (Heven' i j ltac:(lia) Hj) as [_ ->].
    - destruct (Hodd i j ltac:(lia) Hj) as (a & b & Ha & Hb & ->).
      destruct (Hodd' i j ltac:(lia) Hj) as (a' & b' & Ha' & Hb' & ->).
      congruence. }
  apply (ndarray_ext _ _ (2 * W - 1) (2 * H - 1) Su' Su).
  intros r c Hr Hc. destruct (Nat.Even_or_Odd c) as [[j ->] | [j ->]].
  - apply Hcol; lia.
  - destruct (Hhor r j Hr ltac:(lia)) as (a & b & Ha & Hb & ->).
    destruct (Hhor' r j Hr ltac:(lia)) as (a' & b' & Ha' & Hb' & ->).
    rewrite Hcol in Ha' by lia.
    replace (2 * j + 2) with (2 * (j + 1)) in Hb, Hb' by lia.
    rewrite Hcol in Hb' by lia. congruence.
Qed.

End Buffer.

Lemma upscale_overwrites_grid_witness :
  exists u,
    Camera.upscale checker_2x2 blank_3x3 = Ok u /\
    Camera.upscale checker_2x2 (replicate 3 (replicate 3 NaN)) = Ok u.
Proof.
  apply (upscale_overwrites_grid 2 2); try lia;
    (split; [reflexivity | repeat constructor]).
Defined.
(** ** The MLX90640 camera and the fake camera *)

Section OtherCameras.
Import np.

Lemma reshape_concat {A} (cols rows : nat) (flat : list A) :
  length flat = rows * cols ->
  concat (map (fun i => take cols (drop (i * cols) flat)) (seq 0 rows)) = flat.
Proof.
  revert flat. induction rows as [| rows IH]; intros flat Hlen.
  - destruct flat; [reflexivity | discriminate].
  - cbn [seq map concat]. rewrite <- seq_shift, map_map. cbn [Nat.mul Nat.add drop].
    transitivity (take cols flat ++ drop cols flat); [| apply take_drop].
    f_equal.
    transitivity (concat (map (fun i => take cols (drop (i * cols) (drop cols flat)))
                            (seq 0 rows)));
      [| apply IH; rewrite length_drop; lia].
    f_equal. apply map_ext. intros i. rewrite drop_drop. do 2 f_equal.
Qed.

Lemma reshape_Ok {A} (flat : list A) (rows cols : nat) :
  length flat = rows * cols ->
  exists a, reshape flat rows cols = Ok a /\ has_shape a rows cols /\
            concat a = flat /\
            forall i j, i < rows -> j < cols -> get2 a i j = flat !! (i * cols + j).
Proof.
  intros Hlen. unfold reshape. rewrite bool_decide_eq_true_2 by exact Hlen.
  eexists. split; [reflexivity |]. split; [| split].
  - split; [now rewrite length_map, length_seq |].
    apply Forall_forall. intros row Hrow.
    apply list_elem_of_In, in_map_iff in Hrow as (i & <- & Hi).
    apply in_seq in Hi. rewrite length_take, length_drop. nia.
  - now apply reshape_concat.
  - intros i j Hi Hj. unfold get2.
    rewrite list_lookup_fmap, lookup_seq_lt by exact Hi. cbn.
    rewrite lookup_take_lt by exact Hj. rewrite lookup_drop. f_equal.
Qed.

Lemma concat_map_map {A B} (f : A -> B) (a : list (list A)) :
  concat (map (map f) a) = map f (concat a).
Proof. symmetry. apply concat_map. Qed.

(** X23.  The MLX90640 frame.  [CameraMLX90640.acquire] returns, for a
    sensor of W by H elements, a grid of shape (W, H): the statistics are
    the minimum, mean and maximum of the clipped frame; the reversal of the
    rows before clipping and the reversal of both axes after it leave the
    rows in place and reverse each row, so that cell [(i, j)] is the
    normalized element [i * H + (H - 1 - j)] of the frame buffer; the
    spectrum array of the camera is not touched. *)
Theorem mlx90640_acquire (self : CameraMLX90640.camera) (getFrame : nat -> Qc)
    (W H : nat) :
  CameraMLX90640._sensor_axis self = (W, H) -> 0 < W -> 0 < H ->
  let clipv x :=
    Qc_max (CameraMLX90640._range_min_c self)
      (Qc_min x (CameraMLX90640._range_max_c self)) in
  let clipped := map (fun k => clipv (getFrame k)) (range (W * H)) in
  exists self' grid,
    CameraMLX90640.acquire self getFrame = Ok (self', grid) /\
    is_minimum (CameraMLX90640._sensor_min_c self') clipped /\
    is_maximum (CameraMLX90640._sensor_max_c self') clipped /\
    CameraMLX90640._sensor_avg_c self'
    = (sum clipped / Qc_of_Z (Z.of_nat (W * H)))%Qc /\
    CameraMLX90640._grid_data self' = CameraMLX90640._grid_data self /\
    has_shape grid W H /\
    forall i j, i < W -> j < H ->
      let '(lo, hi) :=
        if CameraMLX90640._auto_focus self
        then (CameraMLX90640._sensor_min_c self', CameraMLX90640._sensor_max_c self')
        else (CameraMLX90640._range_min_c self, CameraMLX90640._range_max_c self) in
      get2 grid i j
      = Some (Float.div (Fin (clipv (getFrame (i * H + (H - 1 - j))%nat) - lo)%Qc)
                        (Fin (hi - lo)%Qc)).
Proof.
  intros Haxis HW HH clipv clipped.
  unfold CameraMLX90640.acquire. rewrite Haxis. cbn [fst snd].
  destruct (reshape_Ok (map getFrame (range (W * H))) W H)
    as (sensor & -> & Ssensor & Hflat & Hcells).
  { unfold range. now rewrite length_map, length_seq. }
  rewrite bind_Ok. cbv beta zeta.
  set (lo := CameraMLX90640._range_min_c self).
  set (hi := CameraMLX90640._range_max_c self).
  change (map (@rev Qc) (rev (clip (rev sensor) lo hi)))
    with (flip (flip (clip (rev sensor) lo hi) 0) 1).
  set (data := flip (flip (clip (rev sensor) lo hi) 0) 1).
  assert (Srev : has_shape (rev sensor) W H).
  { destruct Ssensor as [Hl Hr]. split; [now rewrite length_rev |].
    now apply Forall_rev. }
  assert (Sdata : has_shape data W H)
    by (apply has_shape_flips, has_shape_map, Srev).
  assert (Hperm : concat data ≡ₚ clipped).
  { unfold data. rewrite flips_perm. unfold clip.
    rewrite concat_map_map, concat_rev_perm, Hflat, map_map. reflexivity. }
  assert (Hne : concat data <> []) by (eapply concat_nonempty; eauto).
  destruct (min_of_is_Ok _ Hne) as [mn Hmin].
  destruct (max_of_is_Ok _ Hne) as [mx Hmax].
  unfold np.min, np.max. rewrite Hmin, bind_Ok. cbv beta.
  rewrite Hmax, bind_Ok. cbv beta.
  eexists _, _. split; [reflexivity |].
  cbn [CameraMLX90640._sensor_min_c CameraMLX90640._sensor_max_c
       CameraMLX90640._sensor_avg_c CameraMLX90640._grid_data].
  split; [eapply is_minimum_perm; [exact Hperm | now apply min_of_spec] |].
  split; [eapply is_maximum_perm; [exact Hperm | now apply max_of_spec] |].
  split.
  { unfold mean. rewrite (sum_perm _ _ Hperm), Hperm. unfold clipped, range.
    now rewrite length_map, length_seq. }
  split; [reflexivity |].
  split; [destruct (CameraMLX90640._auto_focus self); apply has_shape_map, Sdata |].
  intros i j Hi Hj.
  assert (Hdata : get2 data i j = Some (clipv (getFrame (i * H + (H - 1 - j))))).
  { unfold data. rewrite (get2_flips _ W H) by (try apply has_shape_map; assumption).
    unfold clip. rewrite get2_map. unfold get2 at 1.
    rewrite lookup_rev by (destruct Ssensor as [-> _]; lia).
    destruct Ssensor as [Hl Hr]. rewrite Hl.
    replace (W - 1 - (W - 1 - i)) with i by lia.
    fold (get2 sensor i (H - 1 - j)). rewrite Hcells by lia.
    unfold range. rewrite list_lookup_fmap, lookup_seq_lt by nia. reflexivity. }
  destruct (CameraMLX90640._auto_focus self);
    unfold Camera.normalize; now rewrite get2_map, Hdata.
Qed.

Lemma get2_elem_of_concat {A} (a : ndarray A) (i j : nat) (x : A) :
  get2 a i j = Some x -> x ∈ concat a.
Proof.
  unfold get2. intros Hx. destruct (a !! i) as [row |] eqn:Hrow; [| discriminate].
  cbn in Hx. apply list_elem_of_In, in_concat. exists row.
  split; apply list_elem_of_In; eapply list_elem_of_lookup_2; eauto.
Qed.

Lemma Qc_min_l (x y : Qc) : (x ≤ y)%Qc -> Qc_min x y = x.
Proof. intros H. unfold Qc_min. now rewrite bool_decide_eq_true_2. Qed.

Lemma Qc_max_r (x y : Qc) : (x ≤ y)%Qc -> Qc_max x y = y.
Proof. intros H. unfold Qc_max. now rewrite bool_decide_eq_true_2. Qed.

(** X24.  The fake camera shows a ramp.  With autofocus on, interpolation
    off and a range from [range_min_c <= 0] to [range_max_c > 0],
    [CameraFake.acquire] on a sensor of [n = W * H >= 2] elements returns a
    grid of shape (W, H): the element of sequence value [k = col * H + row]
    has the temperature [k / n * range_max_c], which the clipping leaves as
    it is; the minimum of the statistics is 0 and the maximum
    [(n - 1) / n * range_max_c]; and cell [(col, row)] of the grid holds
    [k / (n - 1)], from 0 in the first cell to 1 in the last. *)
Theorem fake_camera_ramp (self : Camera.camera) (W H : nat) :
  Camera._sensor_axis self = (W, H) -> Camera._grid_axis self = (W, H) ->
  Camera._interpolate self = false -> Camera._auto_focus self = true ->
  2 <= W * H ->
  (Camera._range_min_c self ≤ 0)%Qc -> (0 < Camera._range_max_c self)%Qc ->
  let n := Qc_of_Z (Z.of_nat (W * H)) in
  exists self' grid,
    CameraFake.acquire self = Ok (self', grid) /\
    Camera._sensor_min_c self' = 0%Qc /\
    Camera._sensor_max_c self' = ((n - 1) / n * Camera._range_max_c self)%Qc /\
    has_shape grid W H /\
    forall col row, col < W -> row < H ->
      get2 grid col row
      = Some (Fin (Qc_of_Z (Z.of_nat (col * H + row)) / (n - 1))%Qc).
Proof.
  intros Hsa Hga Hint Hauto Hn Hlo HM n.
  set (M := Camera._range_max_c self) in *.
  set (v := fun k : nat => (Qc_of_Z (Z.of_nat k) / n * M)%Qc).
  assert (Hnpos : (0 < n)%Qc) by (apply Qc_of_Z_pos; lia).
  assert (HM0 : (0 ≤ M)%Qc) by now apply Qclt_le_weak.
  assert (Hsensor : CameraFake.sensor_of self
                    = map (fun col => map (fun row => v (col * H + row)) (seq 0 H))
                        (seq 0 W)).
  { unfold CameraFake.sensor_of. now rewrite Hsa, Hga. }
  set (a := map (fun col => map (fun row => v (col * H + row)) (seq 0 H)) (seq 0 W))
    in *.
  assert (HW : 0 < W) by nia. assert (HH : 0 < H) by nia.
  assert (Sa : has_shape a W H).
  { split; [unfold a; now rewrite length_map, length_seq |].
    apply Forall_forall. intros row Hrow.
    apply list_elem_of_In, in_map_iff in Hrow as (c & <- & _).
    now rewrite length_map, length_seq. }
  assert (Hget : forall col row, col < W -> row < H ->
            get2 a col row = Some (v (col * H + row))).
  { intros col row Hc Hr. unfold get2, a.
    rewrite list_lookup_fmap, lookup_seq_lt by exact Hc. cbn.
    rewrite list_lookup_fmap, lookup_seq_lt by exact Hr. reflexivity. }
  assert (Hcells : forall x, x ∈ concat a ->
            exists k, k < W * H /\ x = v k).
  { intros x Hx. destruct (elem_of_concat_get2 a x Hx) as (c & r & Hcr).
    destruct (get2_Some_bounds _ _ _ _ _ _ Sa Hcr) as [Hc Hr].
    rewrite Hget in Hcr by assumption. injection Hcr as <-.
    exists (c * H + r). split; [nia | reflexivity]. }
  assert (Hv0 : forall k, (0 ≤ v k)%Qc).
  { intros k. unfold v. apply Qc_div_mul_nonneg; try assumption.
    rewrite <- Z2Qc_inj_0. apply Qc_of_Z_le. lia. }
  assert (Hvmono : forall k k', k <= k' -> (v k ≤ v k')%Qc).
  { intros k k' Hk. unfold v. apply Qc_div_mul_mono; try assumption.
    apply Qc_of_Z_le. lia. }
  assert (HvM : forall k, k < W * H -> (v k ≤ M)%Qc).
  { intros k Hk. eapply Qcle_trans; [apply (Hvmono k (W * H)); lia |].
    unfold v. fold n. unfold Qcdiv. rewrite Qcmult_inv_r, Qcmult_1_l.
    - apply Qcle_refl.
    - intros E. rewrite E in Hnpos. exact (Qclt_not_le _ _ Hnpos (Qcle_refl _)). }
  assert (Hclip : clip a (Camera._range_min_c self) M = a).
  { unfold clip. rewrite <- (map_id a) at 2. apply map_ext_in. intros row Hrow.
    rewrite <- (map_id row) at 2. apply map_ext_in. intros x Hx.
    destruct (Hcells x) as (k & Hk & ->).
    { apply list_elem_of_In, in_concat. eauto. }
    rewrite Qc_min_l by now apply HvM. apply Qc_max_r.
    eapply Qcle_trans; [exact Hlo | apply Hv0]. }
  assert (Hne : concat a <> []) by (eapply concat_nonempty; eauto).
  destruct (min_of_is_Ok _ Hne) as [mn Hmin].
  destruct (max_of_is_Ok _ Hne) as [mx Hmax].
  pose proof (min_of_spec _ _ Hmin) as [Hmn_in Hmn].
  pose proof (max_of_spec _ _ Hmax) as [Hmx_in Hmx].
  assert (Hfirst : v 0 ∈ concat a).
  { apply (get2_elem_of_concat a 0 0). now rewrite Hget. }
  assert (Hlast : v (W * H - 1) ∈ concat a).
  { apply (get2_elem_of_concat a (W - 1) (H - 1)). rewrite Hget by lia.
    do 2 f_equal. nia. }
  assert (Ev0 : v 0 = 0%Qc).
  { unfold v. change (Z.of_nat 0) with 0%Z. rewrite Z2Qc_inj_0.
    unfold Qcdiv. now rewrite !Qcmult_0_l. }
  assert (Emn : mn = 0%Qc).
  { apply Qcle_antisym.
    - rewrite <- Ev0. now apply Hmn.
    - destruct (Hcells mn Hmn_in) as (k & _ & ->). apply Hv0. }
  assert (Emx : mx = v (W * H - 1)).
  { apply Qcle_antisym.
    - destruct (Hcells mx Hmx_in) as (k & Hk & ->). apply Hvmono. lia.
    - now apply Hmx. }
  assert (Ev : forall k, v k = (Qc_of_Z (Z.of_nat k) / n * M)%Qc) by reflexivity.
  assert (En1 : Qc_of_Z (Z.of_nat (W * H - 1)) = (n - 1)%Qc).
  { unfold n. rewrite Nat2Z.inj_sub by lia. change (Z.of_nat 1) with 1%Z.
    rewrite Z2Qc_inj_sub, Z2Qc_inj_1. reflexivity. }
  assert (Hn1 : (0 < n - 1)%Qc).
  { rewrite <- En1. apply Qc_of_Z_pos. lia. }
  unfold CameraFake.acquire. rewrite Hsensor, (array_Ok _ _ _ Sa HW), bind_Ok.
  cbv beta zeta. fold M. rewrite Hclip. unfold np.min, np.max.
  rewrite Hmin, bind_Ok. cbv beta. rewrite Hmax, bind_Ok. cbv beta.
  rewrite Hauto, Hint. eexists _, _. split; [reflexivity |].
  cbn [Camera._sensor_min_c Camera._sensor_max_c].
  split; [exact Emn |]. split; [now rewrite Emx, Ev, En1 |].
  split; [apply has_shape_map, Sa |].
  intros col row Hc Hr. unfold Camera.normalize.
  rewrite get2_map, Hget by assumption. cbn.
  assert (Hden : (mx - mn)%Qc <> 0%Qc).
  { rewrite Emn, Emx, Ev, En1. intros E.
    assert (Hpos : (0 < (n - 1) / n * M - 0)%Qc); [| rewrite E in Hpos;
      exact (Qclt_not_le _ _ Hpos (Qcle_refl _))].
    replace ((n - 1) / n * M - 0)%Qc with ((n - 1) * / n * M)%Qc
      by (unfold Qcdiv; ring).
    apply Qcmult_pos_pos; [| exact HM].
    apply Qcmult_pos_pos; [exact Hn1 | apply Qcinv_pos, Hnpos]. }
  unfold Float.div, Float.Qc_is_zero.
  rewrite bool_decide_eq_false_2 by exact Hden. do 2 f_equal.
  rewrite Emn, Emx, !Ev, En1.
  assert (Hn0 : n <> 0%Qc)
    by (intros E; rewrite E in Hnpos; exact (Qclt_not_le _ _ Hnpos (Qcle_refl _))).
  assert (HM1 : M <> 0%Qc)
    by (intros E; rewrite E in HM; exact (Qclt_not_le _ _ HM (Qcle_refl _))).
  assert (Hn2 : (n - 1)%Qc <> 0%Qc)
    by (intros E; rewrite E in Hn1; exact (Qclt_not_le _ _ Hn1 (Qcle_refl _))).
  field. auto.
Qed.

End OtherCameras.

Lemma mlx90640_acquire_witness :
  exists self' grid,
    CameraMLX90640.acquire
      (CameraMLX90640.init_axis (2, 2) (Qc_of_Z 0, Qc_of_Z 80) true)
      (fun k => Qc_of_Z (Z.of_nat (10 * S k))) = Ok (self', grid) /\
    has_shape grid 2 2.
Proof.
  destruct (mlx90640_acquire
              (CameraMLX90640.init_axis (2, 2) (Qc_of_Z 0, Qc_of_Z 80) true)
              (fun k => Qc_of_Z (Z.of_nat (10 * S k))) 2 2)
    as (self' & grid & Hacq & _ & _ & _ & _ & Hshape & _).
  - reflexivity.
  - lia.
  - lia.
  - exists self', grid. auto.
Defined.

Lemma fake_camera_ramp_witness :
  exists self' grid,
    CameraFake.acquire
      (CameraFake.init_axis (2, 2) (Qc_of_Z 0, Qc_of_Z 80) true false)
    = Ok (self', grid) /\
    np.get2 grid 1 1
    = Some (Fin (Qc_of_Z (Z.of_nat (1 * 2 + 1))
                 / (Qc_of_Z (Z.of_nat (2 * 2)) - 1))%Qc).
Proof.
  destruct (fake_camera_ramp
              (CameraFake.init_axis (2, 2) (Qc_of_Z 0, Qc_of_Z 80) true false) 2 2)
    as (self' & grid & Hacq & _ & _ & _ & Hcells).
  - reflexivity.
  - reflexivity.
  - reflexivity.
  - reflexivity.
  - simpl. lia.
  - decide_by_computation.
  - decide_by_computation.
  - exists self', grid. split; [exact Hacq |]. apply Hcells; lia.
Defined.
